(** * IAM least-privilege generator: a shallow embedding of the core pipeline

  The development follows the Python sources under [core/]:
  - [core/models.py]               -> [Models]
  - [core/aggregator/actions.py]   -> [Aggregator]
  - [core/aggregator/conditions.py]-> [Conditions]
  - [core/inference/*.py]          -> [ResourceLevel], [ArnRules]
  - [core/policy/generator.py]     -> [Generator]
  - [core/policy/simulator.py]     -> [Simulator]
  - [core/policy/diff.py]          -> [Diff]

  Python dictionaries and sets are finite maps and finite sets ([gmap],
  [gset]); [str] is [string] (a sequence of bytes, compared by code
  point); [int] is [Z]; the quotient of two [int]s is an exact rational. *)

From Stdlib Require Import Ascii String ZArith QArith Qminmax.
From stdpp Require Import base option list strings gmap fin_maps sorting pretty.

Local Open Scope string_scope.
Local Open Scope Z_scope.

(** ** Python's ordering on [str] and on tuples of [str] *)

Module PyOrder.

(** Three-way comparison, the common core of Python's [<], [<=] and [==]
    on strings and tuples. *)
Class Cmp (A : Type) := cmp : A → A → comparison.
Global Hint Mode Cmp ! : typeclass_instances.

(** [str] compares code point by code point. *)
Global Instance string_Cmp : Cmp string := String.compare.

(** Tuples (and lists) compare lexicographically; a proper prefix is
    smaller. *)
Fixpoint list_cmp {A} `{Cmp A} (l1 l2 : list A) : comparison :=
  match l1, l2 with
  | [], [] => Eq
  | [], _ :: _ => Lt
  | _ :: _, [] => Gt
  | x :: l1', y :: l2' =>
      match cmp x y with
      | Eq => list_cmp l1' l2'
      | c => c
      end
  end.

Global Instance list_Cmp {A} `{Cmp A} : Cmp (list A) := list_cmp.

Definition prod_cmp {A B} `{Cmp A, Cmp B} (p q : A * B) : comparison :=
  match cmp p.1 q.1 with
  | Eq => cmp p.2 q.2
  | c => c
  end.

Global Instance prod_Cmp {A B} `{Cmp A, Cmp B} : Cmp (A * B) := prod_cmp.

(** [x <= y] *)
Definition py_le {A} `{Cmp A} (x y : A) : Prop := cmp x y ≠ Gt.

Global Instance py_le_dec {A} `{Cmp A} (x y : A) : Decision (py_le x y).
Proof. unfold py_le. destruct (cmp x y); [left|left|right]; congruence. Defined.

(** [sorted(xs)] *)
Definition py_sorted {A} `{Cmp A} (l : list A) : list A :=
  merge_sort py_le l.

(** [sorted(xs, key=f)] and [xs.sort(key=f)] *)
Definition key_le {A K} `{Cmp K} (f : A → K) (x y : A) : Prop :=
  py_le (f x) (f y).

Global Instance key_le_dec {A K} `{Cmp K} (f : A → K) (x y : A) :
  Decision (key_le f x y).
Proof. unfold key_le. apply _. Defined.

Definition py_sorted_by {A K} `{Cmp K} (f : A → K) (l : list A) : list A :=
  merge_sort (key_le f) l.

(** [sorted(s)] for a set [s] of strings *)
Definition sorted_set (s : gset string) : list string :=
  py_sorted (elements s).

End PyOrder.

(** ** Python string helpers *)

Module PyStr.

Definition star : ascii := "*"%char.

(** [c in s] for a one-character needle *)
Fixpoint contains_char (c : ascii) (s : string) : bool :=
  match s with
  | EmptyString => false
  | String a s' => if decide (a = c) then true else contains_char c s'
  end.

(** [s.replace(a, b)] for one-character [a] and [b] *)
Fixpoint replace_char (a b : ascii) (s : string) : string :=
  match s with
  | EmptyString => EmptyString
  | String c s' => String (if decide (c = a) then b else c) (replace_char a b s')
  end.

(** [s[:n]] *)
Definition take (n : nat) (s : string) : string := String.substring 0 n s.

(** [s.endswith(c)] for a one-character suffix *)
Fixpoint ends_with_char (c : ascii) (s : string) : bool :=
  match s with
  | EmptyString => false
  | String a EmptyString => bool_decide (a = c)
  | String _ s' => ends_with_char c s'
  end.

(** [s[:-1]] *)
Fixpoint drop_last (s : string) : string :=
  match s with
  | EmptyString => EmptyString
  | String _ EmptyString => EmptyString
  | String a s' => String a (drop_last s')
  end.

(** [s.startswith(p)] *)
Definition startswith (s p : string) : bool := String.prefix p s.

(** [x or y] on optional strings: [None] and [""] are falsy. *)
Definition truthy (o : option string) : bool :=
  match o with
  | Some s => negb (bool_decide (s = ""))
  | None => false
  end.

Definition py_or (x y : option string) : option string :=
  if truthy x then x else y.

(** [str.isspace] on the ASCII range *)
Definition is_space (c : ascii) : bool :=
  let n := N_of_ascii c in
  ((9 <=? n) && (n <=? 13) || (28 <=? n) && (n <=? 32))%N.

Fixpoint lstrip (s : string) : string :=
  match s with
  | EmptyString => EmptyString
  | String c s' => if is_space c then lstrip s' else s
  end.

(** [s.strip()] *)
Definition strip (s : string) : string :=
  String.rev (lstrip (String.rev (lstrip s))).

(** [s.split(sep)] for a one-character separator *)
Fixpoint split (sep : ascii) (s : string) : list string :=
  match s with
  | EmptyString => [EmptyString]
  | String c s' =>
      if decide (c = sep) then EmptyString :: split sep s'
      else match split sep s' with
           | [] => [String c EmptyString]
           | w :: ws => String c w :: ws
           end
  end.

(** [s.rstrip(c)] for a one-character argument *)
Fixpoint lstrip_char (c : ascii) (s : string) : string :=
  match s with
  | EmptyString => EmptyString
  | String a s' => if decide (a = c) then lstrip_char c s' else s
  end.

Definition rstrip_char (c : ascii) (s : string) : string :=
  String.rev (lstrip_char c (String.rev s)).

(** [s.split(sep, 1)[0]]: what precedes the first separator, the whole
    string when there is none *)
Fixpoint before_char (sep : ascii) (s : string) : string :=
  match s with
  | EmptyString => EmptyString
  | String c s' =>
      if decide (c = sep) then EmptyString else String c (before_char sep s')
  end.

(** [xs[:n]] for any integer [n]: a negative [n] counts from the end. *)
Definition prefix_to {A} (n : Z) (xs : list A) : list A :=
  if decide (0 ≤ n) then firstn (Z.to_nat n) xs
  else firstn (length xs - Z.to_nat (- n)) xs.

End PyStr.

(** ** core/aggregator/conditions.py *)

Module ConditionReducer.

(** The values a condition operator is bound to ([object] in the source):
    strings, lists of strings, and the other JSON shapes (numbers,
    booleans, [None], a nested map of condition keys). *)
Inductive value :=
  | VStr (s : string)
  | VList (xs : list string)
  | VInt (n : Z)
  | VBool (b : bool)
  | VNone
  | VDict (d : gmap string string).

Global Instance value_eq_dec : EqDecision value.
Proof. solve_decision. Defined.

(** [isinstance(existing, list) and isinstance(new, list)], then
    [isinstance(existing, str) and isinstance(new, str)], else [new]. *)
Definition _combine_values (existing new : value) : value :=
  match existing, new with
  | VList e, VList n =>
      VList (PyOrder.sorted_set (list_to_set e ∪ list_to_set n))
  | VStr e, VStr n =>
      if decide (e = n) then existing
      else VList (PyOrder.sorted_set ({[ e ]} ∪ {[ n ]}))
  | _, _ => new
  end.

(** Body of the inner loop [for operator, value in condition.items()]. *)
Definition merge_item (operator : string) (v : value)
    (merged : gmap string value) : gmap string value :=
  match merged !! operator with
  | None => <[operator := v]> merged
  | Some existing => <[operator := _combine_values existing v]> merged
  end.

Definition merge_condition (merged condition : gmap string value)
    : gmap string value :=
  map_fold merge_item merged condition.

Definition merge (conditions : list (gmap string value)) : gmap string value :=
  fold_left merge_condition conditions ∅.

End ConditionReducer.

(** ** core/models.py *)

Module EventModel.

(** [event_time] is a [datetime], modelled by its position on the time
    line; [request_parameters] keeps the string-valued parameters. *)
Record t := {
  event_time : Z;
  principal_arn : string;
  principal_type : string;
  account_id : string;
  region : string;
  event_source : string;
  action : string;
  request_parameters : gmap string string;
  response_elements : gmap string string;
  resource_arns : list string;
  error_code : option string;
  aws_service : string;
  is_read_only : bool;
  is_denied_pre_policy : bool
}.

End EventModel.

Module ActionRecord.

Record t := {
  principal_arn : string;
  service : string;
  action : string;
  count : Z;
  resources : list string;
  conditions : list (gmap string ConditionReducer.value);
  last_seen : option Z
}.

(** [if resource not in self.resources: self.resources.append(resource)] *)
Definition add_resource (rs : list string) (resource : string) : list string :=
  if decide (resource ∈ rs) then rs else rs ++ [resource].

Definition register (self : t) (event : EventModel.t) : t :=
  {| principal_arn := principal_arn self;
     service := service self;
     action := action self;
     count := count self + 1;
     resources := fold_left add_resource (EventModel.resource_arns event) (resources self);
     conditions := conditions self;
     last_seen :=
       match last_seen self with
       | None => Some (EventModel.event_time event)
       | Some seen =>
           if decide (EventModel.event_time event > seen)
           then Some (EventModel.event_time event)
           else Some seen
       end |}.

End ActionRecord.

Module PolicyStatement.

Record t := {
  sid : option string;
  effect : string;
  actions : list string;
  resources : list string;
  conditions : gmap string ConditionReducer.value
}.

End PolicyStatement.

Module PolicyDoc.

Record t := {
  version : string;
  statements : list PolicyStatement.t
}.

(** [PolicyDoc(statements=...)] with the default version tag *)
Definition make (statements : list PolicyStatement.t) : t :=
  {| version := "2012-10-17"; statements := statements |}.

(** The service an action belongs to: [action.split(":", 1)[0]] *)
Definition service_of (action : string) : string :=
  PyStr.before_char ":"%char action.

(** The computed field [services]: the sorted, distinct services of all
    actions of the document. *)
Definition services (self : t) : list string :=
  PyOrder.sorted_set
    (fold_left
       (λ services statement,
          fold_left (λ services action, services ∪ {[ service_of action ]})
            (PolicyStatement.actions statement) services)
       (statements self) ∅).

End PolicyDoc.

(** ** core/aggregator/actions.py *)

Module ActionAggregator.

(** A constructor argument of type [Iterable[str] | str | None]. *)
Inductive patterns_arg :=
  | ArgNone
  | ArgStr (s : string)
  | ArgList (l : list string).

(** [[pat.strip() for pat in arg.split(",") if pat.strip()]] when the
    argument is a string, [list(arg or [])] otherwise. *)
Definition parse_patterns (arg : patterns_arg) : list string :=
  match arg with
  | ArgStr s =>
      PyStr.strip <$> filter (λ pat, PyStr.strip pat ≠ "") (PyStr.split ","%char s)
  | ArgList l => l
  | ArgNone => []
  end.

Section WithLibraries.
(** The standard-library collaborators: compiled regular expressions
    ([re.compile], which raises on a malformed expression, and
    [Pattern.search]) and [fnmatch.fnmatch name pattern]. *)
Context {regex : Type}.
Variable re_compile : string → option regex.
Variable re_search : regex → string → bool.
Variable fnmatch : string → string → bool.

Record t := {
  principal_pattern : option regex;
  exclude_patterns : list string;
  allow_patterns : list string;
  allow_principals : list string;
  allow_resource_patterns : list string;
  min_count : Z
}.

(** The constructor; [None] stands for the exception raised by
    [re.compile].  The persistence sink ([self.table], [_upsert]) is a
    best-effort write to an external store performed after the result
    list is complete; it does not change the list and is left out. *)
Definition __init__ (principal_filter : option string)
    (exclude_actions allow_actions allow_principals allow_resources : patterns_arg)
    (min_count : Z) : option t :=
  pat ← (if PyStr.truthy principal_filter
         then Some <$> (principal_filter ≫= re_compile)
         else Some None);
  Some {| principal_pattern := pat;
          exclude_patterns := parse_patterns exclude_actions;
          allow_patterns := parse_patterns allow_actions;
          allow_principals := parse_patterns allow_principals;
          allow_resource_patterns := parse_patterns allow_resources;
          min_count := Z.max min_count 1 |}.

Definition _include_principal (self : t) (principal : string) : bool :=
  match principal_pattern self with
  | None => true
  | Some p => re_search p principal
  end.

Definition _normalize_action (event : EventModel.t) : string :=
  let action := EventModel.action event in
  if PyStr.contains_char ":"%char action then action
  else EventModel.aws_service event +:+ ":" +:+ action.

Definition _is_excluded (self : t) (action : string) : bool :=
  existsb (λ pattern, fnmatch action pattern) (exclude_patterns self).

Definition _is_allowlisted (self : t) (action principal : string)
    (resources : list string) : bool :=
  existsb (λ pattern, fnmatch action pattern) (allow_patterns self)
  || existsb (λ pattern, fnmatch principal pattern) (allow_principals self)
  || existsb (λ pattern, existsb (λ resource, fnmatch resource pattern) resources)
       (allow_resource_patterns self).

(** The dictionary key [(principal_arn, aws_service, action_name)] *)
Definition key : Type := string * string * string.

Definition new_record (event : EventModel.t) (action_name : string)
    : ActionRecord.t :=
  {| ActionRecord.principal_arn := EventModel.principal_arn event;
     ActionRecord.service := EventModel.aws_service event;
     ActionRecord.action := action_name;
     ActionRecord.count := 0;
     ActionRecord.resources := [];
     ActionRecord.conditions := [];
     ActionRecord.last_seen := None |}.

(** One iteration of [for event in events]. *)
Definition fold_event (self : t) (states : gmap key ActionRecord.t)
    (event : EventModel.t) : gmap key ActionRecord.t :=
  if negb (_include_principal self (EventModel.principal_arn event)) then states
  else
    let action_name := _normalize_action event in
    if _is_excluded self action_name then states
    else
      let k := (EventModel.principal_arn event, EventModel.aws_service event,
                action_name) in
      let record := default (new_record event action_name) (states !! k) in
      <[k := ActionRecord.register record event]> states.

(** [lambda rec: (rec.principal_arn, rec.service, rec.action)] *)
Definition sort_key (rec : ActionRecord.t) : key :=
  (ActionRecord.principal_arn rec, ActionRecord.service rec,
   ActionRecord.action rec).

Definition keeps (self : t) (rec : ActionRecord.t) : bool :=
  bool_decide (ActionRecord.count rec >= min_count self)
  && negb (_is_allowlisted self (ActionRecord.action rec)
             (ActionRecord.principal_arn rec) (ActionRecord.resources rec)).

(** [states.values()] enumerates the dictionary; the enumeration order
    is immaterial because the list is sorted on keys that are pairwise
    distinct. *)
Definition aggregate (self : t) (events : list EventModel.t)
    : list ActionRecord.t :=
  let states := fold_left (fold_event self) events ∅ in
  let records := filter (λ rec, keeps self rec = true) (map_to_list states).*2 in
  PyOrder.py_sorted_by sort_key records.

End WithLibraries.

End ActionAggregator.

(** ** core/inference/resource_level.py *)

Module ResourceLevelIndex.

Definition _DEFAULT_SUPPORT : gmap string bool :=
  list_to_map [
    ("s3:GetObject", true); ("s3:PutObject", true); ("s3:DeleteObject", true);
    ("s3:ListBucket", true); ("s3:ListAllMyBuckets", false);
    ("dynamodb:PutItem", true); ("dynamodb:GetItem", true);
    ("dynamodb:DeleteItem", true); ("dynamodb:Query", true);
    ("dynamodb:Scan", true); ("dynamodb:ListTables", false);
    ("lambda:InvokeFunction", true); ("lambda:ListFunctions", false);
    ("sqs:SendMessage", true); ("sqs:ReceiveMessage", true);
    ("sqs:DeleteMessage", true); ("sqs:ListQueues", false);
    ("sns:Publish", true); ("sns:ListTopics", false);
    ("kms:Decrypt", true); ("kms:Encrypt", true); ("kms:ListKeys", false);
    ("secretsmanager:GetSecretValue", true); ("secretsmanager:ListSecrets", false);
    ("ssm:GetParameter", true); ("ssm:PutParameter", true);
    ("ssm:DescribeParameters", false);
    ("ec2:StartInstances", true); ("ec2:StopInstances", true);
    ("ec2:DescribeInstances", false)
  ].

Record t := { supports_resource_level : gmap string bool }.

(** [ResourceLevelIndex()] *)
Definition make : t := {| supports_resource_level := _DEFAULT_SUPPORT |}.

Definition allows_scoping (self : t) (action : string) : bool :=
  default false (supports_resource_level self !! action).

Definition register (self : t) (action : string) (scoped : bool) : t :=
  {| supports_resource_level := <[action := scoped]> (supports_resource_level self) |}.

End ResourceLevelIndex.

(** ** core/inference/arn_rules.py *)

Module ArnRuleRegistry.

Definition ArnSet : Type := gset string.
Definition Extractor : Type := EventModel.t → ArnSet.

Definition _default_fallback (_event : EventModel.t) : ArnSet := {[ "*" ]}.

(** [arns or {"*"}] *)
Definition or_star (arns : ArnSet) : ArnSet :=
  if decide (arns = ∅) then {[ "*" ]} else arns.

(** [params.get(a) or params.get(b)] *)
Definition param2 (event : EventModel.t) (a b : string) : option string :=
  PyStr.py_or (EventModel.request_parameters event !! a)
              (EventModel.request_parameters event !! b).

Definition text (o : option string) : string := default "" o.

Definition infer_s3_arn (event : EventModel.t) : ArnSet :=
  let bucket := param2 event "bucketName" "Bucket" in
  let key := param2 event "key" "Key" in
  let arns : ArnSet :=
    if PyStr.truthy bucket then
      (if PyStr.truthy key
       then {[ "arn:aws:s3:::" +:+ text bucket +:+ "/" +:+ text key ]}
       else ∅) ∪ {[ "arn:aws:s3:::" +:+ text bucket ]}
    else ∅ in
  or_star (arns ∪ list_to_set (EventModel.resource_arns event)).

Definition scoped_arn (service : string) (event : EventModel.t) (tail : string)
    : string :=
  "arn:aws:" +:+ service +:+ ":" +:+ EventModel.region event +:+ ":"
    +:+ EventModel.account_id event +:+ ":" +:+ tail.

Definition infer_dynamodb_arn (event : EventModel.t) : ArnSet :=
  let table := param2 event "tableName" "TableName" in
  if PyStr.truthy table
  then {[ scoped_arn "dynamodb" event ("table/" +:+ text table) ]}
  else or_star (list_to_set (EventModel.resource_arns event)).

Definition infer_lambda_arn (event : EventModel.t) : ArnSet :=
  let function :=
    PyStr.py_or (param2 event "functionName" "FunctionName")
                (EventModel.request_parameters event !! "Function") in
  if PyStr.truthy function
  then {[ scoped_arn "lambda" event ("function:" +:+ text function) ]}
  else or_star (list_to_set (EventModel.resource_arns event)).

Definition infer_sqs_arn (event : EventModel.t) : ArnSet :=
  let queue_url := param2 event "queueUrl" "QueueUrl" in
  let queue_name := param2 event "queueName" "QueueName" in
  let arns : ArnSet := list_to_set (EventModel.resource_arns event) in
  let queue_name :=
    if PyStr.truthy queue_url && negb (PyStr.truthy queue_name)
    then Some (List.last (PyStr.split "/"%char
                            (PyStr.rstrip_char "/"%char (text queue_url))) "")
    else queue_name in
  or_star (if PyStr.truthy queue_name
           then arns ∪ {[ scoped_arn "sqs" event (text queue_name) ]}
           else arns).

Definition infer_sns_arn (event : EventModel.t) : ArnSet :=
  let topic_arn :=
    PyStr.py_or (param2 event "topicArn" "TopicArn")
                (EventModel.request_parameters event !! "TopicARN") in
  let topic_name := param2 event "topicName" "TopicName" in
  let arns : ArnSet := list_to_set (EventModel.resource_arns event) in
  or_star (if PyStr.truthy topic_arn then arns ∪ {[ text topic_arn ]}
           else if PyStr.truthy topic_name
           then arns ∪ {[ scoped_arn "sns" event (text topic_name) ]}
           else arns).

Definition infer_kms_arn (event : EventModel.t) : ArnSet :=
  let key_arn := param2 event "keyArn" "KeyId" in
  let key_id := EventModel.request_parameters event !! "keyId" in
  let arns : ArnSet := list_to_set (EventModel.resource_arns event) in
  or_star (if PyStr.truthy key_arn then arns ∪ {[ text key_arn ]}
           else if PyStr.truthy key_id
           then arns ∪ {[ scoped_arn "kms" event ("key/" +:+ text key_id) ]}
           else arns).

Definition infer_secretsmanager_arn (event : EventModel.t) : ArnSet :=
  let secret_id := param2 event "secretId" "SecretId" in
  let arns : ArnSet := list_to_set (EventModel.resource_arns event) in
  or_star (if PyStr.truthy secret_id then
             if PyStr.startswith (text secret_id) "arn:aws:secretsmanager"
             then arns ∪ {[ text secret_id ]}
             else arns ∪ {[ scoped_arn "secretsmanager" event
                              ("secret:" +:+ text secret_id +:+ "*") ]}
           else arns).

Definition infer_ssmparam_arn (event : EventModel.t) : ArnSet :=
  let name := param2 event "name" "Name" in
  let arns : ArnSet := list_to_set (EventModel.resource_arns event) in
  or_star (if PyStr.truthy name
           then arns ∪ {[ scoped_arn "ssm" event ("parameter/" +:+ text name) ]}
           else arns).

Definition infer_ec2_arn (event : EventModel.t) : ArnSet :=
  let resource_id :=
    PyStr.py_or (PyStr.py_or (param2 event "instanceId" "InstanceId")
                             (EventModel.request_parameters event !! "resourceId"))
                (EventModel.request_parameters event !! "ResourceId") in
  let arns : ArnSet := list_to_set (EventModel.resource_arns event) in
  or_star (if PyStr.truthy resource_id then
             let res_type :=
               if PyStr.startswith (text resource_id) "vol-" then "volume"
               else if PyStr.startswith (text resource_id) "snap-" then "snapshot"
               else "instance" in
             arns ∪ {[ scoped_arn "ec2" event
                         (res_type +:+ "/" +:+ text resource_id) ]}
           else arns).

Record t := { service_rules : gmap string (list Extractor) }.

(** [self.service_rules.setdefault(service, []).append(extractor)] *)
Definition register (self : t) (service : string) (extractor : Extractor) : t :=
  {| service_rules :=
       <[service := (default [] (service_rules self !! service) ++ [extractor])%list]>
         (service_rules self) |}.

Definition _register_defaults (self : t) : t :=
  foldl (λ reg rule, register reg rule.1 rule.2) self
    [ ("s3", infer_s3_arn); ("dynamodb", infer_dynamodb_arn);
      ("lambda", infer_lambda_arn); ("sqs", infer_sqs_arn);
      ("sns", infer_sns_arn); ("kms", infer_kms_arn);
      ("secretsmanager", infer_secretsmanager_arn);
      ("ssm", infer_ssmparam_arn); ("ec2", infer_ec2_arn) ].

(** The dataclass constructor followed by [__post_init__]. *)
Definition make (service_rules : gmap string (list Extractor)) : t :=
  let self := {| service_rules := service_rules |} in
  if decide (size service_rules = 0%nat) then _register_defaults self else self.

Definition infer (self : t) (event : EventModel.t) : ArnSet :=
  match default [] (service_rules self !! EventModel.aws_service event) with
  | [] => _default_fallback event
  | extractors =>
      or_star (foldl (λ candidates extractor, candidates ∪ extractor event)
                 ∅ extractors)
  end.

(** The registry lookup used by the policy generator. *)
Definition infer_from_record (self : t) (record : ActionRecord.t) : gset string :=
  match ActionRecord.resources record with
  | [] => ∅
  | resources => list_to_set resources
  end.

End ArnRuleRegistry.

(** ** core/policy/generator.py *)

Module PolicyGenerator.

Import ConditionReducer.

Fixpoint zeros (n : nat) : string :=
  match n with
  | O => EmptyString
  | S n' => String "0"%char (zeros n')
  end.

(** Left-pad a digit string with zeros up to [width]. *)
Definition zfill (width : nat) (digits : string) : string :=
  zeros (width - String.length digits) +:+ digits.

(** [f"{counter:03d}"]: the sign counts towards the width. *)
Definition format_03d (counter : Z) : string :=
  if decide (counter < 0)
  then "-" +:+ zfill 2 (pretty (Z.to_N (- counter)))
  else zfill 3 (pretty (Z.to_N counter)).

Definition _build_sid (service : string) (counter : Z) : string :=
  let replaced :=
    PyStr.replace_char "-"%char "_"%char (PyStr.replace_char ":"%char "_"%char service) in
  let prefix :=
    if decide (PyStr.take 40 replaced = "") then "svc" else PyStr.take 40 replaced in
  let sid := prefix +:+ "_allow_" +:+ format_03d counter in
  PyStr.take 128 sid.

(** [range(start, stop, step)] for a non-zero step; the number of elements
    never exceeds [|stop - start|]. *)
Fixpoint range_go (fuel : nat) (i stop step : Z) : list Z :=
  match fuel with
  | O => []
  | S fuel' =>
      if (if decide (0 < step) then bool_decide (i < stop) else bool_decide (stop < i))
      then i :: range_go fuel' (i + step) stop step
      else []
  end.

Definition py_range (start stop step : Z) : list Z :=
  range_go (Z.to_nat (Z.abs (stop - start))) start stop step.

(** [xs[i:j]] for [0 <= i <= j] *)
Definition slice {A} (xs : list A) (i j : Z) : list A :=
  take (Z.to_nat (j - i)) (drop (Z.to_nat i) xs).

(** The grouping key [(service, resources, condition_key)] *)
Definition group_key : Type := string * list string * string.

Record t := {
  arn_rules : ArnRuleRegistry.t;
  resource_levels : ResourceLevelIndex.t;
  mode : string;
  include_logs_baseline : bool;
  principal_arn : option string;
  max_statements : option Z
}.

(** The constructor; [None] stands for the [ValueError] on an unknown mode. *)
Definition __init__ (arn_rules : option ArnRuleRegistry.t)
    (resource_levels : option ResourceLevelIndex.t) (mode : string)
    (include_logs_baseline : bool) (principal_arn : option string)
    (max_statements : option Z) : option t :=
  if decide (mode = "actions" ∨ mode = "resources") then
    Some {| arn_rules := default (ArnRuleRegistry.make ∅) arn_rules;
            resource_levels := default ResourceLevelIndex.make resource_levels;
            mode := mode;
            include_logs_baseline := include_logs_baseline;
            principal_arn := principal_arn;
            max_statements := max_statements |}
  else None.

Definition _determine_resources (self : t) (record : ActionRecord.t) : list string :=
  let resources :=
    match ActionRecord.resources record with
    | [] => []
    | observed => PyOrder.sorted_set (list_to_set observed)
    end in
  match resources with
  | _ :: _ => resources
  | [] =>
      if bool_decide (mode self = "resources")
         && ResourceLevelIndex.allows_scoping (resource_levels self)
              (ActionRecord.action record)
      then
        let inferred := ArnRuleRegistry.infer_from_record (arn_rules self) record in
        if decide (inferred = ∅) then ["*"] else PyOrder.sorted_set inferred
      else ["*"]
  end.

Definition _logs_baseline_statement : PolicyStatement.t :=
  {| PolicyStatement.sid := Some (_build_sid "logs" 1);
     PolicyStatement.effect := "Allow";
     PolicyStatement.actions :=
       ["logs:CreateLogGroup"; "logs:CreateLogStream"; "logs:PutLogEvents"];
     PolicyStatement.resources := ["arn:aws:logs:*:*:log-group:/aws/lambda/*"];
     PolicyStatement.conditions := ∅ |}.

Definition _chunk_statements (self : t) (statements : list PolicyStatement.t)
    : list PolicyDoc.t :=
  match max_statements self with
  | None => [PolicyDoc.make statements]
  | Some m =>
      if bool_decide (m = 0) || bool_decide (Z.of_nat (length statements) <= m)
      then [PolicyDoc.make statements]
      else
        let chunks :=
          (λ index, slice statements index (index + m))
            <$> py_range 0 (Z.of_nat (length statements)) m in
        PolicyDoc.make <$> chunks
  end.

Section WithJson.
(** [json.dumps(d, sort_keys=True)] from the Python standard library. *)
Variable json_dumps : gmap string value → string.

Definition condition_key (condition_dict : gmap string value) : string :=
  if decide (condition_dict = ∅) then "{}" else json_dumps condition_dict.

Definition key_of (self : t) (record : ActionRecord.t) : group_key :=
  (ActionRecord.service record, _determine_resources self record,
   condition_key (merge (ActionRecord.conditions record))).

(** One iteration of the first loop of [_compose_statements]. *)
Definition group_record (self : t)
    (st : gmap group_key (gset string) * gmap group_key (gmap string value))
    (record : ActionRecord.t)
    : gmap group_key (gset string) * gmap group_key (gmap string value) :=
  let condition_dict := merge (ActionRecord.conditions record) in
  let k := key_of self record in
  let st' :=
    match st.1 !! k with
    | None => (<[k := ∅]> st.1, <[k := condition_dict]> st.2)
    | Some _ => st
    end in
  (alter (λ actions, actions ∪ {[ ActionRecord.action record ]}) k st'.1, st'.2).

(** One iteration of the second loop, over [sorted(grouped.items())]; the
    key looked up in [conditions_map] is always present. *)
Definition emit_statement (conditions_map : gmap group_key (gmap string value))
    (st : gmap string Z * list PolicyStatement.t)
    (item : group_key * gset string) : gmap string Z * list PolicyStatement.t :=
  let '(service, resources, _) := item.1 in
  let counter := default 0 (st.1 !! service) + 1 in
  let statement :=
    {| PolicyStatement.sid := Some (_build_sid service counter);
       PolicyStatement.effect := "Allow";
       PolicyStatement.actions := PyOrder.sorted_set item.2;
       PolicyStatement.resources := resources;
       PolicyStatement.conditions := default ∅ (conditions_map !! item.1) |} in
  (<[service := counter]> st.1, (st.2 ++ [statement])%list).

Definition _compose_statements (self : t) (records : list ActionRecord.t)
    : list PolicyStatement.t :=
  let '(grouped, conditions_map) := fold_left (group_record self) records (∅, ∅) in
  (fold_left (emit_statement conditions_map)
     (PyOrder.py_sorted_by fst (map_to_list grouped)) (∅, [])).2.

(** [build] returns the primary document together with the value it leaves
    in [self.additional_policies]; [None] stands for the [IndexError] of
    [policies[0]] on an empty chunk list. *)
Definition build (self : t) (actions : list ActionRecord.t)
    : option (PolicyDoc.t * list PolicyDoc.t) :=
  match actions with
  | [] => Some (PolicyDoc.make [], [])
  | records =>
      let statements := _compose_statements self records in
      let statements :=
        if include_logs_baseline self
           && existsb (λ record, bool_decide (ActionRecord.service record = "lambda"))
                records
        then (statements ++ [_logs_baseline_statement])%list
        else statements in
      match _chunk_statements self statements with
      | [] => None
      | first :: rest => Some (first, rest)
      end
  end.

End WithJson.

End PolicyGenerator.

(** ** core/policy/simulator.py *)

Module PolicySimulator.

Record SimulationCase := {
  action : string;
  resource : string;
  context : option (gmap string string)
}.

Definition wildcard_match (pattern subject : string) : bool :=
  PyStr.ends_with_char PyStr.star pattern
  && PyStr.startswith subject (PyStr.drop_last pattern).

Definition _action_matches (action : string) (patterns : list string) : bool :=
  existsb (λ pattern, bool_decide (pattern = action) || wildcard_match pattern action)
    patterns.

Definition _resource_matches (resource : string) (patterns : list string) : bool :=
  match patterns with
  | [] => bool_decide (resource = "*")
  | _ =>
      existsb (λ pattern,
                 bool_decide (pattern = "*") || bool_decide (pattern = resource)
                 || wildcard_match pattern resource)
        patterns
  end.

(** The inner loop of [_local_simulate]: scan the statements in order and
    stop at the first one that passes the three tests. *)
Fixpoint decision (statements : list PolicyStatement.t) (case : SimulationCase)
    : string :=
  match statements with
  | [] => "Deny"
  | statement :: rest =>
      if negb (bool_decide (PolicyStatement.effect statement = "Allow"))
      then decision rest case
      else if negb (_action_matches (action case) (PolicyStatement.actions statement))
      then decision rest case
      else if negb (_resource_matches (resource case)
                      (PolicyStatement.resources statement))
      then decision rest case
      else "Allow"
  end.

Definition _local_simulate (policy : PolicyDoc.t) (cases : list SimulationCase)
    : gmap (string * string) string :=
  fold_left
    (λ results case,
       <[(action case, resource case) := decision (PolicyDoc.statements policy) case]>
         results)
    cases ∅.

Record row := {
  row_action : string;
  row_resource : string;
  row_context : gmap string string;
  row_before : string;
  row_after : string
}.

(** [compare] with no external evaluator configured ([client=None]). *)
Definition compare (before after : PolicyDoc.t) (cases : list SimulationCase)
    : list row :=
  let before_results := _local_simulate before cases in
  let after_results := _local_simulate after cases in
  (λ case,
     let k := (action case, resource case) in
     {| row_action := action case;
        row_resource := resource case;
        row_context := default ∅ (context case);
        row_before := default "Deny" (before_results !! k);
        row_after := default "Deny" (after_results !! k) |}) <$> cases.

End PolicySimulator.

(** ** core/policy/diff.py *)

Module PolicyDiff.

Record t := { before : PolicyDoc.t; after : PolicyDoc.t }.

Definition _count_actions (policy : PolicyDoc.t) : Z :=
  fold_left (λ total statement,
               total + Z.of_nat (length (PolicyStatement.actions statement)))
    (PolicyDoc.statements policy) 0.

Definition _count_resources (policy : PolicyDoc.t) : Z :=
  fold_left (λ total statement,
               total + Z.of_nat (length (PolicyStatement.resources statement)))
    (PolicyDoc.statements policy) 0.

Definition statement_delta (self : t) : Z :=
  Z.of_nat (length (PolicyDoc.statements (after self)))
  - Z.of_nat (length (PolicyDoc.statements (before self))).

Definition allowed_action_delta (self : t) : Z :=
  _count_actions (after self) - _count_actions (before self).

(** [max(x, y)]: the first argument unless the second is strictly larger. *)
Definition py_max (x y : Q) : Q := if Qle_bool y x then x else y.

(** [a / b] on integers ([b] non-zero), as an exact rational. *)
Definition true_div (a b : Z) : Q := (inject_Z a / inject_Z b)%Q.

Definition resource_reduction_ratio (self : t) : Q :=
  let before_resources := _count_resources (before self) in
  let after_resources := _count_resources (after self) in
  if decide (before_resources = 0) then 0%Q
  else
    let reduction := before_resources - after_resources in
    py_max (true_div reduction before_resources) 0%Q.

Definition _denied_reduction (before after : Z) : Q :=
  if decide (before <= 0) then 0%Q
  else
    let reduction := before - after in
    py_max (true_div reduction before) 0%Q.

Definition HIGH_RISK_SERVICES : gset string :=
  {[ "iam"; "kms"; "organizations"; "sts" ]}.

Definition _high_risk (policy : PolicyDoc.t) : Z :=
  fold_left
    (λ total statement,
       fold_left
         (λ total action,
            if decide (PolicyDoc.service_of action ∈ HIGH_RISK_SERVICES)
            then total + 1 else total)
         (PolicyStatement.actions statement) total)
    (PolicyDoc.statements policy) 0.

Definition high_risk_reduction (self : t) : Z :=
  _high_risk (before self) - _high_risk (after self).

Definition _service_counts (policy : PolicyDoc.t) : gmap string Z :=
  fold_left
    (λ counts statement,
       fold_left
         (λ counts action,
            let service := PolicyDoc.service_of action in
            <[service := default 0 (counts !! service) + 1]> counts)
         (PolicyStatement.actions statement) counts)
    (PolicyDoc.statements policy) ∅.

(** The services whose action count went down, by service name, cut to
    [entries[:limit]].  The set of services is enumerated in some order
    and the entries are then sorted on the service name, which is
    different for each entry. *)
Definition _top_service_changes (self : t) (limit : Z) : list (string * Z * Z) :=
  let before_counts := _service_counts (before self) in
  let after_counts := _service_counts (after self) in
  let entries :=
    omap (λ service,
            let before := default 0 (before_counts !! service) in
            let after := default 0 (after_counts !! service) in
            if decide (before > after) then Some (service, before, after) else None)
      (elements (dom before_counts ∪ dom after_counts)) in
  PyStr.prefix_to limit (PyOrder.py_sorted_by (λ item, item.1.1) entries).

(** The dictionary returned by [as_json]. *)
Record metrics := {
  statementDelta : Z;
  allowedActionDelta : Z;
  resourceReductionRatio : Q;
  accessDeniedReduction : Q;
  highRiskServiceReduction : Z
}.

Definition as_json (self : t) (access_denied_before access_denied_after : Z)
    : metrics :=
  {| statementDelta := statement_delta self;
     allowedActionDelta := allowed_action_delta self;
     resourceReductionRatio := resource_reduction_ratio self;
     accessDeniedReduction := _denied_reduction access_denied_before access_denied_after;
     highRiskServiceReduction := high_risk_reduction self |}.

End PolicyDiff.

(** ** cli/main.py: the allowlist helpers around the generator and the diff *)

Module Cli.

(** The dictionary returned by [load_allowlist]; a missing or null list
    is the empty list ([allowlist.get(key, []) or []]). *)
Record allowlist := {
  actions : list string;
  resources : list string;
  principals : list string;
  reason : option string;
  owner : option string;
  expiresAt : option string
}.

Record waiver := {
  waiver_action : string;
  waiver_principal : string;
  waiver_resources : list string;
  waiver_reason : option string;
  waiver_owner : option string;
  waiver_expiresAt : option string
}.

Record detail := {
  detail_action : string;
  detail_before : string;
  detail_after : string;
  detail_waived : bool;
  detail_reason : option string;
  detail_owner : option string;
  detail_expiresAt : option string
}.

Section WithFnmatch.
Variable fnmatch : string → string → bool.

Definition _is_allowlisted (action principal : string) (res : list string)
    (allowed : allowlist) : bool :=
  if existsb (λ pattern, fnmatch action pattern) (actions allowed) then true
  else if negb (bool_decide (principal = ""))
          && existsb (λ pattern, fnmatch principal pattern) (principals allowed)
  then true
  else
    match resources allowed with
    | [] => false
    | resource_patterns =>
        existsb (λ resource,
                   existsb (λ pattern, fnmatch resource pattern) resource_patterns)
          res
    end.

(** One iteration of the loop of [_apply_allowlist]. *)
Definition apply_step (allowed : allowlist)
    (st : list ActionRecord.t * list waiver) (record : ActionRecord.t)
    : list ActionRecord.t * list waiver :=
  let principal := ActionRecord.principal_arn record in
  let res := ActionRecord.resources record in
  if _is_allowlisted (ActionRecord.action record) principal res allowed
  then (st.1, st.2 ++ [ {| waiver_action := ActionRecord.action record;
                           waiver_principal := principal;
                           waiver_resources := res;
                           waiver_reason := reason allowed;
                           waiver_owner := owner allowed;
                           waiver_expiresAt := expiresAt allowed |} ])%list
  else ((st.1 ++ [record])%list, st.2).

Definition _apply_allowlist (records : list ActionRecord.t) (allowed : allowlist)
    : list ActionRecord.t * list waiver :=
  fold_left (apply_step allowed) records ([], []).

(** The inner function [collect] of [_resource_differences]: every action
    is bound to the resources of the last statement that lists it, with
    "*" for an empty resource list and for an empty resource string. *)
Definition collect (policy : PolicyDoc.t) : gmap string (list string) :=
  fold_left
    (λ mapping statement,
       let res :=
         match PolicyStatement.resources statement with
         | [] => ["*"]
         | listed => listed
         end in
       let normalized :=
         (λ resource, if decide (resource = "") then "*" else resource) <$> res in
       fold_left (λ mapping action, <[action := normalized]> mapping)
         (PolicyStatement.actions statement) mapping)
    (PolicyDoc.statements policy) ∅.

Definition _resource_differences (before after : PolicyDoc.t) (allowed : allowlist)
    : list detail :=
  let before_map := collect before in
  let after_map := collect after in
  omap (λ action,
          let before_resources := default ["*"] (before_map !! action) in
          let after_resources := default ["*"] (after_map !! action) in
          if decide (before_resources ≠ after_resources) then
            let waived := _is_allowlisted action "" after_resources allowed in
            Some {| detail_action := action;
                    detail_before := String.concat ", " before_resources;
                    detail_after := String.concat ", " after_resources;
                    detail_waived := waived;
                    detail_reason := if waived then reason allowed else None;
                    detail_owner := if waived then owner allowed else None;
                    detail_expiresAt := if waived then expiresAt allowed else None |}
          else None)
    (PyOrder.sorted_set (dom before_map ∪ dom after_map)).

End WithFnmatch.

End Cli.

(** ** apiserver/routes/generate.py: the allowlist filter of the API route *)

Module ApiGenerate.

Section WithFnmatch.
Variable fnmatch : string → string → bool.

(** The inner function [is_allowed] of [_filter_allowlist]. *)
Definition is_allowed (allowed : Cli.allowlist) (record : ActionRecord.t) : bool :=
  if existsb (λ pattern, fnmatch (ActionRecord.action record) pattern)
       (Cli.actions allowed) then true
  else if existsb (λ pattern, fnmatch (ActionRecord.principal_arn record) pattern)
            (Cli.principals allowed) then true
  else
    match ActionRecord.resources record with
    | [] => false
    | res =>
        existsb (λ pattern, existsb (λ resource, fnmatch resource pattern) res)
          (Cli.resources allowed)
    end.

Definition filter_step (allowed : Cli.allowlist)
    (st : list ActionRecord.t * list Cli.waiver) (record : ActionRecord.t)
    : list ActionRecord.t * list Cli.waiver :=
  if is_allowed allowed record
  then (st.1, st.2 ++ [ {| Cli.waiver_action := ActionRecord.action record;
                           Cli.waiver_principal := ActionRecord.principal_arn record;
                           Cli.waiver_resources := ActionRecord.resources record;
                           Cli.waiver_reason := Cli.reason allowed;
                           Cli.waiver_owner := Cli.owner allowed;
                           Cli.waiver_expiresAt := Cli.expiresAt allowed |} ])%list
  else ((st.1 ++ [record])%list, st.2).

Definition _filter_allowlist (records : list ActionRecord.t)
    (allowed : Cli.allowlist) : list ActionRecord.t * list Cli.waiver :=
  fold_left (filter_step allowed) records ([], []).

End WithFnmatch.

End ApiGenerate.

(** * Properties *)

(** ** The ordering is a total order *)

Module PyOrderFacts.

Import PyOrder.

Class CmpLaws (A : Type) `{Cmp A} := {
  cmp_eq (x y : A) : cmp x y = Eq → x = y;
  cmp_refl (x : A) : cmp x x = Eq;
  cmp_flip (x y : A) : cmp y x = CompOpp (cmp x y);
  cmp_lt_trans (x y z : A) : cmp x y = Lt → cmp y z = Lt → cmp x z = Lt
}.
Global Hint Mode CmpLaws ! - : typeclass_instances.

Lemma ascii_compare_refl (a : ascii) : Ascii.compare a a = Eq.
Proof. apply N.compare_refl. Qed.

Lemma ascii_compare_lt_trans (a b c : ascii) :
  Ascii.compare a b = Lt → Ascii.compare b c = Lt → Ascii.compare a c = Lt.
Proof. unfold Ascii.compare. rewrite !N.compare_lt_iff. lia. Qed.

Lemma string_compare_refl (s : string) : String.compare s s = Eq.
Proof. induction s as [|a s IH]; simpl; [done|]. by rewrite ascii_compare_refl. Qed.

Lemma string_compare_lt_trans (x y z : string) :
  String.compare x y = Lt → String.compare y z = Lt → String.compare x z = Lt.
Proof.
  revert y z. induction x as [|a x IH]; intros [|b y] [|c z]; simpl; try done.
  destruct (Ascii.compare a b) eqn:Hab; try done.
  - apply Ascii.compare_eq_iff in Hab as ->.
    destruct (Ascii.compare b c); try done. apply IH.
  - destruct (Ascii.compare b c) eqn:Hbc; try done.
    + apply Ascii.compare_eq_iff in Hbc as <-. by rewrite Hab.
    + by rewrite (ascii_compare_lt_trans a b c).
Qed.

Global Instance string_CmpLaws : CmpLaws string.
Proof.
  split.
  - apply String.compare_eq_iff.
  - apply string_compare_refl.
  - intros x y. apply String.compare_antisym.
  - apply string_compare_lt_trans.
Qed.

Section Lexicographic.
Context {A B : Type} `{CmpLaws A, CmpLaws B}.

Lemma list_cmp_eq (l1 l2 : list A) : list_cmp l1 l2 = Eq → l1 = l2.
Proof.
  revert l2. induction l1 as [|x l1 IH]; intros [|y l2]; simpl; try done.
  destruct (cmp x y) eqn:Hxy; try done.
  intros Hl. apply cmp_eq in Hxy as ->. by rewrite (IH l2 Hl).
Qed.

Lemma list_cmp_refl (l : list A) : list_cmp l l = Eq.
Proof. induction l as [|x l IH]; simpl; [done|]. by rewrite cmp_refl. Qed.

Lemma list_cmp_flip (l1 l2 : list A) : list_cmp l2 l1 = CompOpp (list_cmp l1 l2).
Proof.
  revert l2. induction l1 as [|x l1 IH]; intros [|y l2]; simpl; try done.
  rewrite (cmp_flip x y). destruct (cmp x y); simpl; auto.
Qed.

Lemma list_cmp_lt_trans (l1 l2 l3 : list A) :
  list_cmp l1 l2 = Lt → list_cmp l2 l3 = Lt → list_cmp l1 l3 = Lt.
Proof.
  revert l2 l3.
  induction l1 as [|x l1 IH]; intros [|y l2] [|z l3]; simpl; try done.
  destruct (cmp x y) eqn:Hxy; try done.
  - apply cmp_eq in Hxy as ->. destruct (cmp y z); try done. apply IH.
  - destruct (cmp y z) eqn:Hyz; try done.
    + apply cmp_eq in Hyz as <-. by rewrite Hxy.
    + by rewrite (cmp_lt_trans x y z).
Qed.

Global Instance list_CmpLaws : CmpLaws (list A).
Proof.
  split; [apply list_cmp_eq|apply list_cmp_refl| |apply list_cmp_lt_trans].
  intros x y. apply list_cmp_flip.
Qed.

Global Instance prod_CmpLaws : CmpLaws (A * B).
Proof.
  split.
  - intros [a b] [a' b']. unfold cmp, prod_Cmp, prod_cmp. simpl.
    destruct (cmp a a') eqn:Ha; try done.
    intros Hb. by rewrite (cmp_eq _ _ Ha), (cmp_eq _ _ Hb).
  - intros [a b]. unfold cmp, prod_Cmp, prod_cmp. simpl.
    rewrite (cmp_refl a). apply cmp_refl.
  - intros [a b] [a' b']. unfold cmp, prod_Cmp, prod_cmp. simpl.
    rewrite (cmp_flip a a'). destruct (cmp a a'); simpl; auto using cmp_flip.
  - intros [a b] [a' b'] [a'' b'']. unfold cmp, prod_Cmp, prod_cmp. simpl.
    destruct (cmp a a') eqn:Ha; try done.
    + apply cmp_eq in Ha as ->. destruct (cmp a' a''); try done. apply cmp_lt_trans.
    + destruct (cmp a' a'') eqn:Ha'; try done.
      * apply cmp_eq in Ha' as <-. by rewrite Ha.
      * by rewrite (cmp_lt_trans a a' a'').
Qed.

End Lexicographic.

Section Order.
Context {A : Type} `{CmpLaws A}.

Global Instance py_le_refl : Reflexive (py_le (A:=A)).
Proof. intros x. unfold py_le. by rewrite cmp_refl. Qed.

Global Instance py_le_total : Total (py_le (A:=A)).
Proof.
  intros x y. unfold py_le. rewrite (cmp_flip x y).
  destruct (cmp x y); simpl; auto.
Qed.

Global Instance py_le_trans : Transitive (py_le (A:=A)).
Proof.
  intros x y z. unfold py_le.
  destruct (cmp x y) eqn:Hxy; try done; intros _.
  - by apply cmp_eq in Hxy as ->.
  - destruct (cmp y z) eqn:Hyz; try done; intros _.
    + apply cmp_eq in Hyz as <-. by rewrite Hxy.
    + by rewrite (cmp_lt_trans x y z).
Qed.

Global Instance py_le_antisym : AntiSymm (=) (py_le (A:=A)).
Proof.
  intros x y. unfold py_le. rewrite (cmp_flip x y).
  destruct (cmp x y) eqn:Hxy; simpl; try done.
  intros _ _. by apply cmp_eq.
Qed.

Lemma py_sorted_Sorted (l : list A) : Sorted py_le (py_sorted l).
Proof. apply (Sorted_merge_sort _). Qed.

Lemma py_sorted_Permutation (l : list A) : py_sorted l ≡ₚ l.
Proof. apply merge_sort_Permutation. Qed.

(** Sorting forgets the order of its input. *)
Lemma py_sorted_perm (l1 l2 : list A) : l1 ≡ₚ l2 → py_sorted l1 = py_sorted l2.
Proof.
  intros Hp. apply (Sorted_unique py_le); try apply py_sorted_Sorted.
  by rewrite !py_sorted_Permutation.
Qed.

Lemma elem_of_py_sorted (x : A) (l : list A) : x ∈ py_sorted l ↔ x ∈ l.
Proof. by rewrite py_sorted_Permutation. Qed.

Section ByKey.
Context {R : Type} (f : R → A).

Global Instance key_le_total : Total (key_le f).
Proof. intros x y. apply (total py_le). Qed.

Global Instance key_le_trans : Transitive (key_le f).
Proof. intros x y z. apply (transitivity (R:=py_le)). Qed.

Lemma py_sorted_by_Sorted (l : list R) : StronglySorted (key_le f) (py_sorted_by f l).
Proof. apply (StronglySorted_merge_sort _). Qed.

Lemma py_sorted_by_Permutation (l : list R) : py_sorted_by f l ≡ₚ l.
Proof. apply merge_sort_Permutation. Qed.

Lemma elem_of_py_sorted_by (x : R) (l : list R) : x ∈ py_sorted_by f l ↔ x ∈ l.
Proof. by rewrite py_sorted_by_Permutation. Qed.

Lemma NoDup_fmap_eq (l : list R) (x y : R) :
  NoDup (f <$> l) → x ∈ l → y ∈ l → f x = f y → x = y.
Proof.
  induction l as [|z l IH]; [by intros _ ?%elem_of_nil|].
  rewrite fmap_cons, NoDup_cons, !elem_of_cons.
  intros [Hz Hnd] [->|Hx] [->|Hy] Hf; auto.
  - exfalso. apply Hz. rewrite Hf. by apply list_elem_of_fmap_2.
  - exfalso. apply Hz. rewrite <- Hf. by apply list_elem_of_fmap_2.
Qed.

(** When the keys are pairwise distinct, sorting by key forgets the order
    of its input: any enumeration of the same items sorts to the same
    list. *)
Lemma py_sorted_by_perm (l1 l2 : list R) :
  NoDup (f <$> l1) → l1 ≡ₚ l2 → py_sorted_by f l1 = py_sorted_by f l2.
Proof.
  intros Hnd Hperm. apply (Sorted_unique_strong (key_le f)).
  - intros x1 x2 Hx1 Hx2 H12 H21.
    apply (proj1 (elem_of_py_sorted_by _ _)) in Hx1.
    apply (proj1 (elem_of_py_sorted_by _ _)) in Hx2.
    rewrite <- Hperm in Hx2. apply (NoDup_fmap_eq l1); [done..|].
    by apply (anti_symm py_le).
  - apply StronglySorted_Sorted, py_sorted_by_Sorted.
  - apply StronglySorted_Sorted, py_sorted_by_Sorted.
  - by rewrite !py_sorted_by_Permutation.
Qed.

End ByKey.

End Order.

Lemma elem_of_sorted_set (x : string) (s : gset string) :
  x ∈ sorted_set s ↔ x ∈ s.
Proof. unfold sorted_set. rewrite elem_of_py_sorted. apply elem_of_elements. Qed.

Lemma sorted_set_NoDup (s : gset string) : NoDup (sorted_set s).
Proof.
  unfold sorted_set. rewrite py_sorted_Permutation. apply NoDup_elements.
Qed.

Lemma sorted_set_Sorted (s : gset string) : Sorted py_le (sorted_set s).
Proof. apply py_sorted_Sorted. Qed.

End PyOrderFacts.

(** ** ActionRecord.register *)

Module ActionRecordFacts.

Import ActionRecord.

Lemma add_resource_prefix (rs : list string) (x : string) :
  rs `prefix_of` add_resource rs x.
Proof.
  unfold add_resource. case_decide; [done|]. by apply prefix_app_r.
Qed.

Lemma elem_of_add_resource (rs : list string) (x y : string) :
  y ∈ add_resource rs x ↔ y ∈ rs ∨ y = x.
Proof.
  unfold add_resource. case_decide.
  - naive_solver.
  - rewrite elem_of_app, list_elem_of_singleton. done.
Qed.

Lemma add_resource_NoDup (rs : list string) (x : string) :
  NoDup rs → NoDup (add_resource rs x).
Proof.
  unfold add_resource. case_decide; [done|]. intros Hnd.
  apply NoDup_app. split_and!; [done| |apply NoDup_singleton].
  intros y Hy ->%list_elem_of_singleton. done.
Qed.

Lemma add_resources_prefix (xs rs : list string) :
  rs `prefix_of` fold_left add_resource xs rs.
Proof.
  revert rs. induction xs as [|x xs IH]; intros rs; simpl; [done|].
  etrans; [apply (add_resource_prefix rs x)|apply IH].
Qed.

Lemma elem_of_add_resources (xs rs : list string) (y : string) :
  y ∈ fold_left add_resource xs rs ↔ y ∈ rs ∨ y ∈ xs.
Proof.
  revert rs. induction xs as [|x xs IH]; intros rs; simpl.
  - rewrite elem_of_nil. naive_solver.
  - rewrite IH, elem_of_add_resource, elem_of_cons. naive_solver.
Qed.

Lemma add_resources_NoDup (xs rs : list string) :
  NoDup rs → NoDup (fold_left add_resource xs rs).
Proof.
  revert rs. induction xs as [|x xs IH]; intros rs Hnd; simpl; [done|].
  by apply IH, add_resource_NoDup.
Qed.

(** What one call of [register] does to each attribute. *)
Lemma register_count (r : t) (e : EventModel.t) :
  count (register r e) = count r + 1.
Proof. done. Qed.

Lemma register_conditions (r : t) (e : EventModel.t) :
  conditions (register r e) = conditions r.
Proof. done. Qed.

Lemma register_identity (r : t) (e : EventModel.t) :
  principal_arn (register r e) = principal_arn r
  ∧ service (register r e) = service r
  ∧ action (register r e) = action r.
Proof. done. Qed.

Lemma register_last_seen (r : t) (e : EventModel.t) :
  last_seen (register r e) =
    Some (match last_seen r with
          | None => EventModel.event_time e
          | Some seen => Z.max seen (EventModel.event_time e)
          end).
Proof.
  unfold register; simpl. destruct (last_seen r) as [seen|]; [|done].
  case_decide; f_equal; lia.
Qed.

(** Folding a run of events into one record. *)
Lemma registers_count (es : list EventModel.t) (r : t) :
  count (fold_left register es r) = count r + Z.of_nat (length es).
Proof.
  revert r. induction es as [|e es IH]; intros r; simpl; [lia|].
  rewrite IH, register_count. lia.
Qed.

Lemma registers_conditions (es : list EventModel.t) (r : t) :
  conditions (fold_left register es r) = conditions r.
Proof.
  revert r. induction es as [|e es IH]; intros r; simpl; [done|]. by rewrite IH.
Qed.

Lemma registers_identity (es : list EventModel.t) (r : t) :
  principal_arn (fold_left register es r) = principal_arn r
  ∧ service (fold_left register es r) = service r
  ∧ action (fold_left register es r) = action r.
Proof.
  revert r. induction es as [|e es IH]; intros r; simpl; [done|].
  destruct (IH (register r e)) as (-> & -> & ->). done.
Qed.

Lemma elem_of_registers_resources (es : list EventModel.t) (r : t) (x : string) :
  x ∈ resources (fold_left register es r)
  ↔ x ∈ resources r ∨ ∃ e, e ∈ es ∧ x ∈ EventModel.resource_arns e.
Proof.
  revert r. induction es as [|e es IH]; intros r; cbn [fold_left].
  - split; [by left|]. intros [?|(e & He%elem_of_nil & _)]; done.
  - rewrite IH. cbn [register resources]. rewrite elem_of_add_resources.
    setoid_rewrite elem_of_cons. split.
    + intros [[?|?]|(e' & ? & ?)]; eauto 6.
    + intros [?|(e' & [->|?] & ?)]; eauto 6.
Qed.

End ActionRecordFacts.

(** ** ActionAggregator.aggregate *)

Module ActionAggregatorFacts.

Import PyOrder PyOrderFacts ActionAggregator ActionRecordFacts.

Section WithLibraries.
Context {regex : Type}.
Variable re_search : regex → string → bool.
Variable fnmatch : string → string → bool.

Local Abbreviation t := (@ActionAggregator.t regex).
Local Abbreviation fold_event := (ActionAggregator.fold_event re_search fnmatch).
Local Abbreviation aggregate := (ActionAggregator.aggregate re_search fnmatch).
Local Abbreviation keeps := (ActionAggregator.keeps fnmatch).

(** An event qualifies when it passes the principal filter and its
    normalized action matches no exclude pattern. *)
Definition qualifies (self : t) (event : EventModel.t) : bool :=
  _include_principal re_search self (EventModel.principal_arn event)
  && negb (_is_excluded fnmatch self (_normalize_action event)).

Definition event_key (event : EventModel.t) : key :=
  (EventModel.principal_arn event, EventModel.aws_service event,
   _normalize_action event).

(** The qualifying events of one key, in arrival order. *)
Definition hits (self : t) (k : key) (events : list EventModel.t)
    : list EventModel.t :=
  filter (λ event, qualifies self event = true ∧ event_key event = k) events.

(** The record a key starts from. *)
Definition blank (k : key) : ActionRecord.t :=
  {| ActionRecord.principal_arn := k.1.1;
     ActionRecord.service := k.1.2;
     ActionRecord.action := k.2;
     ActionRecord.count := 0;
     ActionRecord.resources := [];
     ActionRecord.conditions := [];
     ActionRecord.last_seen := None |}.

(** The record of a key once all its qualifying events are folded in. *)
Definition folded (self : t) (k : key) (events : list EventModel.t)
    : ActionRecord.t :=
  fold_left ActionRecord.register (hits self k events) (blank k).

Lemma fold_event_lookup (self : t) (states : gmap key ActionRecord.t)
    (event : EventModel.t) (k : key) :
  fold_event self states event !! k =
    if decide (qualifies self event = true ∧ event_key event = k)
    then Some (ActionRecord.register (default (blank k) (states !! k)) event)
    else states !! k.
Proof.
  unfold ActionAggregator.fold_event, qualifies.
  destruct (_include_principal _ _ _); simpl; [|done].
  destruct (_is_excluded _ _ _); simpl; [done|].
  fold (event_key event).
  destruct (decide (event_key event = k)) as [<-|Hne].
  - rewrite lookup_insert_eq, decide_True by done. done.
  - rewrite lookup_insert_ne, decide_False by naive_solver. done.
Qed.

Lemma fold_events_lookup (self : t) (events : list EventModel.t)
    (states : gmap key ActionRecord.t) (k : key) :
  fold_left (fold_event self) events states !! k =
    match hits self k events with
    | [] => states !! k
    | hs => Some (fold_left ActionRecord.register hs (default (blank k) (states !! k)))
    end.
Proof.
  revert states. induction events as [|e events IH]; intros states; [done|].
  cbn [fold_left]. rewrite IH, fold_event_lookup. unfold hits.
  rewrite filter_cons. case_decide as Hq.
  - simpl. by destruct (filter _ events).
  - done.
Qed.

(** The dictionary built by the loop of [aggregate]. *)
Lemma states_lookup (self : t) (events : list EventModel.t) (k : key) :
  fold_left (fold_event self) events ∅ !! k =
    match hits self k events with
    | [] => None
    | _ => Some (folded self k events)
    end.
Proof.
  rewrite fold_events_lookup, lookup_empty. unfold folded.
  by destruct (hits self k events).
Qed.

Lemma sort_key_folded (self : t) (k : key) (events : list EventModel.t) :
  sort_key (folded self k events) = k.
Proof.
  unfold sort_key, folded.
  destruct (registers_identity (hits self k events) (blank k)) as (-> & -> & ->).
  by destruct k as [[??]?].
Qed.

Lemma count_folded (self : t) (k : key) (events : list EventModel.t) :
  ActionRecord.count (folded self k events)
  = Z.of_nat (length (hits self k events)).
Proof. unfold folded. by rewrite registers_count. Qed.

Lemma conditions_folded (self : t) (k : key) (events : list EventModel.t) :
  ActionRecord.conditions (folded self k events) = [].
Proof. unfold folded. by rewrite registers_conditions. Qed.

(** Membership in the result of [aggregate]. *)
Lemma elem_of_aggregate (self : t) (events : list EventModel.t)
    (rec : ActionRecord.t) :
  rec ∈ aggregate self events ↔
    ∃ k, hits self k events ≠ [] ∧ rec = folded self k events
         ∧ keeps self rec = true.
Proof.
  unfold ActionAggregator.aggregate.
  rewrite elem_of_py_sorted_by, list_elem_of_filter, list_elem_of_fmap.
  split.
  - intros [Hkeep ([k r] & -> & Hin)]. apply elem_of_map_to_list in Hin.
    rewrite states_lookup in Hin. exists k. simpl in *.
    destruct (hits self k events) eqn:Hh; [done|].
    by injection Hin as <-.
  - intros (k & Hne & -> & Hkeep). split; [done|].
    exists (k, folded self k events). split; [done|].
    apply elem_of_map_to_list. rewrite states_lookup.
    by destruct (hits self k events).
Qed.

Lemma kept_keys_NoDup (self : t) (events : list EventModel.t) :
  NoDup (sort_key <$>
           filter (λ rec, keeps self rec = true)
             (map_to_list (fold_left (fold_event self) events ∅)).*2).
Proof.
  set (states := fold_left (fold_event self) events ∅).
  assert (Hkeys : ∀ k r, (k, r) ∈ map_to_list states → sort_key r = k).
  { intros k r Hin. apply elem_of_map_to_list in Hin.
    unfold states in Hin. rewrite states_lookup in Hin.
    destruct (hits self k events); [done|].
    injection Hin as <-. apply sort_key_folded. }
  pose proof (NoDup_fst_map_to_list states) as Hnd.
  revert Hkeys Hnd. generalize (map_to_list states). intros l.
  induction l as [|[k r] l IH]; intros Hkeys Hnd; [constructor|].
  rewrite fmap_cons in Hnd. apply NoDup_cons in Hnd as [Hk Hnd].
  assert (IH' := IH (λ k' r' Hin, Hkeys k' r' (list_elem_of_further _ _ _ Hin)) Hnd).
  rewrite fmap_cons. cbn [snd]. rewrite filter_cons. case_decide; [|done].
  rewrite fmap_cons. apply NoDup_cons. split; [|done].
  rewrite (Hkeys k r) by apply list_elem_of_here.
  intros (r' & Hr' & Hin)%list_elem_of_fmap.
  apply list_elem_of_filter in Hin as [_ Hin].
  apply list_elem_of_fmap in Hin as ([k' r''] & -> & Hin). simpl in *.
  apply Hk. apply list_elem_of_fmap. exists (k', r''). split; [|done].
  simpl. rewrite Hr'. by apply Hkeys, list_elem_of_further.
Qed.

Lemma aggregate_keys_NoDup (self : t) (events : list EventModel.t) :
  NoDup (sort_key <$> aggregate self events).
Proof.
  unfold ActionAggregator.aggregate.
  rewrite py_sorted_by_Permutation. apply kept_keys_NoDup.
Qed.

(** The result does not depend on the order in which [states.values()]
    enumerates the dictionary. *)
Lemma aggregate_any_enumeration (self : t) (events : list EventModel.t)
    (values : list ActionRecord.t) :
  values ≡ₚ (map_to_list (fold_left (fold_event self) events ∅)).*2 →
  py_sorted_by sort_key (filter (λ rec, keeps self rec = true) values)
  = aggregate self events.
Proof.
  intros Hperm. unfold ActionAggregator.aggregate. symmetry.
  apply py_sorted_by_perm; [apply kept_keys_NoDup|].
  by rewrite Hperm.
Qed.

Lemma resources_folded (self : t) (k : key) (events : list EventModel.t)
    (x : string) :
  x ∈ ActionRecord.resources (folded self k events)
  ↔ ∃ event, event ∈ hits self k events ∧ x ∈ EventModel.resource_arns event.
Proof.
  unfold folded. rewrite elem_of_registers_resources. simpl.
  split; [|by right]. intros [Hx%elem_of_nil|?]; done.
Qed.

Lemma is_allowlisted_spec (self : t) (action principal : string)
    (resources : list string) :
  _is_allowlisted fnmatch self action principal resources = true
  ↔ (∃ pattern, pattern ∈ allow_patterns self ∧ fnmatch action pattern = true)
    ∨ (∃ pattern, pattern ∈ allow_principals self
                  ∧ fnmatch principal pattern = true)
    ∨ (∃ pattern resource,
         pattern ∈ allow_resource_patterns self ∧ resource ∈ resources
         ∧ fnmatch resource pattern = true).
Proof.
  unfold _is_allowlisted. rewrite !orb_true_iff, !existsb_exists.
  setoid_rewrite existsb_exists. setoid_rewrite <- list_elem_of_In.
  split.
  - intros [[?|?]|(pattern & ? & resource & ? & ?)]; eauto 8.
  - intros [?|[?|(pattern & resource & ? & ? & ?)]]; eauto 8.
Qed.

Lemma aggregate_sorted (self : t) (events : list EventModel.t) :
  StronglySorted (key_le sort_key) (aggregate self events).
Proof. apply py_sorted_by_Sorted. Qed.

(** C4, as the claim states it.  For every event list, [aggregate] returns
    a list that is sorted by (principal, service, action) and holds at most
    one record per key; a record is returned exactly when it is the fold of
    the qualifying events of some key that occurs among them, its count
    reaches the effective minimum and it matches no allow pattern; the
    record folded for a key carries that key, counts the qualifying events
    of the key and holds the resources observed in them; and a record
    matches an allow pattern when its action or its principal matches one,
    or one of its resources does. *)
Theorem aggregate_one_record_per_key (self : t) (events : list EventModel.t) :
  StronglySorted (key_le sort_key) (aggregate self events)
  ∧ NoDup (sort_key <$> aggregate self events)
  ∧ (∀ rec, rec ∈ aggregate self events ↔
       ∃ k, hits self k events ≠ []
            ∧ rec = folded self k events
            ∧ (ActionRecord.count rec >= min_count self)%Z
            ∧ _is_allowlisted fnmatch self (ActionRecord.action rec)
                (ActionRecord.principal_arn rec) (ActionRecord.resources rec) = false)
  ∧ (∀ k, sort_key (folded self k events) = k
          ∧ ActionRecord.count (folded self k events)
            = Z.of_nat (length (hits self k events))
          ∧ ∀ x, x ∈ ActionRecord.resources (folded self k events)
                 ↔ ∃ event, event ∈ hits self k events
                            ∧ x ∈ EventModel.resource_arns event)
  ∧ (∀ action principal resources,
       _is_allowlisted fnmatch self action principal resources = true
       ↔ (∃ pattern, pattern ∈ allow_patterns self
                     ∧ fnmatch action pattern = true)
         ∨ (∃ pattern, pattern ∈ allow_principals self
                       ∧ fnmatch principal pattern = true)
         ∨ (∃ pattern resource,
              pattern ∈ allow_resource_patterns self ∧ resource ∈ resources
              ∧ fnmatch resource pattern = true)).
Proof.
  split_and!.
  - apply aggregate_sorted.
  - apply aggregate_keys_NoDup.
  - intros rec. rewrite elem_of_aggregate. unfold ActionAggregator.keeps.
    setoid_rewrite andb_true_iff. setoid_rewrite bool_decide_eq_true.
    setoid_rewrite negb_true_iff. done.
  - intros k. split_and!;
      [apply sort_key_folded|apply count_folded|apply resources_folded].
  - apply is_allowlisted_spec.
Qed.

(** C2, amended.  Folding an event into a record adds one to the count,
    extends the resource list by the event's unseen resources (nothing is
    removed, reordered or duplicated), and raises last-seen to the maximum; the
    condition list is left as it is, so every record returned by
    [aggregate] has an empty condition list. *)
Theorem register_leaves_conditions :
  (∀ (r : ActionRecord.t) (e : EventModel.t),
     ActionRecord.count (ActionRecord.register r e) = (ActionRecord.count r + 1)%Z
     ∧ ActionRecord.conditions (ActionRecord.register r e) = ActionRecord.conditions r
     ∧ ActionRecord.resources r `prefix_of` ActionRecord.resources (ActionRecord.register r e)
     ∧ (∀ x, x ∈ ActionRecord.resources (ActionRecord.register r e)
             ↔ x ∈ ActionRecord.resources r ∨ x ∈ EventModel.resource_arns e)
     ∧ (NoDup (ActionRecord.resources r)
        → NoDup (ActionRecord.resources (ActionRecord.register r e)))
     ∧ ActionRecord.last_seen (ActionRecord.register r e)
       = Some (match ActionRecord.last_seen r with
               | None => EventModel.event_time e
               | Some seen => Z.max seen (EventModel.event_time e)
               end))
  ∧ (∀ (self : t) (events : list EventModel.t) (rec : ActionRecord.t),
       rec ∈ aggregate self events → ActionRecord.conditions rec = []).
Proof.
  split.
  - intros r e. split_and!.
    + apply register_count.
    + apply register_conditions.
    + apply add_resources_prefix.
    + intros x. apply elem_of_add_resources.
    + apply add_resources_NoDup.
    + apply register_last_seen.
  - intros self events rec (k & _ & -> & _)%elem_of_aggregate.
    apply conditions_folded.
Qed.

(** Every record of the dictionary has been registered at least once. *)
Lemma folded_count_pos (self : t) (k : key) (events : list EventModel.t) :
  hits self k events ≠ [] → (ActionRecord.count (folded self k events) >= 1)%Z.
Proof.
  rewrite count_folded. destruct (hits self k events); [done|]. simpl. lia.
Qed.

Section Constructor.
Variable re_compile : string → option regex.

Local Abbreviation init := (ActionAggregator.__init__ re_compile).

Lemma init_min_count (principal_filter : option string)
    (exclude_actions allow_actions allow_principals allow_resources : patterns_arg)
    (mc : Z) (self : t) :
  init principal_filter exclude_actions allow_actions allow_principals
    allow_resources mc = Some self →
  min_count self = Z.max mc 1.
Proof.
  unfold ActionAggregator.__init__. intros Hinit.
  apply bind_Some in Hinit as (pat & _ & Hself). by injection Hself as <-.
Qed.

Lemma init_is_Some (principal_filter : option string)
    (exclude_actions allow_actions allow_principals allow_resources : patterns_arg)
    (mc : Z) :
  is_Some (init principal_filter exclude_actions allow_actions allow_principals
             allow_resources mc)
  ↔ PyStr.truthy principal_filter = false
    ∨ is_Some (principal_filter ≫= re_compile).
Proof.
  unfold ActionAggregator.__init__.
  destruct (PyStr.truthy principal_filter); simpl.
  - destruct (principal_filter ≫= re_compile); simpl.
    + split; eauto.
    + split; [by intros [? ?]|by intros [?|[? ?]]].
  - split; eauto.
Qed.

(** C10, as the claim states it.  Whatever integer is passed as the
    minimum count, the constructor fails only on a malformed principal
    filter, and the aggregator it returns uses [max(min_count, 1)]; when
    the integer is at most 1, every record of the fold passes the count
    test, so a folded record is returned exactly when it matches no allow
    pattern. *)
Theorem min_count_is_floored_at_one (principal_filter : option string)
    (exclude_actions allow_actions allow_principals allow_resources : patterns_arg)
    (mc : Z) :
  (is_Some (init principal_filter exclude_actions allow_actions allow_principals
              allow_resources mc)
   ↔ PyStr.truthy principal_filter = false
     ∨ is_Some (principal_filter ≫= re_compile))
  ∧ (∀ self,
       init principal_filter exclude_actions allow_actions allow_principals
         allow_resources mc = Some self →
       min_count self = Z.max mc 1
       ∧ ((mc <= 1)%Z →
          ∀ events k,
            hits self k events ≠ [] →
            (ActionRecord.count (folded self k events) >= min_count self)%Z
            ∧ (folded self k events ∈ aggregate self events
               ↔ _is_allowlisted fnmatch self
                   (ActionRecord.action (folded self k events))
                   (ActionRecord.principal_arn (folded self k events))
                   (ActionRecord.resources (folded self k events)) = false))).
Proof.
  split; [apply init_is_Some|].
  intros self Hinit. pose proof (init_min_count _ _ _ _ _ _ _ Hinit) as Hmin.
  split; [done|]. intros Hmc events k Hhits.
  pose proof (folded_count_pos self k events Hhits) as Hpos.
  assert (Hge : (ActionRecord.count (folded self k events) >= min_count self)%Z)
    by (rewrite Hmin; lia).
  split; [done|]. rewrite elem_of_aggregate. split.
  - intros (k' & _ & Heq & Hkeep).
    unfold ActionAggregator.keeps in Hkeep.
    apply andb_true_iff in Hkeep as [_ Hallow]. by apply negb_true_iff.
  - intros Hallow. exists k. split_and!; [done..|].
    unfold ActionAggregator.keeps.
    rewrite Hallow, bool_decide_eq_true_2 by done. done.
Qed.

End Constructor.

End WithLibraries.

End ActionAggregatorFacts.

(** ** ConditionReducer.merge *)

Module ConditionReducerFacts.

Import PyOrder PyOrderFacts ConditionReducer.

(** The outcome of meeting a binding [new] for an operator whose merged
    binding so far is [existing]. *)
Definition meet (existing new : option value) : option value :=
  match existing, new with
  | Some e, Some n => Some (_combine_values e n)
  | None, Some n => Some n
  | _, None => existing
  end.

Lemma merge_item_lookup (operator : string) (v : value)
    (merged : gmap string value) (op : string) :
  merge_item operator v merged !! op =
    if decide (operator = op) then meet (merged !! op) (Some v) else merged !! op.
Proof.
  unfold merge_item. case_decide as Hop.
  - subst op. destruct (merged !! operator); by rewrite lookup_insert_eq.
  - destruct (merged !! operator); by rewrite lookup_insert_ne.
Qed.

Lemma merge_condition_lookup (merged condition : gmap string value) (op : string) :
  merge_condition merged condition !! op = meet (merged !! op) (condition !! op).
Proof.
  unfold merge_condition. revert op.
  apply (map_fold_weak_ind
           (λ r m, ∀ op, r !! op = meet (merged !! op) (m !! op))).
  - intros op. rewrite lookup_empty. by destruct (merged !! op).
  - intros i x m r Hi IH op. rewrite merge_item_lookup.
    case_decide as Hop.
    + subst op. rewrite IH, Hi, lookup_insert_eq. by destruct (merged !! i).
    + by rewrite IH, lookup_insert_ne.
Qed.

Lemma merge_snoc (conditions : list (gmap string value))
    (condition : gmap string value) :
  merge (conditions ++ [condition]) = merge_condition (merge conditions) condition.
Proof. unfold merge. by rewrite fold_left_app. Qed.

Lemma sorted_pair (a b : string) :
  a ≠ b →
  sorted_set ({[ a ]} ∪ {[ b ]}) = if decide (py_le a b) then [a; b] else [b; a].
Proof.
  intros Hab. unfold sorted_set.
  rewrite (py_sorted_perm _ [a; b]);
    [unfold py_sorted, merge_sort; simpl; by case_decide|].
  apply NoDup_Permutation.
  - apply NoDup_elements.
  - apply NoDup_cons. split; [|apply NoDup_singleton].
    by intros ->%list_elem_of_singleton.
  - intros x. rewrite elem_of_elements. set_solver.
Qed.

Lemma combine_lists (e n : list string) :
  ∃ l, _combine_values (VList e) (VList n) = VList l
       ∧ Sorted py_le l ∧ NoDup l ∧ ∀ x, x ∈ l ↔ x ∈ e ∨ x ∈ n.
Proof.
  eexists. split; [done|]. split_and!.
  - apply sorted_set_Sorted.
  - apply sorted_set_NoDup.
  - intros x. rewrite elem_of_sorted_set. set_solver.
Qed.

Lemma combine_equal_strings (s : string) :
  _combine_values (VStr s) (VStr s) = VStr s.
Proof. simpl. by rewrite decide_True. Qed.

Lemma combine_distinct_strings (a b : string) :
  a ≠ b →
  _combine_values (VStr a) (VStr b)
  = VList (if decide (py_le a b) then [a; b] else [b; a]).
Proof. intros Hab. simpl. by rewrite decide_False, sorted_pair. Qed.

Definition both_lists (e n : value) : Prop :=
  match e, n with VList _, VList _ => True | _, _ => False end.

Definition both_strings (e n : value) : Prop :=
  match e, n with VStr _, VStr _ => True | _, _ => False end.

Lemma combine_other (e n : value) :
  ¬ both_lists e n → ¬ both_strings e n → _combine_values e n = n.
Proof. destruct e, n; simpl; tauto. Qed.

(** The scalars among the values: everything that is neither a list nor a
    nested map. *)
Definition is_scalar (v : value) : bool :=
  match v with
  | VStr _ | VInt _ | VBool _ | VNone => true
  | VList _ | VDict _ => false
  end.

(** C6 fails as stated: two different scalars that are not both strings
    (here the integers 1 and 2) are not widened to a two-element list; the
    later one replaces the former. *)
Lemma combine_scalars_counterexample :
  ¬ (∀ e n : value,
       is_scalar e = true → is_scalar n = true → e ≠ n →
       ∃ a b, _combine_values e n = VList [a; b]).
Proof.
  intros Hclaim.
  destruct (Hclaim (VInt 1) (VInt 2)) as (a & b & Hab); done.
Qed.

(** C6, amended.  [merge] starts from the empty map and folds the
    condition maps from left to right; an operator met for the first time
    keeps its value; on a collision two lists give the sorted list of the
    distinct elements of both, two equal strings give that string, two
    different strings give the sorted two-element list, and every other
    combination of types (two numbers, a string and a list, ...) gives the
    later value. *)
Theorem merge_folds_left_to_right :
  merge [] = ∅
  ∧ (∀ conditions condition op,
       merge (conditions ++ [condition]) !! op =
         match merge conditions !! op, condition !! op with
         | Some existing, Some new => Some (_combine_values existing new)
         | None, Some new => Some new
         | kept, None => kept
         end)
  ∧ (∀ e n, ∃ l, _combine_values (VList e) (VList n) = VList l
                 ∧ Sorted py_le l ∧ NoDup l ∧ ∀ x, x ∈ l ↔ x ∈ e ∨ x ∈ n)
  ∧ (∀ s, _combine_values (VStr s) (VStr s) = VStr s)
  ∧ (∀ a b, a ≠ b →
       _combine_values (VStr a) (VStr b)
       = VList (if decide (py_le a b) then [a; b] else [b; a]))
  ∧ (∀ e n, ¬ both_lists e n → ¬ both_strings e n → _combine_values e n = n).
Proof.
  split_and!.
  - done.
  - intros conditions condition op.
    rewrite merge_snoc, merge_condition_lookup. unfold meet.
    by destruct (merge conditions !! op), (condition !! op).
  - apply combine_lists.
  - apply combine_equal_strings.
  - apply combine_distinct_strings.
  - apply combine_other.
Qed.

End ConditionReducerFacts.

(** ** PolicyGenerator: resource scope and statement ids *)

Module PolicyGeneratorFacts.

Import PyOrder PyOrderFacts ConditionReducer PolicyGenerator.

(** The registry lookup used by the generator returns nothing for a record
    without observed resources, whatever rules are registered. *)
Lemma infer_from_record_unobserved (registry : ArnRuleRegistry.t)
    (record : ActionRecord.t) :
  ActionRecord.resources record = [] →
  ArnRuleRegistry.infer_from_record registry record = ∅.
Proof. unfold ArnRuleRegistry.infer_from_record. by intros ->. Qed.

Lemma determine_resources_unobserved (self : t) (record : ActionRecord.t) :
  ActionRecord.resources record = [] →
  _determine_resources self record = ["*"].
Proof.
  intros Hres. unfold _determine_resources.
  rewrite infer_from_record_unobserved by done. rewrite Hres.
  by destruct (_ && _).
Qed.

(** A generator in resources mode with the default registry and the
    default capability table, and a record of [s3:GetObject] without
    observed resources. *)
Definition resources_mode_generator : t :=
  {| arn_rules := ArnRuleRegistry.make ∅;
     resource_levels := ResourceLevelIndex.make;
     mode := "resources";
     include_logs_baseline := false;
     principal_arn := None;
     max_statements := None |}.

Definition unobserved_get_object : ActionRecord.t :=
  {| ActionRecord.principal_arn := "arn:aws:iam::123456789012:role/Test";
     ActionRecord.service := "s3";
     ActionRecord.action := "s3:GetObject";
     ActionRecord.count := 1;
     ActionRecord.resources := [];
     ActionRecord.conditions := [];
     ActionRecord.last_seen := None |}.

(** C1: the code at the failing input.  The generator is in resources
    mode, the capability table allows scoping for the record's action and
    an inference rule is registered for the record's service, yet the
    scope computed for the record is the wildcard singleton. *)
Theorem unobserved_record_gets_wildcard :
  mode resources_mode_generator = "resources"
  ∧ ResourceLevelIndex.allows_scoping (resource_levels resources_mode_generator)
      (ActionRecord.action unobserved_get_object) = true
  ∧ (∃ rule, ArnRuleRegistry.service_rules (arn_rules resources_mode_generator)
               !! ActionRecord.service unobserved_get_object = Some [rule])
  ∧ _determine_resources resources_mode_generator unobserved_get_object = ["*"].
Proof.
  split_and!; [done|done| |done].
  exists ArnRuleRegistry.infer_s3_arn. done.
Qed.

(** *** Statement ids *)

Lemma length_str_take (n : nat) (s : string) :
  String.length (PyStr.take n s) = (n `min` String.length s)%nat.
Proof.
  unfold PyStr.take. revert n.
  induction s as [|c s IH]; intros [|n]; simpl; auto.
Qed.

Lemma str_take_all (n : nat) (s : string) :
  (String.length s ≤ n)%nat → PyStr.take n s = s.
Proof.
  unfold PyStr.take. revert n.
  induction s as [|c s IH]; intros [|n]; simpl; try done; try lia.
  intros Hle. by rewrite IH by lia.
Qed.

Lemma length_replace_char (a b : ascii) (s : string) :
  String.length (PyStr.replace_char a b s) = String.length s.
Proof. induction s as [|c s IH]; simpl; auto. Qed.

Lemma length_str_append (s1 s2 : string) :
  String.length (s1 +:+ s2) = (String.length s1 + String.length s2)%nat.
Proof. induction s1 as [|c s1 IH]; simpl; auto. Qed.

Lemma length_build_sid (service : string) (counter : Z) :
  (String.length (_build_sid service counter) ≤ 128)%nat.
Proof. unfold _build_sid. rewrite length_str_take. lia. Qed.

(** The service prefix of a statement id. *)
Definition sid_prefix (service : string) : string :=
  PyStr.take 40
    (PyStr.replace_char "-"%char "_"%char (PyStr.replace_char ":"%char "_"%char service)).

Definition digit (n : Z) : ascii := ascii_of_N (48 + Z.to_N n).

(** The three decimal digits of a number below 1000. *)
Definition three_digits (n : Z) : string :=
  String (digit (n / 100)) (String (digit (n / 10 mod 10))
    (String (digit (n mod 10)) EmptyString)).

Lemma format_03d_three_digits (counter : Z) :
  1 ≤ counter ≤ 999 → format_03d counter = three_digits counter.
Proof.
  intros Hc.
  assert (Hall : forallb (λ c, bool_decide (format_03d c = three_digits c))
                   (seqZ 1 999) = true) by (vm_compute; reflexivity).
  rewrite forallb_forall in Hall.
  eapply bool_decide_eq_true_1, Hall, list_elem_of_In, elem_of_seqZ. lia.
Qed.

Lemma sid_prefix_nonempty (service : string) :
  service ≠ "" → sid_prefix service ≠ "".
Proof.
  intros Hs Hp. apply (f_equal String.length) in Hp.
  unfold sid_prefix in Hp. rewrite length_str_take, !length_replace_char in Hp.
  destruct service; [done|]. simpl in Hp. lia.
Qed.

Lemma build_sid_short (service : string) (counter : Z) :
  1 ≤ counter ≤ 999 →
  _build_sid service counter
  = (if decide (sid_prefix service = "") then "svc" else sid_prefix service)
      +:+ "_allow_" +:+ three_digits counter.
Proof.
  intros Hc. unfold _build_sid. fold (sid_prefix service).
  rewrite format_03d_three_digits by done.
  apply str_take_all. rewrite !length_str_append.
  assert (String.length (sid_prefix service) ≤ 40)%nat
    by (unfold sid_prefix; rewrite length_str_take; lia).
  case_decide; simpl; lia.
Qed.

(** C7 fails as stated: for the empty service name the id starts with
    the fallback prefix "svc", not with the (empty) service name. *)
Lemma build_sid_counterexample :
  _build_sid "" 1 = "svc_allow_001"
  ∧ _build_sid "" 1 ≠ sid_prefix "" +:+ "_allow_" +:+ "001".
Proof. split; [reflexivity|discriminate]. Qed.

(** *** Chunking *)

Lemma slice_take_drop {A} (xs : list A) (i m : Z) :
  slice xs i (i + m) = take (Z.to_nat m) (drop (Z.to_nat i) xs).
Proof. unfold slice. do 2 f_equal. lia. Qed.

(** The chunks cut by the loop [for index in range(i, len(xs), m)]: they
    cover the list from position [i] on, none is empty or longer than [m],
    and all but the last have exactly [m] elements. *)
Lemma range_go_chunks {A} (xs : list A) (m : Z) (fuel : nat) (i : Z) :
  0 < m → 0 ≤ i → (Z.to_nat (Z.of_nat (length xs) - i) ≤ fuel)%nat →
  let chunks :=
    (λ index, slice xs index (index + m))
      <$> range_go fuel i (Z.of_nat (length xs)) m in
  concat chunks = drop (Z.to_nat i) xs
  ∧ Forall (λ c, (1 ≤ length c ≤ Z.to_nat m)%nat) chunks
  ∧ (∀ j c, chunks !! j = Some c → (S j < length chunks)%nat →
            length c = Z.to_nat m).
Proof.
  intros Hm. cbv zeta. revert i.
  induction fuel as [|fuel IH]; intros i Hi Hfuel; cbn [range_go].
  - rewrite fmap_nil, drop_ge by lia. split_and!; [done|constructor|done].
  - rewrite decide_True by done. case_bool_decide as Hlt.
    + destruct (IH (i + m)) as (Hcat & Hall & Hfull); [lia|lia|].
      rewrite fmap_cons, slice_take_drop. cbn [concat]. split_and!.
      * rewrite Hcat.
        replace (Z.to_nat (i + m)) with (Z.to_nat i + Z.to_nat m)%nat by lia.
        rewrite <- drop_drop. apply take_drop.
      * constructor; [|done]. rewrite length_take, length_drop. lia.
      * intros [|j] c Hc Hlen.
        -- injection Hc as <-. rewrite length_take, length_drop.
           cbn [length] in Hlen. rewrite length_fmap in Hlen.
           destruct fuel as [|fuel']; cbn [range_go length] in Hlen; [lia|].
           rewrite decide_True in Hlen by done.
           case_bool_decide; cbn [length] in Hlen; lia.
        -- cbn [length] in Hlen. apply (Hfull j c Hc). lia.
    + rewrite fmap_nil, drop_ge by lia. split_and!; [done|constructor|done].
Qed.

Lemma chunk_statements_unset (self : t) (statements : list PolicyStatement.t) :
  max_statements self = None ∨ max_statements self = Some 0 →
  _chunk_statements self statements = [PolicyDoc.make statements].
Proof. unfold _chunk_statements. by intros [-> | ->]. Qed.

Lemma chunk_statements_positive (self : t) (statements : list PolicyStatement.t)
    (m : Z) :
  max_statements self = Some m → 0 < m →
  let docs := _chunk_statements self statements in
  concat (PolicyDoc.statements <$> docs) = statements
  ∧ Forall (λ d, (length (PolicyDoc.statements d) ≤ Z.to_nat m)%nat) docs
  ∧ (∀ j d, docs !! j = Some d → (S j < length docs)%nat →
            length (PolicyDoc.statements d) = Z.to_nat m)
  ∧ docs ≠ []
  ∧ (statements ≠ [] → Forall (λ d, PolicyDoc.statements d ≠ []) docs).
Proof.
  intros Hmax Hm. unfold _chunk_statements. rewrite Hmax.
  rewrite bool_decide_eq_false_2 by lia. simpl.
  case_bool_decide as Hlen; simpl.
  - split_and!.
    + by rewrite app_nil_r.
    + repeat constructor. simpl. lia.
    + intros [|j] d; simpl; [lia|done].
    + done.
    + intros Hne. by repeat constructor.
  - destruct (range_go_chunks statements m
                (Z.to_nat (Z.abs (Z.of_nat (length statements) - 0))) 0)
      as (Hcat & Hall & Hfull); [lia..|].
    unfold py_range.
    set (chunks := (λ index, slice statements index (index + m)) <$> _) in *.
    assert (Hid : ∀ cs : list (list PolicyStatement.t),
              PolicyDoc.statements <$> (PolicyDoc.make <$> cs) = cs)
      by (intros cs; induction cs as [|c cs IHcs]; [done|];
          rewrite !fmap_cons, IHcs; done).
    rewrite Hid. split_and!.
    + by rewrite Hcat.
    + rewrite Forall_fmap. eapply Forall_impl; [exact Hall|]. simpl. lia.
    + intros j d Hd Hj. rewrite length_fmap in Hj.
      rewrite list_lookup_fmap in Hd.
      destruct (chunks !! j) as [c|] eqn:Hc; [|done].
      injection Hd as <-. simpl. by apply (Hfull j c).
    + intros Hnil. apply fmap_nil_inv in Hnil. rewrite Hnil in Hcat.
      simpl in Hcat. destruct statements; [simpl in Hlen; lia|done].
    + intros _. rewrite Forall_fmap. eapply Forall_impl; [exact Hall|].
      simpl. intros c Hc ->. simpl in Hc. lia.
Qed.

Lemma chunk_two_by_one (self : t) (s1 s2 : PolicyStatement.t) :
  max_statements self = Some 1 →
  _chunk_statements self [s1; s2] = [PolicyDoc.make [s1]; PolicyDoc.make [s2]].
Proof. unfold _chunk_statements. by intros ->. Qed.

(** *** Composition of statements *)

Lemma fold_left_perm {A B} (f : B → A → B) (l1 l2 : list A) :
  (∀ b x y, f (f b x) y = f (f b y) x) →
  l1 ≡ₚ l2 → ∀ b, fold_left f l1 b = fold_left f l2 b.
Proof.
  intros Hcomm Hperm. induction Hperm as [|x l1 l2 _ IH|x y l|l1 l2 l3 _ IH1 _ IH2];
    intros b; simpl.
  - done.
  - apply IH.
  - by rewrite Hcomm.
  - by rewrite IH1.
Qed.

Section WithJson.
Variable json_dumps : gmap string value → string.

Local Abbreviation key_of := (PolicyGenerator.key_of json_dumps).
Local Abbreviation group_record := (PolicyGenerator.group_record json_dumps).
Local Abbreviation _compose_statements :=
  (PolicyGenerator._compose_statements json_dumps).
Local Abbreviation build := (PolicyGenerator.build json_dumps).

(** The statement list handed to [_chunk_statements]. *)
Definition pending_statements (self : t) (records : list ActionRecord.t)
    : list PolicyStatement.t :=
  let statements := _compose_statements self records in
  if include_logs_baseline self
     && existsb (λ record, bool_decide (ActionRecord.service record = "lambda"))
          records
  then statements ++ [_logs_baseline_statement]
  else statements.

Lemma pending_statements_nil (self : t) : pending_statements self [] = [].
Proof. unfold pending_statements. by rewrite andb_false_r. Qed.

(** [build] hands the pending statements to [_chunk_statements] and
    returns the first chunk with the others; for an empty record list it
    returns early, which makes no difference unless the limit is negative. *)
Lemma build_unfold (self : t) (records : list ActionRecord.t) :
  records ≠ [] ∨ max_statements self = None
  ∨ (∃ m, max_statements self = Some m ∧ 0 ≤ m) →
  build self records =
    match _chunk_statements self (pending_statements self records) with
    | [] => None
    | first :: rest => Some (first, rest)
    end.
Proof.
  destruct records as [|record records]; [|done].
  intros [?|Hmax]; [done|]. rewrite pending_statements_nil.
  unfold _chunk_statements.
  destruct Hmax as [-> | (m & -> & Hm)]; [done|].
  destruct (decide (m = 0)) as [-> | Hne]; [done|].
  rewrite bool_decide_eq_false_2 by done.
  by rewrite bool_decide_eq_true_2 by (simpl; lia).
Qed.

(** The statements composed do not depend on the order in which
    [grouped.items()] enumerates the dictionary. *)
Lemma sorted_items_any_enumeration (grouped : gmap group_key (gset string))
    (items : list (group_key * gset string)) :
  items ≡ₚ map_to_list grouped →
  py_sorted_by fst items = py_sorted_by fst (map_to_list grouped).
Proof.
  intros Hperm. symmetry. apply py_sorted_by_perm; [|done].
  apply NoDup_fst_map_to_list.
Qed.

(** Every statement composed from the groups carries an id made by
    [_build_sid] from a per-service counter that starts at one. *)
Definition numbered (statement : PolicyStatement.t) : Prop :=
  ∃ service counter,
    1 ≤ counter
    ∧ PolicyStatement.sid statement = Some (_build_sid service counter).

Lemma emit_statements_numbered
    (conditions_map : gmap group_key (gmap string value))
    (items : list (group_key * gset string))
    (st : gmap string Z * list PolicyStatement.t) :
  (∀ service counter, st.1 !! service = Some counter → 1 ≤ counter) →
  Forall numbered st.2 →
  Forall numbered (fold_left (emit_statement conditions_map) items st).2.
Proof.
  revert st. induction items as [|[[[service resources] ck] actions] items IH];
    intros [counters statements] Hcounters Hall; [done|].
  cbn [fold_left]. apply IH; unfold emit_statement; simpl in *.
  - intros service' counter'. rewrite lookup_insert. case_decide.
    + intros [= <-]. destruct (counters !! service) as [c|] eqn:Hc; simpl; [|lia].
      specialize (Hcounters _ _ Hc). lia.
    + apply Hcounters.
  - apply Forall_app. split; [done|]. constructor; [|done].
    exists service, (default 0 (counters !! service) + 1). split; [|done].
    destruct (counters !! service) as [c|] eqn:Hc; simpl; [|lia].
    specialize (Hcounters _ _ Hc). lia.
Qed.

Lemma compose_statements_numbered (self : t) (records : list ActionRecord.t) :
  Forall numbered (_compose_statements self records).
Proof.
  unfold PolicyGenerator._compose_statements.
  destruct (fold_left _ records _) as [grouped conditions_map].
  apply emit_statements_numbered; [|done].
  intros service counter. simpl. by rewrite lookup_empty.
Qed.

(** C7, amended.  Every id made by [_build_sid] has at most 128
    characters, whatever the service name and the counter; for a
    non-empty service name and a counter from 1 to 999 the id is the
    service name with ':' and '-' replaced by '_', cut to 40 characters,
    followed by "_allow_" and the three digits of the counter; for the
    empty service name the prefix is "svc"; and every statement composed
    by the generator carries such an id. *)
Theorem statement_ids :
  (∀ service counter, (String.length (_build_sid service counter) ≤ 128)%nat)
  ∧ (∀ service counter,
       service ≠ "" → 1 ≤ counter ≤ 999 →
       _build_sid service counter
       = sid_prefix service +:+ "_allow_" +:+ three_digits counter)
  ∧ (∀ counter,
       1 ≤ counter ≤ 999 →
       _build_sid "" counter = "svc" +:+ "_allow_" +:+ three_digits counter)
  ∧ (∀ self records statement,
       statement ∈ _compose_statements self records →
       ∃ service counter,
         1 ≤ counter
         ∧ PolicyStatement.sid statement = Some (_build_sid service counter)).
Proof.
  split_and!.
  - apply length_build_sid.
  - intros service counter Hs Hc. rewrite build_sid_short by done.
    by rewrite decide_False by by apply sid_prefix_nonempty.
  - intros counter Hc. by rewrite build_sid_short.
  - intros self records statement Hin.
    by apply (proj1 (Forall_forall _ _) (compose_statements_numbered self records)).
Qed.

(** C8 fails as stated: with the limit set to zero a document may hold
    more statements than the limit, because zero is treated as no limit. *)
Lemma chunk_limit_counterexample :
  ∃ self statement d,
    max_statements self = Some 0
    ∧ d ∈ _chunk_statements self [statement]
    ∧ ¬ (Z.of_nat (length (PolicyDoc.statements d)) ≤ 0).
Proof.
  exists {| arn_rules := ArnRuleRegistry.make ∅;
            resource_levels := ResourceLevelIndex.make;
            mode := "actions"; include_logs_baseline := false;
            principal_arn := None; max_statements := Some 0 |},
    _logs_baseline_statement, (PolicyDoc.make [_logs_baseline_statement]).
  split_and!; [done|by apply list_elem_of_here|simpl; lia].
Qed.

(** C8, amended.  With no limit, or with the limit zero, the primary
    document holds all statements and there is no overflow document.  With
    a positive limit the statements are cut, in order, into consecutive
    chunks of at most that many statements (all but the last of exactly
    that many), the first chunk is the primary document and the others are
    the overflow documents; a limit of one applied to two statements gives
    a primary document with the first and one overflow document with the
    second. *)
Theorem chunking_into_documents (self : t) (records : list ActionRecord.t) :
  (max_statements self = None ∨ max_statements self = Some 0 →
   build self records
   = Some (PolicyDoc.make (pending_statements self records), []))
  ∧ (∀ m,
       max_statements self = Some m → 0 < m →
       ∃ primary overflow,
         build self records = Some (primary, overflow)
         ∧ concat (PolicyDoc.statements <$> primary :: overflow)
           = pending_statements self records
         ∧ Forall (λ d, (length (PolicyDoc.statements d) ≤ Z.to_nat m)%nat)
             (primary :: overflow)
         ∧ (∀ j d, (primary :: overflow) !! j = Some d →
                   (S j < length (primary :: overflow))%nat →
                   length (PolicyDoc.statements d) = Z.to_nat m))
  ∧ (max_statements self = Some 1 →
     ∀ s1 s2,
       pending_statements self records = [s1; s2] →
       build self records = Some (PolicyDoc.make [s1], [PolicyDoc.make [s2]])).
Proof.
  split_and!.
  - intros Hmax. rewrite build_unfold.
    + by rewrite chunk_statements_unset.
    + destruct Hmax as [? | ?]; [by auto|]. right. right. exists 0. by split.
  - intros m Hmax Hm. rewrite build_unfold by (right; right; exists m; split; [done|lia]).
    destruct (chunk_statements_positive self (pending_statements self records)
                m Hmax Hm) as (Hcat & Hall & Hfull & Hdocs & _).
    destruct (_chunk_statements self (pending_statements self records))
      as [|primary overflow]; [done|].
    by exists primary, overflow.
  - intros Hmax s1 s2 Hpending.
    rewrite build_unfold, Hpending by (right; right; exists 1; split; [done|lia]).
    by rewrite chunk_two_by_one.
Qed.

End WithJson.

(** *** Insensitivity to the order of the records *)

Section Determinism.
Variable json_dumps : gmap string value → string.
(** [json.dumps] with sorted keys writes different maps differently, and
    writes the empty map as "{}". *)
Hypothesis json_dumps_inj : Inj (=) (=) json_dumps.
Hypothesis json_dumps_empty : json_dumps ∅ = "{}".

Local Abbreviation condition_key := (PolicyGenerator.condition_key json_dumps).
Local Abbreviation key_of := (PolicyGenerator.key_of json_dumps).
Local Abbreviation group_record := (PolicyGenerator.group_record json_dumps).
Local Abbreviation _compose_statements :=
  (PolicyGenerator._compose_statements json_dumps).
Local Abbreviation build := (PolicyGenerator.build json_dumps).

Lemma condition_key_inj (d1 d2 : gmap string value) :
  condition_key d1 = condition_key d2 → d1 = d2.
Proof.
  unfold PolicyGenerator.condition_key. repeat case_decide; subst; try done.
  - rewrite <- json_dumps_empty. apply json_dumps_inj.
  - rewrite <- json_dumps_empty. apply json_dumps_inj.
  - apply json_dumps_inj.
Qed.

(** Records with the same grouping key have the same merged conditions. *)
Lemma key_of_conditions (self : t) (r1 r2 : ActionRecord.t) :
  key_of self r1 = key_of self r2 →
  merge (ActionRecord.conditions r1) = merge (ActionRecord.conditions r2).
Proof.
  unfold PolicyGenerator.key_of. intros [= _ _ Hck]. by apply condition_key_inj.
Qed.

Lemma group_record_grouped (self : t)
    (st : gmap group_key (gset string) * gmap group_key (gmap string value))
    (record : ActionRecord.t) (k : group_key) :
  (group_record self st record).1 !! k =
    if decide (key_of self record = k)
    then Some (default ∅ (st.1 !! k) ∪ {[ ActionRecord.action record ]})
    else st.1 !! k.
Proof.
  unfold PolicyGenerator.group_record. cbn [fst].
  destruct (st.1 !! key_of self record) eqn:Hk; cbn [fst]; case_decide as Hkk.
  - subst k. by rewrite lookup_alter_eq, Hk.
  - by rewrite lookup_alter_ne.
  - subst k. by rewrite lookup_alter_eq, lookup_insert_eq, Hk.
  - by rewrite lookup_alter_ne, lookup_insert_ne.
Qed.

Lemma group_record_conditions (self : t)
    (st : gmap group_key (gset string) * gmap group_key (gmap string value))
    (record : ActionRecord.t) (k : group_key) :
  (group_record self st record).2 !! k =
    if decide (key_of self record = k)
    then match st.1 !! k with
         | None => Some (merge (ActionRecord.conditions record))
         | Some _ => st.2 !! k
         end
    else st.2 !! k.
Proof.
  unfold PolicyGenerator.group_record. cbn [snd].
  destruct (st.1 !! key_of self record) eqn:Hk; cbn [snd]; case_decide as Hkk.
  - subst k. by rewrite Hk.
  - done.
  - subst k. by rewrite lookup_insert_eq, Hk.
  - by rewrite lookup_insert_ne.
Qed.

(** The two dictionaries of the grouping loop have the same keys, so the
    lookup in [conditions_map] made by the second loop always succeeds. *)
Lemma grouping_same_keys (self : t) (records : list ActionRecord.t)
    (k : group_key) :
  let st := fold_left (group_record self) records (∅, ∅) in
  is_Some (st.1 !! k) ↔ is_Some (st.2 !! k).
Proof.
  cbv zeta.
  assert (Hgen : ∀ st : gmap group_key (gset string)
                        * gmap group_key (gmap string value),
            (is_Some (st.1 !! k) ↔ is_Some (st.2 !! k)) →
            is_Some ((fold_left (group_record self) records st).1 !! k)
            ↔ is_Some ((fold_left (group_record self) records st).2 !! k)).
  { induction records as [|record records IH]; intros st Hst; [done|].
    cbn [fold_left]. apply IH.
    rewrite group_record_grouped, group_record_conditions.
    case_decide; [|done].
    destruct (st.1 !! k) eqn:Hk; [|by split; eauto].
    split; [intros _; by apply Hst|eauto]. }
  apply Hgen. simpl. by rewrite !lookup_empty.
Qed.

(** Two iterations of the grouping loop commute. *)
Lemma group_record_comm (self : t)
    (st : gmap group_key (gset string) * gmap group_key (gmap string value))
    (r1 r2 : ActionRecord.t) :
  group_record self (group_record self st r1) r2
  = group_record self (group_record self st r2) r1.
Proof.
  apply injective_projections; apply map_eq; intros k.
  - rewrite !group_record_grouped.
    repeat case_decide; try done; try congruence.
    f_equal. destruct (st.1 !! k); simpl; set_solver.
  - rewrite !group_record_conditions, !group_record_grouped.
    repeat case_decide; try done; try congruence.
    rewrite (key_of_conditions self r1 r2) by congruence.
    by destruct (st.1 !! k).
Qed.

Lemma grouping_perm (self : t) (records records' : list ActionRecord.t) :
  records ≡ₚ records' →
  fold_left (group_record self) records (∅, ∅)
  = fold_left (group_record self) records' (∅, ∅).
Proof.
  intros Hperm. apply fold_left_perm; [|done].
  intros st r1 r2. apply group_record_comm.
Qed.

Lemma compose_statements_perm (self : t) (records records' : list ActionRecord.t) :
  records ≡ₚ records' →
  _compose_statements self records = _compose_statements self records'.
Proof.
  intros Hperm. unfold PolicyGenerator._compose_statements.
  by rewrite (grouping_perm self records records').
Qed.

Lemma existsb_perm {A} (p : A → bool) (l1 l2 : list A) :
  l1 ≡ₚ l2 → existsb p l1 = existsb p l2.
Proof.
  intros Hperm. apply eq_true_iff_eq. rewrite !existsb_exists.
  by setoid_rewrite <- list_elem_of_In; setoid_rewrite Hperm.
Qed.

(** C5, as the claim states it.  With the same generator (mode,
    capability table, inference registry, baseline flag and chunk size),
    [build] returns the same primary document and the same overflow
    documents for a list of records and for any permutation of it. *)
Theorem build_ignores_record_order (self : t)
    (records records' : list ActionRecord.t) :
  records ≡ₚ records' → build self records = build self records'.
Proof.
  intros Hperm. destruct records as [|r records], records' as [|r' records'].
  - done.
  - by apply Permutation_nil_cons in Hperm.
  - symmetry in Hperm. by apply Permutation_nil_cons in Hperm.
  - unfold PolicyGenerator.build.
    rewrite (compose_statements_perm self _ _ Hperm).
    by rewrite (existsb_perm _ _ _ Hperm).
Qed.

End Determinism.

End PolicyGeneratorFacts.

(** ** PolicySimulator: local evaluation *)

Module PolicySimulatorFacts.

Import PolicySimulator.

(** [pattern] ends with a star and [subject] starts with what precedes it. *)
Definition prefix_wildcard (pattern subject : string) : Prop :=
  ∃ stem rest, pattern = stem +:+ "*" ∧ subject = stem +:+ rest.

Lemma append_nil (s : string) : EmptyString +:+ s = s.
Proof. reflexivity. Qed.

Lemma append_cons (a : ascii) (s1 s2 : string) :
  String a s1 +:+ s2 = String a (s1 +:+ s2).
Proof. reflexivity. Qed.

Lemma append_eq_nil (s1 s2 : string) : s1 +:+ s2 = EmptyString → s1 = EmptyString.
Proof. destruct s1; [done|]. rewrite append_cons. discriminate. Qed.

Lemma ends_with_char_spec (c : ascii) (s : string) :
  PyStr.ends_with_char c s = true ↔ ∃ stem, s = stem +:+ String c EmptyString.
Proof.
  induction s as [|a s IH].
  - split; [done|]. intros [[|??] Heq]; discriminate Heq.
  - destruct s as [|b s].
    + simpl. rewrite bool_decide_eq_true. split.
      * intros ->. by exists EmptyString.
      * intros [[|a' stem] Heq].
        -- rewrite append_nil in Heq. congruence.
        -- rewrite append_cons in Heq. injection Heq as _ Heq.
           destruct stem; discriminate Heq.
    + change (PyStr.ends_with_char c (String a (String b s)))
        with (PyStr.ends_with_char c (String b s)).
      rewrite IH. split.
      * intros [stem ->]. by exists (String a stem).
      * intros [[|a' stem] Heq].
        -- rewrite append_nil in Heq. discriminate.
        -- rewrite append_cons in Heq. injection Heq as _ Heq. by exists stem.
Qed.

Lemma drop_last_snoc (stem : string) (c : ascii) :
  PyStr.drop_last (stem +:+ String c EmptyString) = stem.
Proof.
  induction stem as [|a stem IH]; [done|].
  rewrite append_cons.
  destruct (stem +:+ String c EmptyString) eqn:Heq.
  - destruct stem; discriminate Heq.
  - change (PyStr.drop_last (String a (String a0 s)))
      with (String a (PyStr.drop_last (String a0 s))).
    by rewrite IH.
Qed.

Lemma startswith_spec (s p : string) :
  PyStr.startswith s p = true ↔ ∃ rest, s = p +:+ rest.
Proof.
  unfold PyStr.startswith. revert s. induction p as [|a p IH]; intros s.
  - destruct s; simpl; split; eauto.
  - destruct s as [|b s]; simpl.
    + split; [done|]. intros [rest Heq]. discriminate.
    + setoid_rewrite append_cons. destruct (ascii_dec a b) as [->|Hab].
      * rewrite IH. split; intros [rest Heq]; exists rest; congruence.
      * split; [done|]. intros [rest Heq]. congruence.
Qed.

Lemma wildcard_match_spec (pattern subject : string) :
  wildcard_match pattern subject = true ↔ prefix_wildcard pattern subject.
Proof.
  unfold wildcard_match, prefix_wildcard.
  rewrite andb_true_iff, ends_with_char_spec, startswith_spec. split.
  - intros [[stem ->] [rest Hrest]]. rewrite drop_last_snoc in Hrest.
    by exists stem, rest.
  - intros (stem & rest & -> & ->). split; [by exists stem|].
    exists rest. by rewrite drop_last_snoc.
Qed.

(** A pattern list accepts a probe action. *)
Definition action_accepted (action : string) (patterns : list string) : Prop :=
  ∃ pattern, pattern ∈ patterns
             ∧ (pattern = action ∨ prefix_wildcard pattern action).

(** A pattern list accepts a probe resource: the empty list accepts only
    the probe "*"; otherwise some pattern is "*", is the probe itself, or
    is a prefix wildcard that covers the probe. *)
Definition resource_accepted (resource : string) (patterns : list string) : Prop :=
  match patterns with
  | [] => resource = "*"
  | _ => ∃ pattern, pattern ∈ patterns
                    ∧ (pattern = "*" ∨ pattern = resource
                       ∨ prefix_wildcard pattern resource)
  end.

Definition statement_allows (statement : PolicyStatement.t) (case : SimulationCase)
    : Prop :=
  PolicyStatement.effect statement = "Allow"
  ∧ action_accepted (action case) (PolicyStatement.actions statement)
  ∧ resource_accepted (resource case) (PolicyStatement.resources statement).

Lemma action_matches_spec (action : string) (patterns : list string) :
  _action_matches action patterns = true ↔ action_accepted action patterns.
Proof.
  unfold _action_matches, action_accepted. rewrite existsb_exists.
  setoid_rewrite orb_true_iff. setoid_rewrite bool_decide_eq_true.
  setoid_rewrite wildcard_match_spec. by setoid_rewrite list_elem_of_In.
Qed.

Lemma resource_matches_spec (resource : string) (patterns : list string) :
  _resource_matches resource patterns = true ↔ resource_accepted resource patterns.
Proof.
  unfold _resource_matches, resource_accepted. destruct patterns as [|p ps].
  - apply bool_decide_eq_true.
  - rewrite existsb_exists.
    setoid_rewrite orb_true_iff. setoid_rewrite orb_true_iff.
    setoid_rewrite bool_decide_eq_true.
    setoid_rewrite wildcard_match_spec. setoid_rewrite list_elem_of_In.
    split; intros (pattern & ? & ?); exists pattern; tauto.
Qed.

Lemma decision_cases (statements : list PolicyStatement.t) (case : SimulationCase) :
  decision statements case = "Allow" ∨ decision statements case = "Deny".
Proof.
  induction statements as [|statement statements IH]; simpl; [by right|].
  repeat (destruct (negb _); [done|]). by left.
Qed.

Lemma statement_allows_spec (statement : PolicyStatement.t) (case : SimulationCase) :
  statement_allows statement case
  ↔ bool_decide (PolicyStatement.effect statement = "Allow")
    && _action_matches (action case) (PolicyStatement.actions statement)
    && _resource_matches (resource case) (PolicyStatement.resources statement)
    = true.
Proof.
  unfold statement_allows.
  rewrite !andb_true_iff, bool_decide_eq_true.
  rewrite action_matches_spec, resource_matches_spec. tauto.
Qed.

Lemma decision_cons (statement : PolicyStatement.t)
    (statements : list PolicyStatement.t) (case : SimulationCase) :
  decision (statement :: statements) case = "Allow"
  ↔ statement_allows statement case ∨ decision statements case = "Allow".
Proof.
  rewrite statement_allows_spec. simpl.
  destruct (bool_decide _); simpl; [|by intuition].
  destruct (_action_matches _ _); simpl; [|by intuition].
  destruct (_resource_matches _ _); simpl; by intuition.
Qed.

Lemma decision_allow (statements : list PolicyStatement.t) (case : SimulationCase) :
  decision statements case = "Allow"
  ↔ ∃ statement, statement ∈ statements ∧ statement_allows statement case.
Proof.
  induction statements as [|statement statements IH].
  - split; [done|]. by intros (? & ?%elem_of_nil & _).
  - rewrite decision_cons, IH. setoid_rewrite elem_of_cons. split.
    + intros [Hallow | (s & Hs & Hallow)]; [exists statement|exists s]; auto.
    + intros (s & [-> | Hs] & Hallow); [by left|right; by exists s].
Qed.

(** The decision depends on the probe's action and resource only. *)
Lemma decision_ext (statements : list PolicyStatement.t) (c1 c2 : SimulationCase) :
  action c1 = action c2 → resource c1 = resource c2 →
  decision statements c1 = decision statements c2.
Proof.
  intros Ha Hr. induction statements as [|statement statements IH]; simpl; [done|].
  by rewrite Ha, Hr, IH.
Qed.

Lemma local_simulate_lookup (policy : PolicyDoc.t) (cases : list SimulationCase)
    (case : SimulationCase) :
  case ∈ cases →
  _local_simulate policy cases !! (action case, resource case)
  = Some (decision (PolicyDoc.statements policy) case).
Proof.
  unfold _local_simulate. generalize (∅ : gmap (string * string) string).
  induction cases as [|c cases IH] using rev_ind; intros results Hin.
  - by apply elem_of_nil in Hin.
  - rewrite fold_left_app. simpl.
    destruct (decide ((action c, resource c) = (action case, resource case)))
      as [Heq|Hne].
    + rewrite Heq, lookup_insert_eq. f_equal.
      injection Heq as Ha Hr. by apply decision_ext.
    + rewrite lookup_insert_ne by done. apply IH.
      apply elem_of_app in Hin as [Hin|Hin%list_elem_of_singleton]; [done|].
      by subst.
Qed.

Lemma local_simulate_lookup_None (policy : PolicyDoc.t)
    (cases : list SimulationCase) (k : string * string) :
  (∀ case, case ∈ cases → (action case, resource case) ≠ k) →
  _local_simulate policy cases !! k = None.
Proof.
  unfold _local_simulate.
  assert (Hgen : ∀ results : gmap (string * string) string,
            (∀ case, case ∈ cases → (action case, resource case) ≠ k) →
            fold_left
              (λ results case,
                 <[(action case, resource case)
                   := decision (PolicyDoc.statements policy) case]> results)
              cases results !! k = results !! k).
  { induction cases as [|c cases IH]; intros results Hk; [done|].
    cbn [fold_left]. rewrite IH.
    - apply lookup_insert_ne, Hk, list_elem_of_here.
    - intros case Hin. by apply Hk, list_elem_of_further. }
  intros Hk. by rewrite Hgen.
Qed.

(** The statements that accept the probe resource "*". *)
Lemma wildcard_probe_accepted (patterns : list string) :
  _resource_matches "*" patterns = true
  ↔ patterns = [] ∨ "*" ∈ patterns ∨ "**" ∈ patterns.
Proof.
  rewrite resource_matches_spec. unfold resource_accepted.
  destruct patterns as [|p ps]; [by intuition|]. split.
  - intros (pattern & Hin & [->|[->|(stem & rest & -> & Hrest)]]); [by auto..|].
    destruct stem as [|a [|??]]; [by auto| |by destruct rest].
    rewrite append_cons, append_nil in Hrest. injection Hrest as <- _. by auto.
  - intros [?|[Hin|Hin]]; [done|..].
    + exists "*". by auto.
    + exists "**". split; [done|]. right. right. by exists "*", "".
Qed.

(** C3 fails as stated: a probe for the resource "*" is denied by an
    Allow statement whose action matches but whose resource patterns are
    concrete. *)
Lemma wildcard_probe_counterexample :
  ¬ (∀ (statement : PolicyStatement.t) (case : SimulationCase),
       PolicyStatement.effect statement = "Allow" →
       _action_matches (action case) (PolicyStatement.actions statement) = true →
       resource case = "*" →
       decision [statement] case = "Allow").
Proof.
  intros Hclaim.
  specialize (Hclaim
    {| PolicyStatement.sid := None;
       PolicyStatement.effect := "Allow";
       PolicyStatement.actions := ["s3:GetObject"];
       PolicyStatement.resources := ["arn:aws:s3:::bucket/object.txt"];
       PolicyStatement.conditions := ∅ |}
    {| action := "s3:GetObject"; resource := "*"; context := None |}).
  by specialize (Hclaim eq_refl eq_refl eq_refl).
Qed.

(** C3, amended.  Local simulation answers Allow or Deny, and Allow
    exactly when some statement of the document has effect Allow, has an
    action pattern that equals the probe action or is a prefix wildcard
    covering it, and has a resource pattern that is "*", equals the probe
    resource or is a prefix wildcard covering it (a statement with no
    resource pattern accepts only the probe "*"); the map returned for a
    probe list binds the (action, resource) pair of every probe to that
    decision, and binds nothing else.  The probe resource "*" is accepted
    only by a statement with no resource pattern, or with the pattern "*"
    or "**". *)
Theorem local_simulation_decides :
  (∀ statements case,
     decision statements case = "Allow" ∨ decision statements case = "Deny")
  ∧ (∀ statements case,
       decision statements case = "Allow"
       ↔ ∃ statement,
           statement ∈ statements
           ∧ PolicyStatement.effect statement = "Allow"
           ∧ (∃ pattern,
                pattern ∈ PolicyStatement.actions statement
                ∧ (pattern = action case ∨ prefix_wildcard pattern (action case)))
           ∧ match PolicyStatement.resources statement with
             | [] => resource case = "*"
             | patterns =>
                 ∃ pattern,
                   pattern ∈ patterns
                   ∧ (pattern = "*" ∨ pattern = resource case
                      ∨ prefix_wildcard pattern (resource case))
             end)
  ∧ (∀ policy cases case,
       case ∈ cases →
       _local_simulate policy cases !! (action case, resource case)
       = Some (decision (PolicyDoc.statements policy) case))
  ∧ (∀ policy cases k,
       (∀ case, case ∈ cases → (action case, resource case) ≠ k) →
       _local_simulate policy cases !! k = None)
  ∧ (∀ patterns,
       _resource_matches "*" patterns = true
       ↔ patterns = [] ∨ "*" ∈ patterns ∨ "**" ∈ patterns).
Proof.
  split_and!.
  - apply decision_cases.
  - intros statements case. rewrite decision_allow.
    unfold statement_allows, action_accepted, resource_accepted.
    split; intros (statement & Hin & Heff & Hact & Hres); exists statement;
      (split_and!; [done..|]); by destruct (PolicyStatement.resources statement).
  - apply local_simulate_lookup.
  - apply local_simulate_lookup_None.
  - apply wildcard_probe_accepted.
Qed.

End PolicySimulatorFacts.

(** ** PolicyDiff: reduction ratios *)

Module PolicyDiffFacts.

Import PolicyDiff.

Lemma py_max_zero (x : Q) : (py_max x 0 == Qmax 0 x)%Q.
Proof.
  unfold py_max. destruct (Qle_bool 0 x) eqn:Hle.
  - apply Qle_bool_iff in Hle. symmetry. by apply Q.max_r.
  - assert (x <= 0)%Q as Hx.
    { apply Qnot_lt_le. intros Hlt%Qlt_le_weak. apply Qle_bool_iff in Hlt. congruence. }
    symmetry. by apply Q.max_l.
Qed.

Lemma py_max_nonneg (x : Q) : (0 <= py_max x 0)%Q.
Proof. rewrite py_max_zero. apply Q.le_max_l. Qed.

Lemma py_max_le_one (x : Q) : (x <= 1)%Q → (py_max x 0 <= 1)%Q.
Proof. intros Hx. rewrite py_max_zero. apply Q.max_lub; [done|exact Hx]. Qed.

Lemma true_div_le_one (reduction before : Z) :
  0 < before → reduction ≤ before → (true_div reduction before <= 1)%Q.
Proof.
  intros Hb Hr. unfold true_div. apply Qle_shift_div_r.
  - change 0%Q with (inject_Z 0). by rewrite <- Zlt_Qlt.
  - rewrite Qmult_1_l. by rewrite <- Zle_Qle.
Qed.

(** The resource count of a document is the number of resource patterns
    over all its statements. *)
Lemma count_resources_total (policy : PolicyDoc.t) :
  _count_resources policy
  = Z.of_nat (length (concat (PolicyStatement.resources
                                <$> PolicyDoc.statements policy))).
Proof.
  unfold _count_resources.
  assert (Hsum : ∀ (l : list PolicyStatement.t) (total : Z),
            fold_left (λ total statement,
                         total + Z.of_nat (length (PolicyStatement.resources statement)))
              l total
            = total + Z.of_nat (length (concat (PolicyStatement.resources <$> l)))).
  { intros l. induction l as [|x l IH]; intros total; [simpl; lia|].
    cbn [fold_left]. rewrite IH, fmap_cons. cbn [concat].
    rewrite length_app. lia. }
  rewrite Hsum. lia.
Qed.

Lemma count_resources_nonneg (policy : PolicyDoc.t) : 0 ≤ _count_resources policy.
Proof. rewrite count_resources_total. lia. Qed.

(** C9 fails as stated: the access-denied ratio exceeds 1 when the
    caller passes a negative after-count. *)
Lemma denied_ratio_counterexample :
  (_denied_reduction 5 (-5) == 2)%Q ∧ ¬ (_denied_reduction 5 (-5) <= 1)%Q.
Proof. split; [reflexivity|]. intros Hle. by vm_compute in Hle. Qed.

(** C9, amended.  The resource reduction ratio is 0 when the before
    document has no resource pattern and max(0, (before - after) / before)
    otherwise, over the per-document totals of resource patterns, and it
    lies between 0 and 1.  The access-denied ratio is 0 when the before
    count is at most 0 and max(0, (before - after) / before) otherwise; it
    is never negative, and it is at most 1 when the after count is not
    negative. *)
Theorem reduction_ratios :
  (∀ self : t,
     let b := _count_resources (before self) in
     let a := _count_resources (after self) in
     (b = 0 → (resource_reduction_ratio self == 0)%Q)
     ∧ (b ≠ 0 → (resource_reduction_ratio self
                 == Qmax 0 (inject_Z (b - a) / inject_Z b))%Q)
     ∧ (0 <= resource_reduction_ratio self)%Q
     ∧ (resource_reduction_ratio self <= 1)%Q)
  ∧ (∀ policy : PolicyDoc.t,
       _count_resources policy
       = Z.of_nat (length (concat (PolicyStatement.resources
                                     <$> PolicyDoc.statements policy))))
  ∧ (∀ before after : Z,
       (before ≤ 0 → (_denied_reduction before after == 0)%Q)
       ∧ (0 < before → (_denied_reduction before after
                        == Qmax 0 (inject_Z (before - after) / inject_Z before))%Q)
       ∧ (0 <= _denied_reduction before after)%Q
       ∧ (0 ≤ after → (_denied_reduction before after <= 1)%Q)).
Proof.
  split_and!.
  - intros self b a. unfold resource_reduction_ratio. fold b a.
    pose proof (count_resources_nonneg (before self)) as Hb.
    pose proof (count_resources_nonneg (after self)) as Ha.
    fold b in Hb. fold a in Ha.
    case_decide as Hz; split_and!; try done.
    + intros _. apply py_max_zero.
    + apply py_max_nonneg.
    + apply py_max_le_one, true_div_le_one; lia.
  - apply count_resources_total.
  - intros before after. unfold _denied_reduction.
    case_decide as Hz; split_and!; try done; try lia.
    + intros _. apply py_max_zero.
    + apply py_max_nonneg.
    + intros Ha. apply py_max_le_one, true_div_le_one; lia.
Qed.

End PolicyDiffFacts.

(** * Further properties of the code *)

(** ** What [aggregate] returns *)

Module AggregateInvariants.

Import PyOrder PyOrderFacts ActionAggregator ActionRecordFacts ActionAggregatorFacts.

Lemma contains_char_append_r (c : ascii) (s1 s2 : string) :
  PyStr.contains_char c s2 = true → PyStr.contains_char c (s1 +:+ s2) = true.
Proof.
  intros Hs2. induction s1 as [|a s1 IH]; [done|].
  change (String a s1 +:+ s2) with (String a (s1 +:+ s2)).
  cbn [PyStr.contains_char]. by case_decide.
Qed.

Lemma normalize_action_colon (event : EventModel.t) :
  PyStr.contains_char ":"%char (_normalize_action event) = true.
Proof.
  unfold _normalize_action.
  destruct (PyStr.contains_char _ (EventModel.action event)) eqn:Hc; [done|].
  by apply contains_char_append_r.
Qed.

(** An action that already names its service is kept; normalizing twice
    changes nothing more. *)
Lemma normalize_action_fixed (event : EventModel.t) :
  PyStr.contains_char ":"%char (EventModel.action event) = true →
  _normalize_action event = EventModel.action event.
Proof. unfold _normalize_action. by intros ->. Qed.

Section WithLibraries.
Context {regex : Type}.
Variable re_search : regex → string → bool.
Variable fnmatch : string → string → bool.

Local Abbreviation t := (@ActionAggregator.t regex).
Local Abbreviation aggregate := (ActionAggregator.aggregate re_search fnmatch).
Local Abbreviation keeps := (ActionAggregator.keeps fnmatch).
Local Abbreviation hits := (ActionAggregatorFacts.hits re_search fnmatch).
Local Abbreviation folded := (ActionAggregatorFacts.folded re_search fnmatch).
Local Abbreviation qualifies := (ActionAggregatorFacts.qualifies re_search fnmatch).

Lemma elem_of_hits (self : t) (k : key) (events : list EventModel.t)
    (event : EventModel.t) :
  event ∈ hits self k events
  ↔ event ∈ events ∧ qualifies self event = true ∧ event_key event = k.
Proof. unfold ActionAggregatorFacts.hits. rewrite list_elem_of_filter. tauto. Qed.

(** X1.  Every record returned stems from an event of the input that passed
    the principal filter and the exclude patterns: it carries the event's
    principal and service and the event's normalized action, which holds a
    colon. *)
Theorem aggregate_provenance (self : t) (events : list EventModel.t) :
  Forall
    (λ rec,
       ∃ event,
         event ∈ events
         ∧ _include_principal re_search self (EventModel.principal_arn event) = true
         ∧ _is_excluded fnmatch self (_normalize_action event) = false
         ∧ ActionRecord.principal_arn rec = EventModel.principal_arn event
         ∧ ActionRecord.service rec = EventModel.aws_service event
         ∧ ActionRecord.action rec = _normalize_action event
         ∧ PyStr.contains_char ":"%char (ActionRecord.action rec) = true)
    (aggregate self events).
Proof.
  apply Forall_forall. intros rec (k & Hhits & -> & _)%elem_of_aggregate.
  destruct (hits self k events) as [|event hs] eqn:Hh; [done|].
  assert (event ∈ hits self k events) as Hin by (rewrite Hh; apply list_elem_of_here).
  apply elem_of_hits in Hin as (Hin & Hq & Hk).
  unfold ActionAggregatorFacts.qualifies in Hq.
  apply andb_true_iff in Hq as [Hp Hx%negb_true_iff].
  subst k.
  pose proof (sort_key_folded re_search fnmatch self (event_key event) events)
    as Hkey.
  unfold sort_key, event_key in Hkey.
  injection Hkey as Hprincipal Hservice Haction.
  exists event. unfold event_key. split_and!; try done.
  rewrite Haction. apply normalize_action_colon.
Qed.

(** *** Last-seen and resources of a returned record *)

Lemma registers_last_seen (es : list EventModel.t) (r : ActionRecord.t) :
  es ≠ [] →
  ∃ seen,
    ActionRecord.last_seen (fold_left ActionRecord.register es r) = Some seen
    ∧ (Some seen = ActionRecord.last_seen r
       ∨ ∃ e, e ∈ es ∧ EventModel.event_time e = seen)
    ∧ (∀ e, e ∈ es → EventModel.event_time e ≤ seen)
    ∧ (∀ before, ActionRecord.last_seen r = Some before → before ≤ seen).
Proof.
  revert r. induction es as [|e es IH]; intros r Hne; [done|]. cbn [fold_left].
  destruct es as [|e' es].
  - cbn [fold_left]. rewrite register_last_seen.
    eexists. split; [done|]. split_and!.
    + destruct (ActionRecord.last_seen r) as [seen|] eqn:Hs.
      * destruct (Z.max_spec seen (EventModel.event_time e)) as [[_ ->]|[_ ->]].
        -- right. exists e. split; [apply list_elem_of_here|done].
        -- by left.
      * right. exists e. split; [apply list_elem_of_here|done].
    + intros e0 ->%list_elem_of_singleton.
      destruct (ActionRecord.last_seen r); lia.
    + intros before ->. lia.
  - destruct (IH (ActionRecord.register r e)) as (seen & Hseen & Hfrom & Hmax & Hold);
      [done|].
    exists seen. split; [done|].
    rewrite register_last_seen in Hfrom, Hold.
    specialize (Hold _ eq_refl). split_and!.
    + destruct Hfrom as [Heq | (e0 & He0 & Ht)].
      * injection Heq as Heq. destruct (ActionRecord.last_seen r) as [s|] eqn:Hs.
        -- destruct (Z.max_spec s (EventModel.event_time e)) as [[_ Hm]|[_ Hm]];
             rewrite Hm in Heq.
           ++ right. exists e. split; [apply list_elem_of_here|done].
           ++ left. by rewrite Heq.
        -- right. exists e. split; [apply list_elem_of_here|done].
      * right. exists e0. split; [by apply list_elem_of_further|done].
    + intros e0 [->|He0]%elem_of_cons; [|by apply Hmax].
      destruct (ActionRecord.last_seen r); lia.
    + intros before Hb. rewrite Hb in Hold. lia.
Qed.

(** X2.  The last-seen time of every record returned is the latest event time
    among the qualifying events of its key. *)
Theorem aggregate_last_seen (self : t) (events : list EventModel.t) :
  Forall
    (λ rec,
       ∃ seen,
         ActionRecord.last_seen rec = Some seen
         ∧ (∃ event, event ∈ hits self (sort_key rec) events
                     ∧ EventModel.event_time event = seen)
         ∧ ∀ event, event ∈ hits self (sort_key rec) events →
                    EventModel.event_time event ≤ seen)
    (aggregate self events).
Proof.
  apply Forall_forall. intros rec (k & Hhits & -> & _)%elem_of_aggregate.
  rewrite sort_key_folded. unfold ActionAggregatorFacts.folded.
  destruct (registers_last_seen (hits self k events) (blank k) Hhits)
    as (seen & Hseen & Hfrom & Hmax & _).
  exists seen. split_and!; [done| |done].
  by destruct Hfrom as [?|?].
Qed.

(** X3.  The resource list of every record returned has no duplicates. *)
Theorem aggregate_resources_NoDup (self : t) (events : list EventModel.t) :
  Forall (λ rec, NoDup (ActionRecord.resources rec)) (aggregate self events).
Proof.
  apply Forall_forall. intros rec (k & _ & -> & _)%elem_of_aggregate.
  unfold ActionAggregatorFacts.folded.
  generalize (hits self k events). intros hs.
  assert (Hgen : ∀ r, NoDup (ActionRecord.resources r) →
                      NoDup (ActionRecord.resources
                               (fold_left ActionRecord.register hs r))).
  { induction hs as [|e hs IH]; intros r Hr; [done|].
    cbn [fold_left]. apply IH. by apply add_resources_NoDup. }
  apply Hgen. constructor.
Qed.

(** *** Arrival order of the events *)

(** What a record says once the order of its resource list is
    disregarded. *)
Definition summary (rec : ActionRecord.t)
    : key * Z * option Z * gset string :=
  (sort_key rec, ActionRecord.count rec, ActionRecord.last_seen rec,
   list_to_set (ActionRecord.resources rec)).

Lemma list_to_set_add_resources (xs rs : list string) :
  list_to_set (fold_left ActionRecord.add_resource xs rs)
  =@{gset string} list_to_set rs ∪ list_to_set xs.
Proof.
  apply set_eq. intros x.
  rewrite elem_of_union, !elem_of_list_to_set. apply elem_of_add_resources.
Qed.

Lemma summary_register (r : ActionRecord.t) (e : EventModel.t) :
  summary (ActionRecord.register r e)
  = (sort_key r, ActionRecord.count r + 1,
     Some (match ActionRecord.last_seen r with
           | None => EventModel.event_time e
           | Some seen => Z.max seen (EventModel.event_time e)
           end),
     list_to_set (ActionRecord.resources r)
       ∪ list_to_set (EventModel.resource_arns e)).
Proof.
  unfold summary. rewrite register_last_seen.
  cbn [ActionRecord.register ActionRecord.resources ActionRecord.count].
  by rewrite list_to_set_add_resources.
Qed.

Lemma summary_register_congr (r r' : ActionRecord.t) (e : EventModel.t) :
  summary r = summary r' →
  summary (ActionRecord.register r e) = summary (ActionRecord.register r' e).
Proof.
  rewrite !summary_register. unfold summary, sort_key.
  intros Hs. injection Hs as H1 H2 H3 H4 H5 H6.
  by rewrite H1, H2, H3, H4, H5, H6.
Qed.

Lemma summary_register_swap (r : ActionRecord.t) (e1 e2 : EventModel.t) :
  summary (ActionRecord.register (ActionRecord.register r e1) e2)
  = summary (ActionRecord.register (ActionRecord.register r e2) e1).
Proof.
  rewrite (summary_register (ActionRecord.register r e1)),
    (summary_register (ActionRecord.register r e2)).
  rewrite !register_last_seen.
  cbn [ActionRecord.register ActionRecord.count ActionRecord.resources].
  rewrite !list_to_set_add_resources.
  assert (((list_to_set (ActionRecord.resources r)
            ∪ list_to_set (EventModel.resource_arns e1))
           ∪ list_to_set (EventModel.resource_arns e2) : gset string)
          = (list_to_set (ActionRecord.resources r)
             ∪ list_to_set (EventModel.resource_arns e2))
            ∪ list_to_set (EventModel.resource_arns e1)) as -> by set_solver.
  assert (match ActionRecord.last_seen r with
          | Some seen => Z.max seen (EventModel.event_time e1)
          | None => EventModel.event_time e1
          end `max` EventModel.event_time e2
          = match ActionRecord.last_seen r with
            | Some seen => Z.max seen (EventModel.event_time e2)
            | None => EventModel.event_time e2
            end `max` EventModel.event_time e1) as ->
    by (destruct (ActionRecord.last_seen r); lia).
  done.
Qed.

Lemma summary_registers_congr (es : list EventModel.t) (r r' : ActionRecord.t) :
  summary r = summary r' →
  summary (fold_left ActionRecord.register es r)
  = summary (fold_left ActionRecord.register es r').
Proof.
  revert r r'. induction es as [|e es IH]; intros r r' Hs; [done|].
  cbn [fold_left]. by apply IH, summary_register_congr.
Qed.

Lemma summary_registers_perm (es es' : list EventModel.t) (r : ActionRecord.t) :
  es ≡ₚ es' →
  summary (fold_left ActionRecord.register es r)
  = summary (fold_left ActionRecord.register es' r).
Proof.
  intros Hperm. revert r.
  induction Hperm as [|e es es' _ IH|e1 e2 es|es1 es2 es3 _ IH1 _ IH2];
    intros r; cbn [fold_left].
  - done.
  - apply IH.
  - apply summary_registers_congr, summary_register_swap.
  - by rewrite IH1.
Qed.

Lemma existsb_same_elements {A} (p : A → bool) (l1 l2 : list A) :
  (∀ x, x ∈ l1 ↔ x ∈ l2) → existsb p l1 = existsb p l2.
Proof.
  intros Hl. apply eq_true_iff_eq. rewrite !existsb_exists.
  setoid_rewrite <- list_elem_of_In. by setoid_rewrite Hl.
Qed.

Lemma existsb_pointwise {A} (p q : A → bool) (l : list A) :
  (∀ x, p x = q x) → existsb p l = existsb q l.
Proof. intros Hpq. induction l as [|x l IH]; simpl; [done|]. by rewrite Hpq, IH. Qed.

(** Whether a record is kept depends on its summary only. *)
Lemma keeps_summary (self : t) (r r' : ActionRecord.t) :
  summary r = summary r' → keeps self r = keeps self r'.
Proof.
  unfold summary, sort_key. intros [= Hp Hs Ha Hc _ Hres].
  unfold ActionAggregator.keeps, _is_allowlisted. rewrite Hp, Ha, Hc.
  do 3 f_equal. apply existsb_pointwise. intros pattern.
  apply existsb_same_elements. intros x.
  by rewrite <- !(elem_of_list_to_set (C:=gset string)), Hres.
Qed.

Lemma elem_of_summaries (self : t) (events : list EventModel.t)
    (c : key * Z * option Z * gset string) :
  c ∈ summary <$> aggregate self events
  ↔ ∃ k, hits self k events ≠ [] ∧ c = summary (folded self k events)
         ∧ keeps self (folded self k events) = true.
Proof.
  rewrite list_elem_of_fmap. setoid_rewrite elem_of_aggregate. split.
  - intros (rec & -> & k & ? & -> & ?). by exists k.
  - intros (k & ? & -> & ?). exists (folded self k events). split; [done|].
    by exists k.
Qed.

Lemma summaries_perm_incl (self : t) (events events' : list EventModel.t)
    (c : key * Z * option Z * gset string) :
  events ≡ₚ events' →
  c ∈ summary <$> aggregate self events →
  c ∈ summary <$> aggregate self events'.
Proof.
  intros Hperm. rewrite !elem_of_summaries. intros (k & Hne & -> & Hkeep).
  assert (hits self k events ≡ₚ hits self k events') as Hhits.
  { unfold ActionAggregatorFacts.hits. by rewrite Hperm. }
  assert (summary (folded self k events) = summary (folded self k events'))
    as Hsum by by apply summary_registers_perm.
  exists k. split_and!.
  - intros Hnil. rewrite Hnil in Hhits. by apply Permutation_nil_r in Hhits.
  - done.
  - by rewrite <- (keeps_summary self _ _ Hsum).
Qed.

(** X4.  Permuting the events changes nothing in the result except, possibly,
    the order inside the resource list of a record: the records come in
    the same order with the same key, count, last-seen time and set of
    resources. *)
Theorem aggregate_arrival_order (self : t) (events events' : list EventModel.t) :
  events ≡ₚ events' →
  summary <$> aggregate self events = summary <$> aggregate self events'.
Proof.
  intros Hperm.
  set (R := λ c1 c2 : key * Z * option Z * gset string, py_le c1.1.1.1 c2.1.1.1).
  assert (Hsorted : ∀ es, Sorted R (summary <$> aggregate self es)).
  { intros es. apply (Sorted_fmap _ (key_le sort_key)); [by intros ???|].
    apply StronglySorted_Sorted, aggregate_sorted. }
  assert (Hkeys : ∀ es, NoDup ((λ c, c.1.1.1) <$> (summary <$> aggregate self es))).
  { intros es. rewrite <- list_fmap_compose. apply aggregate_keys_NoDup. }
  assert (Htrans : Transitive R).
  { intros c1 c2 c3. unfold R. apply (transitivity (R:=py_le)). }
  apply (Sorted_unique_strong R); [|apply Hsorted..|].
  - intros c1 c2 Hc1 Hc2 H12 H21.
    apply (summaries_perm_incl self events' events) in Hc2; [|done].
    eapply (NoDup_fmap_eq (λ c, c.1.1.1)); [apply (Hkeys events)|done..|].
    by apply (anti_symm py_le).
  - apply NoDup_Permutation.
    + eapply NoDup_fmap_1, Hkeys.
    + eapply NoDup_fmap_1, Hkeys.
    + intros c. split; by apply summaries_perm_incl.
Qed.

(** *** Conservation of the counts *)

Lemma sum_list_with_pointwise {K} (f g : K → nat) (ks : list K) :
  (∀ k, f k = g k) → sum_list_with f ks = sum_list_with g ks.
Proof. intros Hfg. induction ks as [|k ks IH]; simpl; [done|]. by rewrite Hfg, IH. Qed.

Lemma sum_list_with_zero {K} (ks : list K) :
  sum_list_with (λ _ : K, 0%nat) ks = 0%nat.
Proof. induction ks as [|k ks IH]; simpl; auto. Qed.

Lemma sum_list_with_add {K} (f g : K → nat) (ks : list K) :
  sum_list_with (λ k, f k + g k)%nat ks
  = (sum_list_with f ks + sum_list_with g ks)%nat.
Proof. induction ks as [|k ks IH]; simpl; lia. Qed.

Lemma sum_indicator {K} `{EqDecision K} (k0 : K) (ks : list K) :
  NoDup ks →
  sum_list_with (λ k, if decide (k0 = k) then 1 else 0)%nat ks
  = (if decide (k0 ∈ ks) then 1 else 0)%nat.
Proof.
  induction ks as [|k ks IH]; intros Hnd; [done|].
  apply NoDup_cons in Hnd as [Hk Hnd]. simpl. rewrite IH by done.
  destruct (decide (k0 = k)) as [->|Hne].
  - rewrite decide_False by done.
    by rewrite decide_True by apply list_elem_of_here.
  - destruct (decide (k0 ∈ ks)) as [Hin|Hin].
    + by rewrite decide_True by by apply list_elem_of_further.
    + rewrite decide_False; [done|]. by intros [?|?]%elem_of_cons.
Qed.

(** Events sorted into distinct keys are counted at most once each. *)
Lemma sum_by_key {E K} `{EqDecision K} (P : E → Prop) `{∀ e, Decision (P e)}
    (key_of : E → K) (ks : list K) (l : list E) :
  NoDup ks →
  (sum_list_with (λ k, length (filter (λ e, P e ∧ key_of e = k) l)) ks
   ≤ length (filter P l))%nat
  ∧ ((∀ e, e ∈ l → P e → key_of e ∈ ks) →
     sum_list_with (λ k, length (filter (λ e, P e ∧ key_of e = k) l)) ks
     = length (filter P l)).
Proof.
  intros Hnd. induction l as [|e l [IHle IHeq]].
  - rewrite (sum_list_with_pointwise _ (λ _, 0%nat)) by done.
    rewrite sum_list_with_zero.
    done.
  - rewrite (sum_list_with_pointwise _
               (λ k, ((if decide (P e) then if decide (key_of e = k) then 1 else 0
                       else 0)
                      + length (filter (λ e0, P e0 ∧ key_of e0 = k) l))%nat)).
    2:{ intros k. rewrite filter_cons.
        destruct (decide (P e)), (decide (key_of e = k)).
        - by rewrite decide_True.
        - by rewrite decide_False by (intros [??]; done).
        - by rewrite decide_False by (intros [??]; done).
        - by rewrite decide_False by (intros [??]; done). }
    rewrite sum_list_with_add, filter_cons.
    destruct (decide (P e)) as [HP|HP].
    + rewrite sum_indicator by done. cbn [length]. split.
      * case_decide; lia.
      * intros Hall. rewrite decide_True by (apply (Hall e); [left|done]).
        rewrite IHeq; [done|]. intros e0 He0. apply Hall. by right.
    + rewrite sum_list_with_zero. simpl.
      split; [done|]. intros Hall. apply IHeq. intros e0 He0. apply Hall. by right.
Qed.

(** The total of the counts returned. *)
Definition total_count (records : list ActionRecord.t) : Z :=
  foldr (λ rec total, ActionRecord.count rec + total) 0 records.

Lemma total_count_hits (self : t) (events : list EventModel.t) :
  total_count (aggregate self events)
  = Z.of_nat
      (sum_list_with (λ k, length (hits self k events))
         (sort_key <$> aggregate self events)).
Proof.
  assert (Hall : Forall (λ rec, ActionRecord.count rec
                                = Z.of_nat (length (hits self (sort_key rec) events)))
                   (aggregate self events)).
  { apply Forall_forall. intros rec (k & _ & -> & _)%elem_of_aggregate.
    by rewrite sort_key_folded, count_folded. }
  induction Hall as [|rec l Hrec _ IH]; [done|].
  rewrite fmap_cons. cbn [total_count foldr sum_list_with].
  fold (total_count l). rewrite IH, Hrec. lia.
Qed.

(** X5.  No event is counted twice: the counts returned add up to at most the
    number of events that pass the principal filter and the exclude
    patterns; they add up to exactly that number when nothing is dropped
    afterwards (a minimum count of at most one and no allow pattern). *)
Theorem aggregate_counts_conserved (self : t) (events : list EventModel.t) :
  total_count (aggregate self events)
  ≤ Z.of_nat (length (filter (λ event, qualifies self event = true) events))
  ∧ (min_count self ≤ 1 → allow_patterns self = [] →
     allow_principals self = [] → allow_resource_patterns self = [] →
     total_count (aggregate self events)
     = Z.of_nat (length (filter (λ event, qualifies self event = true) events))).
Proof.
  rewrite total_count_hits.
  destruct (sum_by_key (λ event, qualifies self event = true) event_key
              (sort_key <$> aggregate self events) events
              (aggregate_keys_NoDup re_search fnmatch self events)) as [Hle Heq].
  split; [unfold ActionAggregatorFacts.hits; lia|].
  intros Hmin Ha Hp Hr. unfold ActionAggregatorFacts.hits. rewrite Heq; [done|].
  intros e He Hq. apply list_elem_of_fmap.
  exists (folded self (event_key e) events). split.
  { by rewrite sort_key_folded. }
  assert (hits self (event_key e) events ≠ []) as Hhits.
  { intros Hnil. assert (e ∈ hits self (event_key e) events) as Hin
      by by apply elem_of_hits.
    rewrite Hnil in Hin. by apply elem_of_nil in Hin. }
  apply elem_of_aggregate. exists (event_key e). split_and!; [done..|].
  unfold ActionAggregator.keeps, _is_allowlisted. rewrite Ha, Hp, Hr. simpl.
  rewrite andb_true_r. apply bool_decide_eq_true.
  pose proof (folded_count_pos re_search fnmatch self _ events Hhits). lia.
Qed.

End WithLibraries.

End AggregateInvariants.

(** ** Pattern arguments of the aggregator's constructor *)

Module PatternArguments.

Import ActionAggregator.

Lemma append_assoc (s1 s2 s3 : string) : (s1 +:+ s2) +:+ s3 = s1 +:+ (s2 +:+ s3).
Proof.
  induction s1 as [|a s1 IH]; [done|].
  change ((String a s1 +:+ s2) +:+ s3) with (String a ((s1 +:+ s2) +:+ s3)).
  by rewrite IH.
Qed.

Lemma append_nil_r (s : string) : s +:+ "" = s.
Proof.
  induction s as [|a s IH]; [done|].
  change (String a s +:+ "") with (String a (s +:+ "")). by rewrite IH.
Qed.

Lemma rev_app_append (s1 s2 : string) :
  String.rev_app s1 s2 = String.rev s1 +:+ s2.
Proof.
  unfold String.rev. revert s2. induction s1 as [|a s1 IH]; intros s2; [done|].
  cbn [String.rev_app]. rewrite (IH (String a s2)), (IH (String a "")).
  by rewrite append_assoc.
Qed.

Lemma rev_cons (a : ascii) (s : string) :
  String.rev (String a s) = String.rev s +:+ String a "".
Proof. unfold String.rev at 1. cbn [String.rev_app]. apply rev_app_append. Qed.

Lemma rev_append (s1 s2 : string) :
  String.rev (s1 +:+ s2) = String.rev s2 +:+ String.rev s1.
Proof.
  induction s1 as [|a s1 IH]; [by rewrite append_nil_r|].
  change (String a s1 +:+ s2) with (String a (s1 +:+ s2)).
  by rewrite !rev_cons, IH, append_assoc.
Qed.

Lemma rev_involutive (s : string) : String.rev (String.rev s) = s.
Proof.
  induction s as [|a s IH]; [done|].
  by rewrite rev_cons, rev_append, IH.
Qed.

(** No whitespace in front. *)
Definition clean (s : string) : Prop :=
  match s with
  | EmptyString => True
  | String c _ => PyStr.is_space c = false
  end.

Lemma lstrip_clean (s : string) : clean (PyStr.lstrip s).
Proof.
  induction s as [|c s IH]; [done|]. cbn [PyStr.lstrip].
  by destruct (PyStr.is_space c) eqn:Hc.
Qed.

Lemma lstrip_fixed (s : string) : clean s → PyStr.lstrip s = s.
Proof. destruct s as [|c s]; [done|]. simpl. by intros ->. Qed.

Lemma lstrip_suffix (s : string) : ∃ w, s = w +:+ PyStr.lstrip s.
Proof.
  induction s as [|c s [w Hw]]; [by exists ""|]. cbn [PyStr.lstrip].
  destruct (PyStr.is_space c).
  - exists (String c w). change (String c w +:+ PyStr.lstrip s)
      with (String c (w +:+ PyStr.lstrip s)). by rewrite <- Hw.
  - by exists "".
Qed.

Lemma clean_prefix (s1 s2 : string) : clean (s1 +:+ s2) → clean s1.
Proof. by destruct s1. Qed.

Lemma strip_clean (s : string) :
  clean (PyStr.strip s) ∧ clean (String.rev (PyStr.strip s)).
Proof.
  unfold PyStr.strip. rewrite rev_involutive. split; [|apply lstrip_clean].
  destruct (lstrip_suffix (String.rev (PyStr.lstrip s))) as [w Hw].
  apply (f_equal String.rev) in Hw. rewrite rev_involutive, rev_append in Hw.
  apply (clean_prefix _ (String.rev w)). rewrite <- Hw. apply lstrip_clean.
Qed.

Lemma strip_fixed (s : string) :
  clean s → clean (String.rev s) → PyStr.strip s = s.
Proof.
  intros Hl Hr. unfold PyStr.strip.
  by rewrite (lstrip_fixed s), (lstrip_fixed (String.rev s)), rev_involutive.
Qed.

Lemma strip_idempotent (s : string) : PyStr.strip (PyStr.strip s) = PyStr.strip s.
Proof. apply strip_fixed; apply strip_clean. Qed.

(** A string holds the separator nowhere. *)
Definition free_of (c : ascii) (s : string) : Prop :=
  PyStr.contains_char c s = false.

Lemma free_of_append (c : ascii) (s1 s2 : string) :
  free_of c (s1 +:+ s2) ↔ free_of c s1 ∧ free_of c s2.
Proof.
  unfold free_of. induction s1 as [|a s1 IH]; [by intuition|].
  change (String a s1 +:+ s2) with (String a (s1 +:+ s2)).
  cbn [PyStr.contains_char]. case_decide; [by intuition|done].
Qed.

Lemma free_of_rev (c : ascii) (s : string) : free_of c (String.rev s) ↔ free_of c s.
Proof.
  induction s as [|a s IH]; [done|].
  rewrite rev_cons, free_of_append, IH. unfold free_of.
  cbn [PyStr.contains_char]. case_decide; by intuition.
Qed.

Lemma free_of_lstrip (c : ascii) (s : string) :
  free_of c s → free_of c (PyStr.lstrip s).
Proof.
  destruct (lstrip_suffix s) as [w Hw]. rewrite Hw at 1.
  rewrite free_of_append. tauto.
Qed.

Lemma free_of_strip (c : ascii) (s : string) :
  free_of c s → free_of c (PyStr.strip s).
Proof.
  intros Hs. unfold PyStr.strip.
  by apply free_of_rev, free_of_lstrip, free_of_rev, free_of_lstrip.
Qed.

Lemma split_free (sep : ascii) (s : string) :
  PyStr.split sep s ≠ [] ∧ Forall (free_of sep) (PyStr.split sep s).
Proof.
  induction s as [|c s [IHne IH]]; [by repeat constructor|].
  cbn [PyStr.split]. case_decide as Hc.
  - split; [done|]. by constructor.
  - destruct (PyStr.split sep s) as [|w ws]; [done|].
    apply Forall_cons in IH as [Hw Hws]. split; [done|]. constructor; [|done].
    unfold free_of in *. cbn [PyStr.contains_char]. by rewrite decide_False.
Qed.

Lemma parsed_patterns_clean (s : string) :
  Forall (λ pattern,
            pattern ≠ "" ∧ PyStr.strip pattern = pattern
            ∧ PyStr.contains_char ","%char pattern = false)
    (parse_patterns (ArgStr s)).
Proof.
  cbn [parse_patterns]. apply Forall_fmap, Forall_forall.
  intros piece [Hne Hin]%list_elem_of_filter. simpl. split_and!.
  - done.
  - apply strip_idempotent.
  - apply free_of_strip.
    by apply (proj1 (Forall_forall _ _) (proj2 (split_free ","%char s))).
Qed.

(** X6.  Whatever string is passed for a pattern argument, no pattern read
    from it is empty, carries whitespace at either end, or holds a comma;
    a list argument is taken as it is. *)
Theorem parse_patterns_clean (s : string) :
  Forall (λ pattern,
            pattern ≠ "" ∧ PyStr.strip pattern = pattern
            ∧ PyStr.contains_char ","%char pattern = false)
    (parse_patterns (ArgStr s))
  ∧ (∀ patterns, parse_patterns (ArgList patterns) = patterns)
  ∧ parse_patterns ArgNone = [].
Proof. split; [apply parsed_patterns_clean|done]. Qed.





End PatternArguments.

(** ** Resource inference *)

Module InferenceFacts.

Import ArnRuleRegistry.

Lemma or_star_nonempty (arns : ArnSet) : or_star arns ≠ ∅.
Proof. unfold or_star. case_decide; set_solver. Qed.

Lemma elem_of_or_star (arn : string) (arns : ArnSet) :
  arn ∈ or_star arns ↔ arn ∈ arns ∨ (arn = "*" ∧ arns = ∅).
Proof. unfold or_star. case_decide; set_solver. Qed.

Lemma or_star_fixed (arns : ArnSet) : arns ≠ ∅ → or_star arns = arns.
Proof. unfold or_star. by case_decide. Qed.

Lemma elem_of_candidates (event : EventModel.t) (extractors : list Extractor)
    (candidates : ArnSet) (arn : string) :
  arn ∈ foldl (λ candidates extractor, candidates ∪ extractor event)
          candidates extractors
  ↔ arn ∈ candidates ∨ ∃ extractor, extractor ∈ extractors ∧ arn ∈ extractor event.
Proof.
  revert candidates. induction extractors as [|extractor extractors IH];
    intros candidates; cbn [foldl].
  - split; [by left|]. intros [?|(? & []%elem_of_nil & _)]. done.
  - rewrite IH, elem_of_union. split.
    + intros [[?|?]|(e & ? & ?)]; [by left|right..].
      * exists extractor. split; [apply list_elem_of_here|done].
      * exists e. split; [by apply list_elem_of_further|done].
    + intros [?|(e & [->|?]%elem_of_cons & ?)]; [by left; left|by left; right|].
      right. by exists e.
Qed.

Lemma candidates_empty (event : EventModel.t) (extractors : list Extractor) :
  foldl (λ candidates extractor, candidates ∪ extractor event) ∅ extractors = ∅
  ↔ Forall (λ extractor, extractor event = ∅) extractors.
Proof.
  rewrite Forall_forall. split.
  - intros Hempty extractor Hin. apply set_eq. intros arn. split; [|set_solver].
    intros Harn. rewrite <- Hempty. apply elem_of_candidates. right. by exists extractor.
  - intros Hall. apply set_eq. intros arn. rewrite elem_of_candidates.
    split; [|set_solver]. intros [?|(e & He & Harn)]; [done|].
    by rewrite (Hall e He) in Harn.
Qed.

(** The extractors on file for the service of an event *)
Definition rules_for (self : t) (event : EventModel.t) : list Extractor :=
  default [] (service_rules self !! EventModel.aws_service event).

Lemma infer_unfold (self : t) (event : EventModel.t) :
  infer self event
  = or_star (foldl (λ candidates extractor, candidates ∪ extractor event)
               ∅ (rules_for self event)).
Proof.
  unfold infer, rules_for. by destruct (default [] _).
Qed.

(** X8.  Inference never returns the empty set.  It returns what the
    extractors registered for the event's service return, taken together,
    and the wildcard alone when they return nothing or when there is no
    extractor for the service. *)
Theorem infer_never_empty (self : t) (event : EventModel.t) :
  infer self event ≠ ∅
  ∧ ∀ arn,
      arn ∈ infer self event
      ↔ (∃ extractor,
           extractor ∈ default [] (service_rules self !! EventModel.aws_service event)
           ∧ arn ∈ extractor event)
        ∨ (arn = "*"
           ∧ Forall (λ extractor : Extractor, extractor event = ∅)
               (default [] (service_rules self !! EventModel.aws_service event))).
Proof.
  rewrite infer_unfold. split; [apply or_star_nonempty|]. intros arn.
  rewrite elem_of_or_star, elem_of_candidates, candidates_empty.
  unfold rules_for. set_solver.
Qed.

Lemma rules_for_register (self : t) (service : string) (extractor : Extractor)
    (event : EventModel.t) :
  rules_for (register self service extractor) event
  = if decide (EventModel.aws_service event = service)
    then (rules_for self event ++ [extractor])%list
    else rules_for self event.
Proof.
  unfold rules_for, register. cbn [service_rules]. case_decide as Hs.
  - subst service. by rewrite lookup_insert_eq.
  - by rewrite lookup_insert_ne.
Qed.

(** X9.  Registering an extractor changes nothing for the events of other
    services.  For an event of its service the extractor's output is added
    to what was inferred before, except that a wildcard that stood for "no
    extractor returned anything" gives way to it.  The order of two
    registrations is immaterial to what is inferred. *)
Theorem register_then_infer (self : t) (service : string) (extractor : Extractor)
    (event : EventModel.t) :
  (EventModel.aws_service event ≠ service →
   infer (register self service extractor) event = infer self event)
  ∧ (EventModel.aws_service event = service →
     infer (register self service extractor) event
     = if decide (Forall (λ extractor : Extractor, extractor event = ∅)
                    (default [] (service_rules self !! service)))
       then or_star (extractor event)
       else infer self event ∪ extractor event)
  ∧ (∀ service' extractor',
       infer (register (register self service extractor) service' extractor') event
       = infer (register (register self service' extractor') service extractor) event).
Proof.
  split_and!.
  - intros Hs. by rewrite !infer_unfold, rules_for_register, decide_False.
  - intros Hs. rewrite !infer_unfold, rules_for_register, decide_True by done.
    rewrite foldl_app. cbn [foldl]. subst service. fold (rules_for self event).
    case_decide as Hall.
    + apply candidates_empty in Hall. rewrite Hall. by rewrite (left_id_L ∅ (∪)).
    + rewrite <- candidates_empty in Hall. rewrite (or_star_fixed _ Hall).
      apply or_star_fixed. set_solver.
  - intros service' extractor'. rewrite !infer_unfold. f_equal.
    apply set_eq. intros arn. rewrite !elem_of_candidates.
    rewrite !rules_for_register.
    repeat case_decide; repeat setoid_rewrite elem_of_app;
      repeat setoid_rewrite list_elem_of_singleton; naive_solver.
Qed.

(** *** The default registry *)

Lemma default_rules :
  service_rules (make ∅)
  = list_to_map
      [ ("s3", [infer_s3_arn]); ("dynamodb", [infer_dynamodb_arn]);
        ("lambda", [infer_lambda_arn]); ("sqs", [infer_sqs_arn]);
        ("sns", [infer_sns_arn]); ("kms", [infer_kms_arn]);
        ("secretsmanager", [infer_secretsmanager_arn]);
        ("ssm", [infer_ssmparam_arn]); ("ec2", [infer_ec2_arn]) ].
Proof. reflexivity. Qed.

(** The extractor the default registry applies to a service *)
Definition default_extractor (service : string) : Extractor :=
  if decide (service = "s3") then infer_s3_arn
  else if decide (service = "dynamodb") then infer_dynamodb_arn
  else if decide (service = "lambda") then infer_lambda_arn
  else if decide (service = "sqs") then infer_sqs_arn
  else if decide (service = "sns") then infer_sns_arn
  else if decide (service = "kms") then infer_kms_arn
  else if decide (service = "secretsmanager") then infer_secretsmanager_arn
  else if decide (service = "ssm") then infer_ssmparam_arn
  else if decide (service = "ec2") then infer_ec2_arn
  else _default_fallback.

Lemma default_rules_for (event : EventModel.t) :
  rules_for (make ∅) event
  = if decide (EventModel.aws_service event
               ∈ ["s3"; "dynamodb"; "lambda"; "sqs"; "sns"; "kms";
                  "secretsmanager"; "ssm"; "ec2"])
    then [default_extractor (EventModel.aws_service event)]
    else [].
Proof.
  unfold rules_for. rewrite default_rules. unfold default_extractor.
  generalize (EventModel.aws_service event). intros service.
  cbn [list_to_map foldr fst snd uncurry].
  rewrite !lookup_insert, lookup_empty.
  repeat case_decide; simplify_eq; try reflexivity; exfalso; set_solver.
Qed.

Lemma default_extractor_nonempty (service : string) (event : EventModel.t) :
  default_extractor service event ≠ ∅.
Proof.
  unfold default_extractor. repeat case_decide;
    try apply or_star_nonempty.
  - unfold infer_dynamodb_arn. destruct (PyStr.truthy _);
      [set_solver|apply or_star_nonempty].
  - unfold infer_lambda_arn. destruct (PyStr.truthy _);
      [set_solver|apply or_star_nonempty].
  - unfold _default_fallback. set_solver.
Qed.

Lemma default_registry_infer (event : EventModel.t) :
  infer (make ∅) event = default_extractor (EventModel.aws_service event) event.
Proof.
  rewrite infer_unfold, default_rules_for. case_decide as Hs.
  - cbn [foldl]. rewrite (left_id_L ∅ (∪)).
    apply or_star_fixed, default_extractor_nonempty.
  - cbn [foldl]. unfold default_extractor.
    repeat (case_decide as Hc; [exfalso; apply Hs; rewrite Hc; set_solver|clear Hc]).
    done.
Qed.

(** X10.  The default registry applies to an event the one extractor of the
    event's service, for the nine services it knows, and returns that
    extractor's result as it is; for any other service it returns the
    wildcard. *)
Theorem default_registry_dispatch (event : EventModel.t) :
  infer (make ∅) event = default_extractor (EventModel.aws_service event) event
  ∧ (EventModel.aws_service event
       ∉ ["s3"; "dynamodb"; "lambda"; "sqs"; "sns"; "kms";
          "secretsmanager"; "ssm"; "ec2"] →
     infer (make ∅) event = {[ "*" ]}).
Proof.
  split; [apply default_registry_infer|]. intros Hs.
  rewrite default_registry_infer. unfold default_extractor.
  repeat (case_decide as Hc; [exfalso; apply Hs; rewrite Hc; set_solver|clear Hc]).
  done.
Qed.

Lemma observed_kept (observed : list string) (arns : ArnSet) (arn : string) :
  list_to_set observed ⊆ arns → arn ∈ observed → arn ∈ or_star arns.
Proof.
  intros Hsub Hin. apply elem_of_or_star. left. apply Hsub.
  by apply elem_of_list_to_set.
Qed.

Lemma default_extractor_keeps (service : string) (event : EventModel.t)
    (arn : string) :
  service ∈ ["s3"; "sqs"; "sns"; "kms"; "secretsmanager"; "ssm"; "ec2"] →
  arn ∈ EventModel.resource_arns event →
  arn ∈ default_extractor service event.
Proof.
  intros Hs Harn.
  repeat (apply elem_of_cons in Hs as [-> | Hs]);
    try (by apply elem_of_nil in Hs).
  - change (arn ∈ infer_s3_arn event).
    unfold infer_s3_arn. eapply observed_kept; [|done]. set_solver.
  - change (arn ∈ infer_sqs_arn event).
    unfold infer_sqs_arn. eapply observed_kept; [|done].
    match goal with |- _ ⊆ (if ?b then _ else _) => destruct b end; set_solver.
  - change (arn ∈ infer_sns_arn event).
    unfold infer_sns_arn. eapply observed_kept; [|done].
    repeat destruct (PyStr.truthy _); set_solver.
  - change (arn ∈ infer_kms_arn event).
    unfold infer_kms_arn. eapply observed_kept; [|done].
    repeat destruct (PyStr.truthy _); set_solver.
  - change (arn ∈ infer_secretsmanager_arn event).
    unfold infer_secretsmanager_arn. eapply observed_kept; [|done].
    destruct (PyStr.truthy _); [destruct (PyStr.startswith _ _)|]; set_solver.
  - change (arn ∈ infer_ssmparam_arn event).
    unfold infer_ssmparam_arn. eapply observed_kept; [|done].
    destruct (PyStr.truthy _); set_solver.
  - change (arn ∈ infer_ec2_arn event).
    unfold infer_ec2_arn. eapply observed_kept; [|done].
    destruct (PyStr.truthy _); set_solver.
Qed.

(** X11.  Seven of the default extractors add what they build to the resources
    the event lists, so every listed resource is inferred.  The extractors
    of dynamodb and lambda return the one ARN they build from the table or
    function name whenever the request carries it, whatever the event
    lists. *)
Theorem default_inference_and_listed_resources (event : EventModel.t) :
  (EventModel.aws_service event
     ∈ ["s3"; "sqs"; "sns"; "kms"; "secretsmanager"; "ssm"; "ec2"] →
   ∀ arn, arn ∈ EventModel.resource_arns event → arn ∈ infer (make ∅) event)
  ∧ (EventModel.aws_service event = "dynamodb" →
     PyStr.truthy (param2 event "tableName" "TableName") = true →
     infer (make ∅) event
     = {[ scoped_arn "dynamodb" event
            ("table/" +:+ text (param2 event "tableName" "TableName")) ]})
  ∧ (EventModel.aws_service event = "lambda" →
     PyStr.truthy
       (PyStr.py_or (param2 event "functionName" "FunctionName")
          (EventModel.request_parameters event !! "Function")) = true →
     infer (make ∅) event
     = {[ scoped_arn "lambda" event
            ("function:"
             +:+ text (PyStr.py_or (param2 event "functionName" "FunctionName")
                         (EventModel.request_parameters event !! "Function"))) ]}).
Proof.
  rewrite default_registry_infer. split_and!.
  - intros Hs arn Harn. by apply default_extractor_keeps.
  - intros -> Htable. change (default_extractor "dynamodb") with infer_dynamodb_arn.
    unfold infer_dynamodb_arn. by rewrite Htable.
  - intros -> Hfunction. change (default_extractor "lambda") with infer_lambda_arn.
    unfold infer_lambda_arn. by rewrite Hfunction.
Qed.

Lemma built_arn_not_star (rest : string) : "arn:aws:" +:+ rest ≠ "*".
Proof. done. Qed.

Lemma scoped_arn_not_star (service : string) (event : EventModel.t) (tail : string) :
  scoped_arn service event tail ≠ "*".
Proof. done. Qed.

Lemma or_star_wildcard (arns : ArnSet) :
  "*" ∉ arns → "*" ∈ or_star arns → or_star arns = {[ "*" ]}.
Proof. by intros Hnot [Hin|[_ ->]]%elem_of_or_star. Qed.

Lemma not_elem_of_observed (observed : list string) (built : string) :
  "*" ∉ observed → built ≠ "*" →
  "*" ∉ (list_to_set observed ∪ {[ built ]} : ArnSet).
Proof. rewrite not_elem_of_union, elem_of_list_to_set. set_solver. Qed.

Lemma not_elem_of_observed_only (observed : list string) :
  "*" ∉ observed → "*" ∉ (list_to_set observed : ArnSet).
Proof. by rewrite elem_of_list_to_set. Qed.

Lemma default_extractor_wildcard (service : string) (event : EventModel.t) :
  service ∉ ["sns"; "kms"] →
  "*" ∉ EventModel.resource_arns event →
  "*" ∈ default_extractor service event →
  default_extractor service event = {[ "*" ]}.
Proof.
  intros Hs Hres. unfold default_extractor. repeat case_decide.
  - unfold infer_s3_arn. apply or_star_wildcard.
    rewrite not_elem_of_union, elem_of_list_to_set. split; [|done].
    repeat destruct (PyStr.truthy _);
      rewrite ?not_elem_of_union, ?not_elem_of_singleton;
      repeat split; try done; set_solver.
  - unfold infer_dynamodb_arn. destruct (PyStr.truthy _).
    + intros Hin%elem_of_singleton. symmetry in Hin.
      by apply scoped_arn_not_star in Hin.
    + by apply or_star_wildcard, not_elem_of_observed_only.
  - unfold infer_lambda_arn. destruct (PyStr.truthy _).
    + intros Hin%elem_of_singleton. symmetry in Hin.
      by apply scoped_arn_not_star in Hin.
    + by apply or_star_wildcard, not_elem_of_observed_only.
  - unfold infer_sqs_arn. apply or_star_wildcard.
    match goal with |- _ ∉ (if ?b then _ else _) => destruct b end.
    + apply not_elem_of_observed; [done|apply scoped_arn_not_star].
    + by apply not_elem_of_observed_only.
  - exfalso. apply Hs. subst service. set_solver.
  - exfalso. apply Hs. subst service. set_solver.
  - unfold infer_secretsmanager_arn. apply or_star_wildcard.
    destruct (PyStr.truthy _); [|by apply not_elem_of_observed_only].
    destruct (PyStr.startswith _ _) eqn:Hstarts.
    + apply not_elem_of_observed; [done|]. intros Heq. by rewrite Heq in Hstarts.
    + apply not_elem_of_observed; [done|apply scoped_arn_not_star].
  - unfold infer_ssmparam_arn. apply or_star_wildcard.
    destruct (PyStr.truthy _); [|by apply not_elem_of_observed_only].
    apply not_elem_of_observed; [done|apply scoped_arn_not_star].
  - unfold infer_ec2_arn. apply or_star_wildcard.
    destruct (PyStr.truthy _); [|by apply not_elem_of_observed_only].
    apply not_elem_of_observed; [done|apply scoped_arn_not_star].
  - done.
Qed.

(** X12.  Where the default registry yields the wildcard, it yields the wildcard
    alone, as the last resort: for every service other than sns and kms
    (whose extractors pass a request parameter through as it is), and
    unless the event itself lists the wildcard among its resources. *)
Theorem wildcard_is_last_resort (event : EventModel.t) :
  EventModel.aws_service event ∉ ["sns"; "kms"] →
  "*" ∉ EventModel.resource_arns event →
  "*" ∉ infer (make ∅) event ∨ infer (make ∅) event = {[ "*" ]}.
Proof.
  intros Hs Hres. rewrite default_registry_infer.
  destruct (decide ("*" ∈ default_extractor (EventModel.aws_service event) event));
    [right|by left].
  by apply default_extractor_wildcard.
Qed.

End InferenceFacts.
(** ** Statements composed by the policy generator *)

Module StatementFacts.

Import PyOrder PyOrderFacts ConditionReducer PolicyGenerator.

(** What [_determine_resources] returns, in closed form. *)
Lemma determine_resources_closed (self : t) (record : ActionRecord.t) :
  _determine_resources self record
  = match ActionRecord.resources record with
    | [] => ["*"]
    | observed => sorted_set (list_to_set observed)
    end.
Proof.
  destruct (ActionRecord.resources record) as [|resource observed] eqn:Hres.
  - by apply PolicyGeneratorFacts.determine_resources_unobserved.
  - unfold _determine_resources. rewrite Hres.
    destruct (sorted_set (list_to_set (resource :: observed))) as [|r rs] eqn:Hs;
      [|done].
    assert (Hin : resource ∈ sorted_set (list_to_set (resource :: observed)))
      by (apply elem_of_sorted_set; set_solver).
    rewrite Hs in Hin. by apply elem_of_nil in Hin.
Qed.

Lemma determine_resources_wellformed (self : t) (record : ActionRecord.t) :
  _determine_resources self record ≠ []
  ∧ NoDup (_determine_resources self record)
  ∧ ∀ resource,
      resource ∈ _determine_resources self record
      ↔ resource ∈ ActionRecord.resources record
        ∨ (resource = "*" ∧ ActionRecord.resources record = []).
Proof.
  rewrite determine_resources_closed.
  destruct (ActionRecord.resources record) as [|r observed].
  - split_and!; [done|apply NoDup_singleton|]. intros resource.
    rewrite list_elem_of_singleton. split; [by right|]. intros [[]%elem_of_nil|[? _]].
    done.
  - split_and!.
    + intros Hnil.
      assert (Hin : r ∈ sorted_set (list_to_set (r :: observed)))
        by (apply elem_of_sorted_set; set_solver).
      rewrite Hnil in Hin. by apply elem_of_nil in Hin.
    + apply sorted_set_NoDup.
    + intros resource. rewrite elem_of_sorted_set, elem_of_list_to_set.
      split; [by left|]. by intros [?|[_ ?]].
Qed.

Section WithJson.
Variable json_dumps : gmap string value → string.

Local Abbreviation condition_key := (PolicyGenerator.condition_key json_dumps).
Local Abbreviation key_of := (PolicyGenerator.key_of json_dumps).
Local Abbreviation group_record := (PolicyGenerator.group_record json_dumps).
Local Abbreviation _compose_statements :=
  (PolicyGenerator._compose_statements json_dumps).
Local Abbreviation build := (PolicyGenerator.build json_dumps).
Local Abbreviation group_record_grouped :=
  (PolicyGeneratorFacts.group_record_grouped json_dumps).
Local Abbreviation group_record_conditions :=
  (PolicyGeneratorFacts.group_record_conditions json_dumps).

(** *** The grouping loop *)

Lemma grouped_is_Some (self : t) (records : list ActionRecord.t)
    (st : gmap group_key (gset string) * gmap group_key (gmap string value))
    (k : group_key) :
  is_Some ((fold_left (group_record self) records st).1 !! k)
  ↔ is_Some (st.1 !! k) ∨ ∃ record, record ∈ records ∧ key_of self record = k.
Proof.
  revert st. induction records as [|r records IH]; intros st; cbn [fold_left].
  - split; [by left|]. intros [?|(? & []%elem_of_nil & _)]. done.
  - rewrite IH, group_record_grouped. case_decide as Hk.
    + split; [|by eauto]. intros _. right. exists r. split; [apply list_elem_of_here|done].
    + split.
      * intros [?|(r' & ? & ?)]; [by left|]. right. exists r'.
        split; [by apply list_elem_of_further|done].
      * intros [?|(r' & [->|?]%elem_of_cons & ?)]; [by left|done|].
        right. by exists r'.
Qed.

Lemma elem_of_grouped (self : t) (records : list ActionRecord.t)
    (st : gmap group_key (gset string) * gmap group_key (gmap string value))
    (k : group_key) (a : string) :
  a ∈ default ∅ ((fold_left (group_record self) records st).1 !! k)
  ↔ a ∈ default ∅ (st.1 !! k)
    ∨ ∃ record, record ∈ records ∧ key_of self record = k
                ∧ ActionRecord.action record = a.
Proof.
  revert st. induction records as [|r records IH]; intros st; cbn [fold_left].
  - split; [by left|]. intros [?|(? & []%elem_of_nil & _)]. done.
  - rewrite IH, group_record_grouped. case_decide as Hk.
    + cbn [default from_option id]. rewrite elem_of_union, elem_of_singleton. split.
      * intros [[?| ->]|(r' & ? & ? & ?)]; [by left|right..].
        -- exists r. split; [apply list_elem_of_here|done].
        -- exists r'. split; [by apply list_elem_of_further|done].
      * intros [?|(r' & [->|?]%elem_of_cons & ? & ?)];
          [by left; left|by left; right|].
        right. by exists r'.
    + split.
      * intros [?|(r' & ? & ?)]; [by left|]. right. exists r'.
        split; [by apply list_elem_of_further|done].
      * intros [?|(r' & [->|?]%elem_of_cons & ? & ?)]; [by left|done|].
        right. by exists r'.
Qed.

Lemma grouped_conditions (self : t) (records : list ActionRecord.t)
    (st : gmap group_key (gset string) * gmap group_key (gmap string value))
    (k : group_key) (d : gmap string value) :
  (fold_left (group_record self) records st).2 !! k = Some d →
  st.2 !! k = Some d
  ∨ ∃ record, record ∈ records ∧ key_of self record = k
              ∧ merge (ActionRecord.conditions record) = d.
Proof.
  revert st. induction records as [|r records IH]; intros st; cbn [fold_left];
    [by left|].
  intros [Hd|(r' & ? & ? & ?)]%IH.
  - rewrite group_record_conditions in Hd. case_decide as Hk; [|by left].
    destruct (st.1 !! k); [by left|]. injection Hd as <-.
    right. exists r. split; [apply list_elem_of_here|done].
  - right. exists r'. split; [by apply list_elem_of_further|done].
Qed.

(** *** The emitting loop *)

(** A statement made from one entry of [grouped] *)
Definition made_from (conditions_map : gmap group_key (gmap string value))
    (item : group_key * gset string) (statement : PolicyStatement.t) : Prop :=
  PolicyStatement.effect statement = "Allow"
  ∧ PolicyStatement.actions statement = sorted_set item.2
  ∧ PolicyStatement.resources statement = item.1.1.2
  ∧ PolicyStatement.conditions statement = default ∅ (conditions_map !! item.1)
  ∧ ∃ counter, PolicyStatement.sid statement = Some (_build_sid item.1.1.1 counter).

Lemma emit_statements_shape
    (conditions_map : gmap group_key (gmap string value))
    (items : list (group_key * gset string))
    (st : gmap string Z * list PolicyStatement.t) :
  ∃ statements,
    (fold_left (emit_statement conditions_map) items st).2 = (st.2 ++ statements)%list
    ∧ Forall2 (made_from conditions_map) items statements.
Proof.
  revert st. induction items as [|[[[service resources] ck] actions] items IH];
    intros st; cbn [fold_left].
  - exists []. by rewrite app_nil_r.
  - destruct (IH (emit_statement conditions_map st
                    (service, resources, ck, actions))) as (rest & Heq & Hall).
    eexists (_ :: rest). split.
    + etrans; [exact Heq|]. unfold emit_statement. cbn [fst snd].
      rewrite <- app_assoc. reflexivity.
    + constructor; [|done]. unfold made_from. cbn [fst snd].
      split_and!; try reflexivity. by eexists.
Qed.

Lemma compose_statements_shape (self : t) (records : list ActionRecord.t) :
  let st := fold_left (group_record self) records (∅, ∅) in
  Forall2 (made_from st.2) (py_sorted_by fst (map_to_list st.1))
    (_compose_statements self records).
Proof.
  cbv zeta. unfold PolicyGenerator._compose_statements.
  destruct (fold_left _ records _) as [grouped conditions_map]. cbn [fst snd].
  destruct (emit_statements_shape conditions_map
              (py_sorted_by fst (map_to_list grouped)) (∅, []))
    as (statements & -> & Hall).
  done.
Qed.

Lemma Forall2_elem_of_l {A B} (P : A → B → Prop) (l : list A) (k : list B) (x : A) :
  Forall2 P l k → x ∈ l → ∃ y, y ∈ k ∧ P x y.
Proof.
  induction 1 as [|x' y' l k Hxy _ IH]; [by intros ?%elem_of_nil|].
  intros [->|Hx]%elem_of_cons.
  - exists y'. split; [apply list_elem_of_here|done].
  - destruct (IH Hx) as (y & ? & ?). exists y.
    split; [by apply list_elem_of_further|done].
Qed.

Lemma Forall2_elem_of_r {A B} (P : A → B → Prop) (l : list A) (k : list B) (y : B) :
  Forall2 P l k → y ∈ k → ∃ x, x ∈ l ∧ P x y.
Proof.
  induction 1 as [|x' y' l k Hxy _ IH]; [by intros ?%elem_of_nil|].
  intros [->|Hy]%elem_of_cons.
  - exists x'. split; [apply list_elem_of_here|done].
  - destruct (IH Hy) as (x & ? & ?). exists x.
    split; [by apply list_elem_of_further|done].
Qed.

(** What the two dictionaries hold for a key after the grouping loop. *)
Lemma group_facts (self : t) (records : list ActionRecord.t) (k : group_key)
    (actions : gset string) :
  let st := fold_left (group_record self) records (∅, ∅) in
  st.1 !! k = Some actions →
  (∀ a, a ∈ actions
        ↔ ∃ record, record ∈ records ∧ key_of self record = k
                    ∧ ActionRecord.action record = a)
  ∧ (∃ record, record ∈ records ∧ key_of self record = k)
  ∧ condition_key (default ∅ (st.2 !! k)) = k.2.
Proof.
  cbv zeta. intros Hk. split_and!.
  - intros a. pose proof (elem_of_grouped self records (∅, ∅) k a) as Ha.
    rewrite Hk in Ha. cbn [fst default from_option id] in Ha.
    rewrite lookup_empty in Ha. cbn [from_option] in Ha. rewrite Ha.
    split; [|by right]. intros [[]%elem_of_empty|?]. done.
  - pose proof (proj1 (grouped_is_Some self records (∅, ∅) k)) as Hs.
    rewrite Hk in Hs. destruct Hs as [[? Hs]|?]; [by eexists| |done].
    cbn [fst] in Hs. by rewrite lookup_empty in Hs.
  - pose proof (PolicyGeneratorFacts.grouping_same_keys json_dumps self records k)
      as Hsame. cbv zeta in Hsame. rewrite Hk in Hsame.
    destruct (proj1 Hsame) as [d Hd]; [by eexists|]. rewrite Hd. cbn [default from_option id].
    apply grouped_conditions in Hd as [Hd|(record & _ & <- & <-)].
    + cbn [snd] in Hd. by rewrite lookup_empty in Hd.
    + done.
Qed.

(** Where an action of a composed statement comes from. *)
Lemma composed_action_origin (self : t) (records : list ActionRecord.t)
    (statement : PolicyStatement.t) (a : string) :
  statement ∈ _compose_statements self records →
  a ∈ PolicyStatement.actions statement →
  ∃ record, record ∈ records ∧ ActionRecord.action record = a
            ∧ _determine_resources self record = PolicyStatement.resources statement.
Proof.
  intros Hin Ha.
  pose proof (compose_statements_shape self records) as Hshape. cbv zeta in Hshape.
  destruct (Forall2_elem_of_r _ _ _ _ Hshape Hin)
    as ([k actions] & Hitem & _ & Hactions & Hresources & _).
  apply elem_of_py_sorted_by, elem_of_map_to_list in Hitem.
  destruct (group_facts self records k actions Hitem) as (Hmembers & _ & _).
  cbn [fst snd] in *. rewrite Hactions in Ha.
  apply elem_of_sorted_set, Hmembers in Ha as (record & Hrecord & Hk & Haction).
  exists record. split_and!; [done..|]. by rewrite Hresources, <- Hk.
Qed.

(** X13.  Every statement composed by the generator allows something and
    nothing that was not observed: its effect is Allow, its actions are
    sorted, without duplicates and not empty, its resources are not empty,
    and each of its actions is the action of a record given to the
    generator whose resources are the statement's, whose merged conditions
    are written like the statement's and whose service gave the statement
    its id.  Conversely the action of every record is allowed by a
    statement with that record's resources and conditions. *)
Theorem compose_statements_cover (self : t) (records : list ActionRecord.t) :
  Forall (λ statement,
            PolicyStatement.effect statement = "Allow"
            ∧ PolicyStatement.actions statement ≠ []
            ∧ NoDup (PolicyStatement.actions statement)
            ∧ Sorted py_le (PolicyStatement.actions statement)
            ∧ PolicyStatement.resources statement ≠ []
            ∧ ∀ a, a ∈ PolicyStatement.actions statement →
                   ∃ record counter,
                     record ∈ records
                     ∧ ActionRecord.action record = a
                     ∧ _determine_resources self record
                       = PolicyStatement.resources statement
                     ∧ condition_key (merge (ActionRecord.conditions record))
                       = condition_key (PolicyStatement.conditions statement)
                     ∧ PolicyStatement.sid statement
                       = Some (_build_sid (ActionRecord.service record) counter))
    (_compose_statements self records)
  ∧ ∀ record, record ∈ records →
      ∃ statement,
        statement ∈ _compose_statements self records
        ∧ ActionRecord.action record ∈ PolicyStatement.actions statement
        ∧ PolicyStatement.resources statement = _determine_resources self record
        ∧ condition_key (PolicyStatement.conditions statement)
          = condition_key (merge (ActionRecord.conditions record)).
Proof.
  pose proof (compose_statements_shape self records) as Hshape. cbv zeta in Hshape.
  split.
  - apply Forall_forall. intros statement Hin.
    destruct (Forall2_elem_of_r _ _ _ _ Hshape Hin)
      as ([k actions] & Hitem & Heffect & Hactions & Hresources & Hconditions
          & counter & Hsid).
    apply elem_of_py_sorted_by, elem_of_map_to_list in Hitem.
    destruct (group_facts self records k actions Hitem)
      as (Hmembers & (r0 & Hr0 & Hk0) & Hck).
    cbn [fst snd] in *. split_and!.
    + done.
    + rewrite Hactions. intros Hnil.
      assert (Ha : ActionRecord.action r0 ∈ sorted_set actions)
        by (apply elem_of_sorted_set, Hmembers; by exists r0).
      rewrite Hnil in Ha. by apply elem_of_nil in Ha.
    + rewrite Hactions. apply sorted_set_NoDup.
    + rewrite Hactions. apply sorted_set_Sorted.
    + rewrite Hresources, <- Hk0. apply determine_resources_wellformed.
    + intros a Ha. rewrite Hactions in Ha.
      apply elem_of_sorted_set, Hmembers in Ha as (record & Hrecord & Hk & Haction).
      exists record, counter. split_and!; try done.
      * by rewrite Hresources, <- Hk.
      * by rewrite Hconditions, Hck, <- Hk.
      * by rewrite Hsid, <- Hk.
  - intros record Hrecord.
    destruct (proj2 (grouped_is_Some self records (∅, ∅) (key_of self record)))
      as [actions Hk]; [right; by exists record|].
    destruct (group_facts self records _ actions Hk) as (Hmembers & _ & Hck).
    assert (Hitem : (key_of self record, actions)
                    ∈ py_sorted_by fst
                        (map_to_list (fold_left (group_record self) records (∅, ∅)).1))
      by by apply elem_of_py_sorted_by, elem_of_map_to_list.
    destruct (Forall2_elem_of_l _ _ _ _ Hshape Hitem)
      as (statement & Hin & Heffect & Hactions & Hresources & Hconditions & _).
    cbn [fst snd] in *. exists statement. split_and!; try done.
    + rewrite Hactions. apply elem_of_sorted_set, Hmembers. by exists record.
    + by rewrite Hconditions, Hck.
Qed.

(** X14.  The generator composes one statement for each distinct combination of
    service, resources and conditions found among the records, so never
    more statements than records. *)
Theorem compose_statements_count (self : t) (records : list ActionRecord.t) :
  length (_compose_statements self records)
  = size (list_to_set (key_of self <$> records) : gset group_key)
  ∧ (length (_compose_statements self records) ≤ length records)%nat.
Proof.
  pose proof (compose_statements_shape self records) as Hshape. cbv zeta in Hshape.
  apply Forall2_length in Hshape.
  rewrite py_sorted_by_Permutation, length_map_to_list in Hshape.
  assert (Hsize : length (_compose_statements self records)
                  = size (list_to_set (key_of self <$> records) : gset group_key)).
  { rewrite <- Hshape, <- size_dom. f_equal. apply set_eq. intros k.
    rewrite elem_of_dom, grouped_is_Some, elem_of_list_to_set, list_elem_of_fmap.
    cbn [fst]. rewrite lookup_empty. split.
    - intros [[? ?]|(record & ? & ?)]; [done|]. by exists record.
    - intros (record & ? & ?). right. by exists record. }
  split; [done|]. rewrite Hsize.
  rewrite <- (length_fmap (key_of self) records).
  apply submseteq_length, NoDup_submseteq; [apply NoDup_elements|].
  intros k. by rewrite elem_of_elements, elem_of_list_to_set.
Qed.

(** *** Settings that change nothing *)

Lemma key_of_any (self self' : t) (record : ActionRecord.t) :
  key_of self record = key_of self' record.
Proof. unfold PolicyGenerator.key_of. by rewrite !determine_resources_closed. Qed.

Lemma compose_statements_any (self self' : t) (records : list ActionRecord.t) :
  _compose_statements self records = _compose_statements self' records.
Proof.
  unfold PolicyGenerator._compose_statements.
  assert (Hfold : ∀ st, fold_left (group_record self) records st
                        = fold_left (group_record self') records st).
  { induction records as [|r records IH]; intros st; [done|]. cbn [fold_left].
    rewrite IH. f_equal. unfold PolicyGenerator.group_record.
    by rewrite (key_of_any self self'). }
  by rewrite Hfold.
Qed.

(** X15.  The mode, the inference registry, the capability table and the
    principal of a generator have no effect on what [build] returns:
    records with observed resources get these resources, sorted, and all
    others get the wildcard, in either mode. *)
Theorem generator_settings_without_effect (self : t)
    (registry : ArnRuleRegistry.t) (levels : ResourceLevelIndex.t)
    (mode' : string) (principal : option string)
    (records : list ActionRecord.t) :
  build self records
  = build {| arn_rules := registry; resource_levels := levels; mode := mode';
             include_logs_baseline := include_logs_baseline self;
             principal_arn := principal;
             max_statements := max_statements self |} records
  ∧ Forall (λ record,
              _determine_resources self record
              = match ActionRecord.resources record with
                | [] => ["*"]
                | observed => sorted_set (list_to_set observed)
                end) records.
Proof.
  split; [|apply Forall_forall; intros record _; apply determine_resources_closed].
  unfold PolicyGenerator.build. destruct records as [|record records]; [done|].
  rewrite (compose_statements_any self
             {| arn_rules := registry; resource_levels := levels; mode := mode';
                include_logs_baseline := include_logs_baseline self;
                principal_arn := principal;
                max_statements := max_statements self |}).
  done.
Qed.

(** *** When [build] fails *)

Lemma range_go_negative (fuel : nat) (stop step : Z) :
  step ≤ 0 → 0 ≤ stop → range_go fuel 0 stop step = [].
Proof.
  intros Hstep Hstop. destruct fuel as [|fuel]; [done|]. cbn [range_go].
  rewrite decide_False by lia. by rewrite bool_decide_eq_false_2 by lia.
Qed.

(** X16.  [build] raises exactly when it is given at least one record and the
    limit on statements per document is negative: there is then no
    document to return.  In every other case it returns a document. *)
Theorem build_raises_iff (self : t) (records : list ActionRecord.t) :
  build self records = None
  ↔ records ≠ [] ∧ ∃ m, max_statements self = Some m ∧ m < 0.
Proof.
  split.
  - intros Hnone. destruct records as [|record records]; [done|].
    split; [done|].
    destruct (max_statements self) as [m|] eqn:Hmax.
    + exists m. split; [done|]. destruct (decide (m < 0)) as [?|Hm]; [done|].
      exfalso. rewrite PolicyGeneratorFacts.build_unfold in Hnone by by left.
      destruct (decide (m = 0)) as [-> | Hne].
      * by rewrite PolicyGeneratorFacts.chunk_statements_unset in Hnone by by right.
      * destruct (PolicyGeneratorFacts.chunk_statements_positive self
                    (PolicyGeneratorFacts.pending_statements json_dumps self
                       (record :: records)) m Hmax)
          as (_ & _ & _ & Hdocs & _); [lia|].
        by destruct (_chunk_statements self _).
    + rewrite PolicyGeneratorFacts.build_unfold in Hnone by by left.
      by rewrite PolicyGeneratorFacts.chunk_statements_unset in Hnone by by left.
  - intros (Hne & m & Hmax & Hm).
    rewrite PolicyGeneratorFacts.build_unfold by by left.
    unfold _chunk_statements. rewrite Hmax.
    rewrite bool_decide_eq_false_2 by lia.
    rewrite bool_decide_eq_false_2 by lia. cbn [orb].
    unfold py_range. by rewrite range_go_negative by lia.
Qed.

End WithJson.

End StatementFacts.

(** ** The allowlist filters of the command line and of the API route *)

Module AllowlistFacts.

Section WithFnmatch.
Variable fnmatch : string → string → bool.

Local Abbreviation cli_allowlisted := (Cli._is_allowlisted fnmatch).
Local Abbreviation is_allowed := (ApiGenerate.is_allowed fnmatch).

(** The waiver written for a record that matches the allowlist *)
Definition waiver_of (allowed : Cli.allowlist) (record : ActionRecord.t)
    : Cli.waiver :=
  {| Cli.waiver_action := ActionRecord.action record;
     Cli.waiver_principal := ActionRecord.principal_arn record;
     Cli.waiver_resources := ActionRecord.resources record;
     Cli.waiver_reason := Cli.reason allowed;
     Cli.waiver_owner := Cli.owner allowed;
     Cli.waiver_expiresAt := Cli.expiresAt allowed |}.

Lemma partition_fold (test : ActionRecord.t → bool) (allowed : Cli.allowlist)
    (records : list ActionRecord.t)
    (st : list ActionRecord.t * list Cli.waiver) :
  fold_left
    (λ st record,
       if test record then (st.1, (st.2 ++ [waiver_of allowed record])%list)
       else ((st.1 ++ [record])%list, st.2))
    records st
  = ((st.1 ++ filter (λ record, test record = false) records)%list,
     (st.2 ++ (waiver_of allowed <$> filter (λ record, test record = true) records))%list).
Proof.
  revert st. induction records as [|r records IH]; intros [kept waivers];
    cbn [fold_left].
  - by rewrite !app_nil_r.
  - rewrite IH. destruct (test r) eqn:Htest; cbn [fst snd].
    + rewrite (filter_cons_False _ r) by (rewrite Htest; done).
      rewrite (filter_cons_True _ r) by done.
      by rewrite fmap_cons, <- app_assoc.
    + rewrite (filter_cons_True _ r) by done.
      rewrite (filter_cons_False _ r) by (rewrite Htest; done).
      by rewrite <- app_assoc.
Qed.

Lemma apply_allowlist_unfold (records : list ActionRecord.t)
    (allowed : Cli.allowlist) :
  Cli._apply_allowlist fnmatch records allowed
  = (filter (λ record,
               cli_allowlisted (ActionRecord.action record)
                 (ActionRecord.principal_arn record)
                 (ActionRecord.resources record) allowed = false) records,
     waiver_of allowed
       <$> filter (λ record,
                     cli_allowlisted (ActionRecord.action record)
                       (ActionRecord.principal_arn record)
                       (ActionRecord.resources record) allowed = true) records).
Proof.
  unfold Cli._apply_allowlist.
  exact (partition_fold
           (λ record, cli_allowlisted (ActionRecord.action record)
                        (ActionRecord.principal_arn record)
                        (ActionRecord.resources record) allowed)
           allowed records ([], [])).
Qed.

Lemma filter_allowlist_unfold (records : list ActionRecord.t)
    (allowed : Cli.allowlist) :
  ApiGenerate._filter_allowlist fnmatch records allowed
  = (filter (λ record, is_allowed allowed record = false) records,
     waiver_of allowed
       <$> filter (λ record, is_allowed allowed record = true) records).
Proof.
  unfold ApiGenerate._filter_allowlist.
  exact (partition_fold (is_allowed allowed) allowed records ([], [])).
Qed.

Lemma partition_length (allowed : Cli.allowlist) (test : ActionRecord.t → bool)
    (records : list ActionRecord.t) :
  (length (filter (λ record, test record = false) records)
   + length (waiver_of allowed <$> filter (λ record, test record = true) records)
   = length records)%nat.
Proof.
  rewrite length_fmap. induction records as [|r records IH]; [done|].
  destruct (test r) eqn:Htest.
  - rewrite (filter_cons_False _ r) by (rewrite Htest; done).
    rewrite (filter_cons_True _ r) by done. cbn [length]. lia.
  - rewrite (filter_cons_True _ r) by done.
    rewrite (filter_cons_False _ r) by (rewrite Htest; done). cbn [length]. lia.
Qed.

(** X17.  Both filters split the records in two without losing, repeating or
    reordering any: the records that match no allowlist pattern are kept,
    in their order, and every other record leaves one waiver, in order,
    that carries the record's action, principal and resources and the
    allowlist's reason, owner and expiry date. *)
Theorem allowlist_filters_partition (records : list ActionRecord.t)
    (allowed : Cli.allowlist) :
  Cli._apply_allowlist fnmatch records allowed
  = (filter (λ record,
               cli_allowlisted (ActionRecord.action record)
                 (ActionRecord.principal_arn record)
                 (ActionRecord.resources record) allowed = false) records,
     waiver_of allowed
       <$> filter (λ record,
                     cli_allowlisted (ActionRecord.action record)
                       (ActionRecord.principal_arn record)
                       (ActionRecord.resources record) allowed = true) records)
  ∧ ApiGenerate._filter_allowlist fnmatch records allowed
    = (filter (λ record, is_allowed allowed record = false) records,
       waiver_of allowed
         <$> filter (λ record, is_allowed allowed record = true) records)
  ∧ (length (Cli._apply_allowlist fnmatch records allowed).1
     + length (Cli._apply_allowlist fnmatch records allowed).2
     = length records)%nat
  ∧ (length (ApiGenerate._filter_allowlist fnmatch records allowed).1
     + length (ApiGenerate._filter_allowlist fnmatch records allowed).2
     = length records)%nat.
Proof.
  pose proof (apply_allowlist_unfold records allowed) as Hcli.
  pose proof (filter_allowlist_unfold records allowed) as Hapi.
  split_and!; [done|done|..].
  - rewrite Hcli. cbn [fst snd].
    apply (partition_length allowed
             (λ record, cli_allowlisted (ActionRecord.action record)
                             (ActionRecord.principal_arn record)
                             (ActionRecord.resources record) allowed)).
  - rewrite Hapi. cbn [fst snd]. apply (partition_length allowed (is_allowed allowed)).
Qed.

Lemma existsb_swap {A B} (p : A → B → bool) (l : list A) (k : list B) :
  existsb (λ x, existsb (λ y, p x y) k) l = existsb (λ y, existsb (λ x, p x y) l) k.
Proof.
  apply eq_true_iff_eq. rewrite !existsb_exists. split.
  - intros (x & Hx & (y & Hy & Hp)%existsb_exists). exists y. split; [done|].
    apply existsb_exists. by exists x.
  - intros (y & Hy & (x & Hx & Hp)%existsb_exists). exists x. split; [done|].
    apply existsb_exists. by exists y.
Qed.

(** X18.  The three allowlist tests of the repository decide alike: the test of
    the API route is the test of the aggregator, for every record; the
    test of the command line is the same for a record whose principal is
    not the empty string.  With an empty principal the command line does
    not consult the principal patterns at all.  So on records that all
    name a principal the command line and the API route filter alike. *)
Theorem allowlist_tests_agree (allowed : Cli.allowlist)
    (regex : Type) (principal_pattern : option regex)
    (exclude_patterns : list string) (min_count : Z) :
  let aggregator :=
    {| ActionAggregator.principal_pattern := principal_pattern;
       ActionAggregator.exclude_patterns := exclude_patterns;
       ActionAggregator.allow_patterns := Cli.actions allowed;
       ActionAggregator.allow_principals := Cli.principals allowed;
       ActionAggregator.allow_resource_patterns := Cli.resources allowed;
       ActionAggregator.min_count := min_count |} in
  (∀ record,
     is_allowed allowed record
     = ActionAggregator._is_allowlisted fnmatch aggregator
         (ActionRecord.action record) (ActionRecord.principal_arn record)
         (ActionRecord.resources record))
  ∧ (∀ action principal res,
       principal ≠ "" →
       cli_allowlisted action principal res allowed
       = ActionAggregator._is_allowlisted fnmatch aggregator action principal res)
  ∧ (∀ action res,
       cli_allowlisted action "" res allowed
       = existsb (λ pattern, fnmatch action pattern) (Cli.actions allowed)
         || existsb (λ pattern, existsb (λ resource, fnmatch resource pattern) res)
              (Cli.resources allowed))
  ∧ (∀ records,
       Forall (λ record, ActionRecord.principal_arn record ≠ "") records →
       Cli._apply_allowlist fnmatch records allowed
       = ApiGenerate._filter_allowlist fnmatch records allowed).
Proof.
  cbv zeta.
  assert (Hapi : ∀ record,
            is_allowed allowed record
            = ActionAggregator._is_allowlisted fnmatch
                {| ActionAggregator.principal_pattern := principal_pattern;
                   ActionAggregator.exclude_patterns := exclude_patterns;
                   ActionAggregator.allow_patterns := Cli.actions allowed;
                   ActionAggregator.allow_principals := Cli.principals allowed;
                   ActionAggregator.allow_resource_patterns := Cli.resources allowed;
                   ActionAggregator.min_count := min_count |}
                (ActionRecord.action record) (ActionRecord.principal_arn record)
                (ActionRecord.resources record)).
  { intros record. unfold ApiGenerate.is_allowed, ActionAggregator._is_allowlisted.
    cbn [ActionAggregator.allow_patterns ActionAggregator.allow_principals
         ActionAggregator.allow_resource_patterns].
    destruct (existsb _ (Cli.actions allowed)); [done|].
    destruct (existsb _ (Cli.principals allowed)); [done|]. cbn [orb].
    destruct (ActionRecord.resources record) as [|r rs]; [|done].
    by induction (Cli.resources allowed). }
  assert (Hres : ∀ res,
            match Cli.resources allowed with
            | [] => false
            | resource_patterns =>
                existsb (λ resource,
                           existsb (λ pattern, fnmatch resource pattern)
                             resource_patterns) res
            end
            = existsb (λ pattern, existsb (λ resource, fnmatch resource pattern) res)
                (Cli.resources allowed)).
  { intros res. rewrite <- existsb_swap.
    destruct (Cli.resources allowed) as [|p ps]; [by induction res|done]. }
  assert (Hcli : ∀ action principal res,
            principal ≠ "" →
            cli_allowlisted action principal res allowed
            = ActionAggregator._is_allowlisted fnmatch
                {| ActionAggregator.principal_pattern := principal_pattern;
                   ActionAggregator.exclude_patterns := exclude_patterns;
                   ActionAggregator.allow_patterns := Cli.actions allowed;
                   ActionAggregator.allow_principals := Cli.principals allowed;
                   ActionAggregator.allow_resource_patterns := Cli.resources allowed;
                   ActionAggregator.min_count := min_count |}
                action principal res).
  { intros action principal res Hp.
    unfold Cli._is_allowlisted, ActionAggregator._is_allowlisted.
    cbn [ActionAggregator.allow_patterns ActionAggregator.allow_principals
         ActionAggregator.allow_resource_patterns].
    rewrite Hres, bool_decide_eq_false_2 by done. cbn [negb andb].
    destruct (existsb _ (Cli.actions allowed)); [done|].
    by destruct (existsb _ (Cli.principals allowed)). }
  split_and!; [done|done|..].
  - intros action res. unfold Cli._is_allowlisted.
    rewrite Hres, bool_decide_eq_true_2 by done. cbn [negb andb].
    by destruct (existsb _ (Cli.actions allowed)).
  - intros records Hall.
    unfold Cli._apply_allowlist, ApiGenerate._filter_allowlist.
    generalize (([], []) : list ActionRecord.t * list Cli.waiver).
    induction Hall as [|r records Hr _ IH]; intros st; [done|]. cbn [fold_left].
    rewrite <- IH. f_equal. unfold Cli.apply_step, ApiGenerate.filter_step.
    by rewrite Hapi, (Hcli _ _ _ Hr).
Qed.

End WithFnmatch.

End AllowlistFacts.

(** ** The capability table *)

Module ResourceLevelFacts.

Import ResourceLevelIndex.

(** X19.  After any sequence of registrations the table answers, for an action,
    what the last registration for that action said, and what it answered
    before if the action was not registered; an action that is neither in
    the table nor registered is not scopable. *)
Theorem allows_scoping_after_register (self : t)
    (registrations : list (string * bool)) (action : string) :
  allows_scoping
    (foldl (λ index registration, register index registration.1 registration.2)
       self registrations) action
  = match last (filter (λ registration, registration.1 = action) registrations) with
    | Some registration => registration.2
    | None => default false (supports_resource_level self !! action)
    end.
Proof.
  induction registrations as [|[action' scoped] registrations IH] using rev_ind.
  - done.
  - rewrite foldl_app, filter_app, last_app. cbn [foldl].
    unfold allows_scoping, register at 1. cbn [supports_resource_level fst snd].
    destruct (decide (action' = action)) as [-> | Hne].
    + rewrite lookup_insert_eq, filter_cons_True by done. done.
    + rewrite lookup_insert_ne, filter_cons_False by done. cbn [last filter].
      rewrite filter_nil. cbn [last]. apply IH.
Qed.

End ResourceLevelFacts.

(** ** Comparing two policies by simulation *)

Module CompareFacts.

Import PolicySimulator PolicySimulatorFacts.

Lemma decision_app (l1 l2 : list PolicyStatement.t) (case : SimulationCase) :
  decision (l1 ++ l2) case = "Allow"
  ↔ decision l1 case = "Allow" ∨ decision l2 case = "Allow".
Proof.
  rewrite !decision_allow. setoid_rewrite elem_of_app. split.
  - intros (s & [?|?] & ?); [left|right]; by exists s.
  - intros [(s & ? & ?)|(s & ? & ?)]; exists s; auto.
Qed.

Lemma decision_Deny (statements : list PolicyStatement.t) (case : SimulationCase) :
  decision statements case ≠ "Allow" → decision statements case = "Deny".
Proof. by destruct (decision_cases statements case). Qed.

(** X20.  [compare] returns one row for each probe, in the order of the probes,
    with the decisions of the two policies for that probe, also when
    several probes share an action and a resource.  Statements whose
    effect is not Allow never change a decision; a document put together
    from two statement lists allows what either list allows; and a policy
    whose statements are all taken from another allows no probe that the
    other denies. *)
Theorem compare_rows (before after : PolicyDoc.t) (cases : list SimulationCase) :
  compare before after cases
  = (λ case,
       {| row_action := action case;
          row_resource := resource case;
          row_context := default ∅ (context case);
          row_before := decision (PolicyDoc.statements before) case;
          row_after := decision (PolicyDoc.statements after) case |}) <$> cases
  ∧ (∀ statements case,
       decision statements case
       = decision
           (filter (λ statement, PolicyStatement.effect statement = "Allow")
              statements) case)
  ∧ (∀ l1 l2 case,
       decision (l1 ++ l2) case = "Allow"
       ↔ decision l1 case = "Allow" ∨ decision l2 case = "Allow")
  ∧ ((∀ statement, statement ∈ PolicyDoc.statements after →
                   statement ∈ PolicyDoc.statements before) →
     Forall (λ row, row_after row = "Allow" → row_before row = "Allow")
       (compare before after cases)).
Proof.
  assert (Hrows : compare before after cases
    = (λ case,
         {| row_action := action case;
            row_resource := resource case;
            row_context := default ∅ (context case);
            row_before := decision (PolicyDoc.statements before) case;
            row_after := decision (PolicyDoc.statements after) case |}) <$> cases).
  { unfold compare. apply list_fmap_ext. intros i case Hcase.
    apply list_elem_of_lookup_2 in Hcase.
    by rewrite !local_simulate_lookup by done. }
  split_and!.
  - done.
  - intros statements case. induction statements as [|s statements IH]; [done|].
    cbn [decision]. case_bool_decide as Heffect; cbn [negb].
    + rewrite filter_cons_True by done. cbn [decision].
      rewrite bool_decide_eq_true_2 by done. cbn [negb]. by rewrite IH.
    + by rewrite filter_cons_False by done.
  - apply decision_app.
  - intros Hsub. rewrite Hrows. apply Forall_fmap, Forall_forall.
    intros case _. unfold compose. cbn [row_after row_before].
    rewrite !decision_allow.
    intros (s & Hs & Hallow). exists s. split; [by apply Hsub|done].
Qed.

End CompareFacts.

(** ** Counting actions by service *)

Module ReportFacts.

Import PyOrder PyOrderFacts PolicyDiff.

Lemma StronglySorted_sublist {A} (R : relation A) (l1 l2 : list A) :
  l1 `sublist_of` l2 → StronglySorted R l2 → StronglySorted R l1.
Proof.
  induction 1 as [|x l1 l2 Hsub IH|x l1 l2 Hsub IH]; intros Hsorted.
  - constructor.
  - apply StronglySorted_inv in Hsorted as [Hsorted Hall].
    constructor; [by apply IH|]. apply Forall_forall. intros y Hy.
    apply (proj1 (Forall_forall _ _) Hall). by eapply elem_of_sublist.
  - apply StronglySorted_inv in Hsorted as [Hsorted _]. by apply IH.
Qed.

(** The keys of the entries kept by [omap] form a sublist of the list
    walked when every entry keeps the key it was made from. *)
Lemma fmap_omap_sublist {A B} (f : A → option B) (g : B → A) (l : list A) :
  (∀ x y, f x = Some y → g y = x) → g <$> omap f l `sublist_of` l.
Proof.
  intros Hg. induction l as [|x l IH]; [constructor|]. cbn [omap list_omap].
  destruct (f x) as [y|] eqn:Hfx.
  - rewrite fmap_cons, (Hg x y Hfx). by constructor.
  - by constructor.
Qed.

Lemma prefix_to_sublist {A} (n : Z) (l : list A) : PyStr.prefix_to n l `sublist_of` l.
Proof. unfold PyStr.prefix_to. case_decide; apply sublist_take. Qed.

(** All actions of a document, in the order of the statements *)
Definition all_actions (policy : PolicyDoc.t) : list string :=
  concat (PolicyStatement.actions <$> PolicyDoc.statements policy).

Lemma fold_left_nested {A B C} (g : A → C → A) (h : B → list C) (l : list B) (a : A) :
  fold_left (λ acc x, fold_left g (h x) acc) l a = fold_left g (concat (h <$> l)) a.
Proof.
  revert a. induction l as [|x l IH]; intros a; [done|].
  cbn [fold_left]. rewrite fmap_cons. cbn [concat].
  by rewrite fold_left_app, IH.
Qed.

Lemma elem_of_all_actions (policy : PolicyDoc.t) (a : string) :
  a ∈ all_actions policy
  ↔ ∃ statement, statement ∈ PolicyDoc.statements policy
                 ∧ a ∈ PolicyStatement.actions statement.
Proof.
  unfold all_actions. induction (PolicyDoc.statements policy) as [|s l IH].
  - split; [by intros ?%elem_of_nil|]. by intros (? & ?%elem_of_nil & _).
  - rewrite fmap_cons. cbn [concat]. rewrite elem_of_app, IH. split.
    + intros [?|(s' & ? & ?)].
      * exists s. split; [apply list_elem_of_here|done].
      * exists s'. split; [by apply list_elem_of_further|done].
    + intros (s' & [->|?]%elem_of_cons & ?); [by left|]. right. by exists s'.
Qed.

Lemma count_actions_length (policy : PolicyDoc.t) :
  _count_actions policy = Z.of_nat (length (all_actions policy)).
Proof.
  unfold _count_actions, all_actions.
  assert (Hgen : ∀ total,
            fold_left (λ total statement,
                         total + Z.of_nat (length (PolicyStatement.actions statement)))
              (PolicyDoc.statements policy) total
            = total + Z.of_nat (length (concat (PolicyStatement.actions
                                                  <$> PolicyDoc.statements policy)))).
  { induction (PolicyDoc.statements policy) as [|s l IH]; intros total.
    - simpl. lia.
    - cbn [fold_left]. rewrite IH, fmap_cons. cbn [concat].
      rewrite length_app. lia. }
  rewrite Hgen. lia.
Qed.

(** How often a service occurs among a list of actions *)
Definition occurrences (service : string) (actions : list string) : Z :=
  Z.of_nat (length (filter (λ a, PolicyDoc.service_of a = service) actions)).

Lemma occurrences_cons (service a : string) (actions : list string) :
  occurrences service (a :: actions)
  = (if decide (PolicyDoc.service_of a = service) then 1 else 0)
    + occurrences service actions.
Proof.
  unfold occurrences. case_decide.
  - rewrite filter_cons_True by done. cbn [length]. lia.
  - rewrite filter_cons_False by done. lia.
Qed.

Lemma occurrences_nonneg (service : string) (actions : list string) :
  0 ≤ occurrences service actions.
Proof. unfold occurrences. lia. Qed.

Lemma occurrences_pos (service a : string) (actions : list string) :
  a ∈ actions → PolicyDoc.service_of a = service → 1 ≤ occurrences service actions.
Proof.
  intros Hin Hs. unfold occurrences.
  assert (Ha : a ∈ filter (λ a, PolicyDoc.service_of a = service) actions)
    by by apply list_elem_of_filter.
  destruct (filter _ actions); [by apply elem_of_nil in Ha|]. cbn [length]. lia.
Qed.

(** One iteration of the inner loop of [_service_counts] *)
Definition count_step (counts : gmap string Z) (action : string) : gmap string Z :=
  <[PolicyDoc.service_of action
    := default 0 (counts !! PolicyDoc.service_of action) + 1]> counts.

Lemma service_counts_unfold (policy : PolicyDoc.t) :
  _service_counts policy = fold_left count_step (all_actions policy) ∅.
Proof. unfold _service_counts, all_actions. apply fold_left_nested. Qed.

Lemma counts_lookup (actions : list string) (counts : gmap string Z) (service : string) :
  default 0 (fold_left count_step actions counts !! service)
  = default 0 (counts !! service) + occurrences service actions
  ∧ (is_Some (fold_left count_step actions counts !! service)
     ↔ is_Some (counts !! service)
       ∨ ∃ a, a ∈ actions ∧ PolicyDoc.service_of a = service).
Proof.
  revert counts. induction actions as [|a actions IH]; intros counts.
  - cbn [fold_left]. unfold occurrences. split; [simpl; lia|].
    split; [by left|]. intros [?|(? & ?%elem_of_nil & _)]; done.
  - cbn [fold_left]. destruct (IH (count_step counts a)) as [IHv IHs].
    rewrite IHv, IHs, occurrences_cons. unfold count_step.
    rewrite lookup_insert. case_decide as Hs.
    + split.
      * subst service. cbn [default from_option id]. lia.
      * split; [|by left; eexists]. intros _. right. exists a.
        split; [apply list_elem_of_here|done].
    + split; [lia|]. split.
      * intros [?|(a' & ? & ?)]; [by left|]. right. exists a'.
        split; [by apply list_elem_of_further|done].
      * intros [?|(a' & [->|?]%elem_of_cons & ?)]; [by left|done|].
        right. by exists a'.
Qed.

(** The sum of all counts of a table *)
Definition total_of (counts : gmap string Z) : Z :=
  map_fold (λ _ n total, n + total) 0 counts.

Lemma total_of_insert (counts : gmap string Z) (service : string) (n : Z) :
  total_of (<[service := n]> counts)
  = total_of counts - default 0 (counts !! service) + n.
Proof.
  unfold total_of. destruct (counts !! service) as [v|] eqn:Hv.
  - rewrite <- (insert_delete_eq counts).
    rewrite map_fold_insert_L; [|intros; lia|by rewrite lookup_delete_eq].
    rewrite (map_fold_delete_L _ _ service v counts); [|intros; lia|done].
    cbn [default from_option id]. lia.
  - rewrite map_fold_insert_L; [|intros; lia|done]. cbn [default from_option]. lia.
Qed.

Lemma total_of_counts (actions : list string) (counts : gmap string Z) :
  total_of (fold_left count_step actions counts)
  = total_of counts + Z.of_nat (length actions).
Proof.
  revert counts. induction actions as [|a actions IH]; intros counts.
  - simpl. lia.
  - cbn [fold_left]. rewrite IH. unfold count_step. rewrite total_of_insert.
    cbn [length]. lia.
Qed.

Lemma high_risk_unfold (actions : list string) (total : Z) :
  fold_left
    (λ total action,
       if decide (PolicyDoc.service_of action ∈ HIGH_RISK_SERVICES)
       then total + 1 else total) actions total
  = total + occurrences "iam" actions + occurrences "kms" actions
    + occurrences "organizations" actions + occurrences "sts" actions.
Proof.
  revert total. induction actions as [|a actions IH]; intros total.
  - unfold occurrences. simpl. lia.
  - cbn [fold_left]. rewrite IH, !occurrences_cons.
    unfold HIGH_RISK_SERVICES. generalize (PolicyDoc.service_of a). intros s.
    repeat case_decide; try lia; try congruence; exfalso; set_solver.
Qed.

Lemma services_unfold (actions : list string) (services : gset string) :
  fold_left (λ services action, services ∪ {[ PolicyDoc.service_of action ]})
    actions services
  = services ∪ list_to_set (PolicyDoc.service_of <$> actions).
Proof.
  revert services. induction actions as [|a actions IH]; intros services.
  - set_solver.
  - cbn [fold_left]. rewrite IH, fmap_cons. set_solver.
Qed.

Lemma dom_counts (actions : list string) (counts : gmap string Z) :
  dom (fold_left count_step actions counts)
  = dom counts ∪ list_to_set (PolicyDoc.service_of <$> actions).
Proof.
  revert counts. induction actions as [|a actions IH]; intros counts.
  - set_solver.
  - cbn [fold_left]. rewrite IH, fmap_cons. unfold count_step.
    rewrite dom_insert_L. set_solver.
Qed.

(** X21.  The table of [_service_counts] accounts for every action of the
    document once: its counts add up to [_count_actions], no service is on
    file with a count below one, the high-risk total is the sum of the
    counts of iam, kms, organizations and sts, and the services on file
    are the services the document reports, which are sorted, without
    duplicates, and are the services of the actions of its statements. *)
Theorem service_counts_consistent (policy : PolicyDoc.t) :
  let counts := _service_counts policy in
  map_fold (λ _ n total, n + total) 0 counts = _count_actions policy
  ∧ map_Forall (λ _ n, 1 ≤ n) counts
  ∧ _high_risk policy
    = default 0 (counts !! "iam") + default 0 (counts !! "kms")
      + default 0 (counts !! "organizations") + default 0 (counts !! "sts")
  ∧ PolicyDoc.services policy = sorted_set (dom counts)
  ∧ Sorted py_le (PolicyDoc.services policy)
  ∧ NoDup (PolicyDoc.services policy)
  ∧ ∀ service,
      service ∈ PolicyDoc.services policy
      ↔ ∃ statement action,
          statement ∈ PolicyDoc.statements policy
          ∧ action ∈ PolicyStatement.actions statement
          ∧ PolicyDoc.service_of action = service.
Proof.
  cbv zeta. rewrite service_counts_unfold.
  assert (Hservices : PolicyDoc.services policy
                      = sorted_set (dom (fold_left count_step (all_actions policy) ∅))).
  { unfold PolicyDoc.services.
    rewrite (fold_left_nested
               (λ services action, services ∪ {[ PolicyDoc.service_of action ]})
               PolicyStatement.actions).
    fold (all_actions policy). rewrite services_unfold, dom_counts, dom_empty_L.
    done. }
  split_and!.
  - fold (total_of (fold_left count_step (all_actions policy) ∅)).
    rewrite total_of_counts, count_actions_length. unfold total_of.
    rewrite map_fold_empty. lia.
  - apply map_Forall_lookup. intros service n Hn.
    destruct (counts_lookup (all_actions policy) ∅ service) as [Hv Hs].
    rewrite Hn in Hv, Hs. cbn [default from_option id] in Hv.
    rewrite lookup_empty in Hv, Hs. cbn [from_option] in Hv.
    destruct (proj1 Hs) as [[? ?]|(a & Ha & Hservice)]; [by eexists|done|].
    pose proof (occurrences_pos service a _ Ha Hservice). lia.
  - unfold _high_risk.
    rewrite (fold_left_nested
               (λ total action,
                  if decide (PolicyDoc.service_of action ∈ HIGH_RISK_SERVICES)
                  then total + 1 else total) PolicyStatement.actions).
    fold (all_actions policy). rewrite high_risk_unfold.
    rewrite !(proj1 (counts_lookup (all_actions policy) ∅ _)), !lookup_empty.
    cbn [default from_option]. lia.
  - done.
  - rewrite Hservices. apply sorted_set_Sorted.
  - rewrite Hservices. apply sorted_set_NoDup.
  - intros service. rewrite Hservices, elem_of_sorted_set, dom_counts, dom_empty_L.
    rewrite elem_of_union, elem_of_list_to_set, list_elem_of_fmap. split.
    + intros [[]%elem_of_empty|(a & -> & (s & ? & ?)%elem_of_all_actions)].
      by exists s, a.
    + intros (s & a & ? & ? & <-). right. exists a. split; [done|].
      apply elem_of_all_actions. by exists s.
Qed.

(** *** The services whose action count went down *)

Lemma service_count_nonneg (policy : PolicyDoc.t) (service : string) :
  0 ≤ default 0 (_service_counts policy !! service).
Proof.
  rewrite service_counts_unfold, (proj1 (counts_lookup _ ∅ service)), lookup_empty.
  pose proof (occurrences_nonneg service (all_actions policy)).
  cbn [default from_option]. lia.
Qed.

(** X22.  The entries of "top risk reductions" are sorted by service, name each
    service once, and give for it the number of its actions before and
    after, the second smaller than the first.  With a limit that is not
    negative there are at most that many entries, and a service whose
    count went down is left out only when the limit is reached. *)
Theorem top_service_changes_report (self : t) (limit : Z) :
  let entries := _top_service_changes self limit in
  let services := (λ item : string * Z * Z, item.1.1) <$> entries in
  StronglySorted py_le services
  ∧ NoDup services
  ∧ Forall (λ item : string * Z * Z,
              item.1.2 = default 0 (_service_counts (before self) !! item.1.1)
              ∧ item.2 = default 0 (_service_counts (after self) !! item.1.1)
              ∧ item.2 < item.1.2) entries
  ∧ (0 ≤ limit → (length entries ≤ Z.to_nat limit)%nat)
  ∧ (0 ≤ limit →
     ∀ service,
       default 0 (_service_counts (after self) !! service)
       < default 0 (_service_counts (before self) !! service) →
       service ∈ services ∨ length entries = Z.to_nat limit).
Proof.
  cbv zeta. unfold _top_service_changes.
  set (before_counts := _service_counts (before self)).
  set (after_counts := _service_counts (after self)).
  set (entry := λ service : string,
         if decide (default 0 (before_counts !! service)
                    > default 0 (after_counts !! service))
         then Some (service, default 0 (before_counts !! service),
                    default 0 (after_counts !! service))
         else None).
  set (key := λ item : string * Z * Z, item.1.1).
  set (listed := elements (dom before_counts ∪ dom after_counts)).
  assert (Hkey : ∀ service item, entry service = Some item → key item = service).
  { intros service item. unfold entry. case_decide; [|done]. by intros [= <-]. }
  assert (Hnodup : NoDup (key <$> py_sorted_by key (omap entry listed))).
  { rewrite py_sorted_by_Permutation.
    eapply sublist_NoDup; [|by apply (fmap_omap_sublist entry key listed)].
    unfold listed. apply NoDup_elements. }
  split_and!.
  - apply (StronglySorted_fmap key (key_le key)); [done|].
    eapply StronglySorted_sublist; [apply prefix_to_sublist|].
    apply py_sorted_by_Sorted.
  - eapply sublist_NoDup; [exact Hnodup|]. apply fmap_sublist, prefix_to_sublist.
  - apply Forall_forall. intros item Hitem.
    eapply elem_of_sublist in Hitem; [|apply prefix_to_sublist].
    apply elem_of_py_sorted_by, list_elem_of_omap in Hitem as (service & _ & Hentry).
    unfold entry in Hentry. case_decide as Hgt; [|done].
    injection Hentry as <-. cbn [fst snd]. split_and!; [done..|lia].
  - intros Hlimit. unfold PyStr.prefix_to. rewrite decide_True by done.
    rewrite length_take. lia.
  - intros Hlimit service Hless. unfold PyStr.prefix_to.
    rewrite decide_True by done.
    destruct (decide (length (py_sorted_by key (omap entry listed))
                      ≤ Z.to_nat limit)%nat) as [Hshort|Hlong].
    + left. rewrite take_ge by done. rewrite py_sorted_by_Permutation.
      apply list_elem_of_fmap.
      exists (service, default 0 (before_counts !! service),
              default 0 (after_counts !! service)).
      split; [done|]. apply list_elem_of_omap. exists service. split.
      * apply elem_of_elements, elem_of_union. left. apply elem_of_dom.
        pose proof (service_count_nonneg (after self) service) as Hnonneg.
        fold after_counts in Hnonneg.
        destruct (before_counts !! service); [by eexists|].
        cbn [default from_option] in Hless. lia.
      * unfold entry. by rewrite decide_True by lia.
    + right. rewrite length_take. lia.
Qed.

(** *** Resources that differ between two policies *)

Section WithFnmatch.
Variable fnmatch : string → string → bool.

(** The resources [collect] binds to the actions of a statement *)
Definition normalized (statement : PolicyStatement.t) : list string :=
  (λ resource, if decide (resource = "") then "*" else resource)
    <$> match PolicyStatement.resources statement with
        | [] => ["*"]
        | listed => listed
        end.

Lemma bind_all_lookup (actions : list string) (resources : list string)
    (mapping : gmap string (list string)) (action : string) :
  fold_left (λ mapping action, <[action := resources]> mapping) actions mapping
    !! action
  = if decide (action ∈ actions) then Some resources else mapping !! action.
Proof.
  revert mapping. induction actions as [|a actions IH]; intros mapping.
  - by rewrite decide_False by apply not_elem_of_nil.
  - cbn [fold_left]. rewrite IH. destruct (decide (action ∈ actions)) as [Hin|Hnot].
    + by rewrite decide_True by by apply list_elem_of_further.
    + rewrite lookup_insert. case_decide as Ha.
      * subst a. by rewrite decide_True by apply list_elem_of_here.
      * rewrite decide_False; [done|]. intros [?|?]%elem_of_cons; by subst.
Qed.

Lemma collect_lookup (policy : PolicyDoc.t) (action : string) :
  Cli.collect policy !! action
  = normalized
      <$> last (filter (λ statement, action ∈ PolicyStatement.actions statement)
                  (PolicyDoc.statements policy)).
Proof.
  unfold Cli.collect.
  induction (PolicyDoc.statements policy) as [|s statements IH] using rev_ind.
  - done.
  - rewrite fold_left_app, filter_app, last_app. cbn [fold_left].
    fold (normalized s). rewrite bind_all_lookup.
    destruct (decide (action ∈ PolicyStatement.actions s)) as [Hin|Hnot].
    + by rewrite filter_cons_True by done.
    + rewrite filter_cons_False by done. by rewrite filter_nil.
Qed.

(** X23.  The resource differences reported between two policies are sorted by
    action and name each action once; an action is reported exactly when
    the two policies bind it to different resource lists, where a policy
    binds an action to the resources of the last of its statements that
    lists the action (an empty list and an empty resource count as the
    wildcard) and an action it does not list to the wildcard.  A policy
    compared with itself gives no difference. *)
Theorem resource_differences_report (before after : PolicyDoc.t)
    (allowed : Cli.allowlist) :
  let details := Cli._resource_differences fnmatch before after allowed in
  StronglySorted py_le (Cli.detail_action <$> details)
  ∧ NoDup (Cli.detail_action <$> details)
  ∧ (∀ action,
       action ∈ Cli.detail_action <$> details
       ↔ default ["*"] (Cli.collect before !! action)
         ≠ default ["*"] (Cli.collect after !! action))
  ∧ (∀ policy action,
       Cli.collect policy !! action
       = normalized
           <$> last (filter (λ statement,
                               action ∈ PolicyStatement.actions statement)
                       (PolicyDoc.statements policy)))
  ∧ Cli._resource_differences fnmatch before before allowed = [].
Proof.
  cbv zeta. unfold Cli._resource_differences.
  set (entry := λ (before_map after_map : gmap string (list string)) action,
         if decide (default ["*"] (before_map !! action)
                    ≠ default ["*"] (after_map !! action))
         then
           Some {| Cli.detail_action := action;
                   Cli.detail_before :=
                     String.concat ", " (default ["*"] (before_map !! action));
                   Cli.detail_after :=
                     String.concat ", " (default ["*"] (after_map !! action));
                   Cli.detail_waived :=
                     Cli._is_allowlisted fnmatch action ""
                       (default ["*"] (after_map !! action)) allowed;
                   Cli.detail_reason :=
                     if Cli._is_allowlisted fnmatch action ""
                          (default ["*"] (after_map !! action)) allowed
                     then Cli.reason allowed else None;
                   Cli.detail_owner :=
                     if Cli._is_allowlisted fnmatch action ""
                          (default ["*"] (after_map !! action)) allowed
                     then Cli.owner allowed else None;
                   Cli.detail_expiresAt :=
                     if Cli._is_allowlisted fnmatch action ""
                          (default ["*"] (after_map !! action)) allowed
                     then Cli.expiresAt allowed else None |}
         else None).
  change (StronglySorted py_le
            (Cli.detail_action
               <$> omap (entry (Cli.collect before) (Cli.collect after))
                     (sorted_set (dom (Cli.collect before) ∪ dom (Cli.collect after))))
          ∧ NoDup
              (Cli.detail_action
                 <$> omap (entry (Cli.collect before) (Cli.collect after))
                       (sorted_set (dom (Cli.collect before) ∪ dom (Cli.collect after))))
          ∧ (∀ action,
               action ∈ Cli.detail_action
                 <$> omap (entry (Cli.collect before) (Cli.collect after))
                       (sorted_set (dom (Cli.collect before) ∪ dom (Cli.collect after)))
               ↔ default ["*"] (Cli.collect before !! action)
                 ≠ default ["*"] (Cli.collect after !! action))
          ∧ (∀ policy action,
               Cli.collect policy !! action
               = normalized
                   <$> last (filter (λ statement,
                                       action ∈ PolicyStatement.actions statement)
                               (PolicyDoc.statements policy)))
          ∧ omap (entry (Cli.collect before) (Cli.collect before))
              (sorted_set (dom (Cli.collect before) ∪ dom (Cli.collect before))) = []).
  assert (Hkey : ∀ before_map after_map action detail,
            entry before_map after_map action = Some detail →
            Cli.detail_action detail = action).
  { intros before_map after_map action detail. unfold entry.
    case_decide; [|done]. by intros [= <-]. }
  split_and!.
  - eapply StronglySorted_sublist; [apply fmap_omap_sublist, Hkey|].
    apply Sorted_StronglySorted; [apply _|]. apply sorted_set_Sorted.
  - eapply sublist_NoDup; [apply sorted_set_NoDup|]. apply fmap_omap_sublist, Hkey.
  - intros action. rewrite list_elem_of_fmap. setoid_rewrite list_elem_of_omap.
    split.
    + intros (detail & -> & action' & _ & Hentry). unfold entry in Hentry.
      case_decide as Hne; [|done]. by injection Hentry as <-.
    + intros Hne.
      destruct (entry (Cli.collect before) (Cli.collect after) action)
        as [detail|] eqn:Hentry.
      * exists detail. split; [symmetry; by eapply Hkey|].
        exists action. split; [|done].
        apply elem_of_sorted_set, elem_of_union.
        destruct (Cli.collect before !! action) as [b|] eqn:Hb;
          [left; apply elem_of_dom; by eexists|].
        destruct (Cli.collect after !! action) as [a|] eqn:Ha;
          [right; apply elem_of_dom; by eexists|].
        exfalso. by apply Hne.
      * unfold entry in Hentry. by rewrite decide_True in Hentry.
  - apply collect_lookup.
  - induction (sorted_set _) as [|action actions IH]; [done|].
    cbn [omap list_omap]. unfold entry at 1. by rewrite decide_False by by intros [].
Qed.

End WithFnmatch.

End ReportFacts.

(** ** Merged conditions, operator by operator *)

Module MergeFacts.

Import ConditionReducer ConditionReducerFacts.

(** X24.  What [merge] binds to an operator depends only on the values the
    condition maps bind to that operator, in their order: nothing when no
    map binds it, and otherwise the first such value combined with the
    later ones from left to right.  So the merged map binds exactly the
    operators that some map binds. *)
Theorem merge_per_operator (conditions : list (gmap string value)) :
  (∀ op,
     merge conditions !! op
     = match omap (λ condition : gmap string value, condition !! op) conditions with
       | [] => None
       | first :: later => Some (fold_left _combine_values later first)
       end)
  ∧ dom (merge conditions) = ⋃ (dom <$> conditions).
Proof.
  assert (Hlookup : ∀ op,
     merge conditions !! op
     = match omap (λ condition : gmap string value, condition !! op) conditions with
       | [] => None
       | first :: later => Some (fold_left _combine_values later first)
       end).
  { intros op. induction conditions as [|condition conditions IH] using rev_ind.
    - done.
    - rewrite merge_snoc, merge_condition_lookup, IH, omap_app.
      cbn [omap list_omap]. unfold meet.
      destruct (condition !! op) as [new|].
      + destruct (omap _ conditions) as [|first later]; [done|].
        by rewrite <- app_comm_cons, fold_left_app.
      + rewrite app_nil_r. by destruct (omap _ conditions). }
  split; [done|]. apply set_eq. intros op.
  rewrite elem_of_dom, Hlookup, elem_of_union_list.
  split.
  - destruct (omap _ conditions) as [|first later] eqn:Hvalues;
      [by intros [? ?]|]. intros _.
    assert (Hin : first ∈ omap (λ condition : gmap string value, condition !! op)
                            conditions)
      by (rewrite Hvalues; apply list_elem_of_here).
    apply list_elem_of_omap in Hin as (condition & Hin & Hop).
    exists (dom condition). split; [by apply list_elem_of_fmap_2|].
    apply elem_of_dom. by eexists.
  - intros (keys & (condition & -> & Hin)%list_elem_of_fmap & [v Hv]%elem_of_dom).
    assert (Hvalue : v ∈ omap (λ condition : gmap string value, condition !! op)
                           conditions)
      by (apply list_elem_of_omap; by exists condition).
    destruct (omap _ conditions); [by apply elem_of_nil in Hvalue|by eexists].
Qed.

End MergeFacts.

(** ** Filtering and generating together *)

Module PipelineFacts.

Import PolicyGenerator.

Section WithLibraries.
Variable fnmatch : string → string → bool.
Variable json_dumps : gmap string ConditionReducer.value → string.

Local Abbreviation _compose_statements :=
  (PolicyGenerator._compose_statements json_dumps).
Local Abbreviation build := (PolicyGenerator.build json_dumps).

(** No allowlist pattern for actions matches the action. *)
Definition unlisted (allowed : Cli.allowlist) (action : string) : Prop :=
  existsb (λ pattern, fnmatch action pattern) (Cli.actions allowed) = false.

Lemma composed_from_kept (self : t) (allowed : Cli.allowlist)
    (test : ActionRecord.t → bool) (records : list ActionRecord.t) :
  (∀ record, test record = false → unlisted allowed (ActionRecord.action record)) →
  Forall (λ statement, Forall (unlisted allowed) (PolicyStatement.actions statement))
    (_compose_statements self (filter (λ record, test record = false) records)).
Proof.
  intros Htest. apply Forall_forall. intros statement Hin.
  apply Forall_forall. intros a Ha.
  destruct (StatementFacts.composed_action_origin json_dumps self _ _ _ Hin Ha)
    as (record & [Hkept _]%list_elem_of_filter & <- & _).
  by apply Htest.
Qed.

Lemma elem_of_concat {A} (x : A) (l : list A) (ls : list (list A)) :
  x ∈ l → l ∈ ls → x ∈ concat ls.
Proof.
  intros Hx. induction ls as [|l' ls IH]; [by intros ?%elem_of_nil|].
  cbn [concat]. rewrite elem_of_app. intros [->|?]%elem_of_cons; auto.
Qed.

Lemma chunk_statements_subset (self : t) (statements : list PolicyStatement.t)
    (d : PolicyDoc.t) (statement : PolicyStatement.t) :
  d ∈ _chunk_statements self statements →
  statement ∈ PolicyDoc.statements d → statement ∈ statements.
Proof.
  intros Hd Hstatement.
  destruct (max_statements self) as [m|] eqn:Hmax.
  - destruct (decide (0 < m)) as [Hpos|Hneg].
    + destruct (PolicyGeneratorFacts.chunk_statements_positive self statements m
                  Hmax Hpos) as (Hconcat & _).
      rewrite <- Hconcat. apply (elem_of_concat _ (PolicyDoc.statements d)); [done|].
      by apply list_elem_of_fmap_2.
    + destruct (decide (m = 0)) as [-> | Hne].
      * rewrite PolicyGeneratorFacts.chunk_statements_unset in Hd by by right.
        by apply list_elem_of_singleton in Hd as ->.
      * unfold _chunk_statements in Hd. rewrite Hmax in Hd.
        rewrite (bool_decide_eq_false_2 (m = 0)) in Hd by done.
        case_bool_decide as Hlen; cbn [orb] in Hd.
        -- by apply list_elem_of_singleton in Hd as ->.
        -- unfold py_range in Hd.
           rewrite StatementFacts.range_go_negative in Hd by lia.
           by apply elem_of_nil in Hd.
  - rewrite PolicyGeneratorFacts.chunk_statements_unset in Hd by by left.
    by apply list_elem_of_singleton in Hd as ->.
Qed.

Lemma built_from_kept (self : t) (allowed : Cli.allowlist)
    (test : ActionRecord.t → bool) (records : list ActionRecord.t)
    (primary : PolicyDoc.t) (overflow : list PolicyDoc.t) :
  (∀ record, test record = false → unlisted allowed (ActionRecord.action record)) →
  build self (filter (λ record, test record = false) records)
  = Some (primary, overflow) →
  Forall (λ d,
            Forall (λ statement,
                      statement = _logs_baseline_statement
                      ∨ Forall (unlisted allowed) (PolicyStatement.actions statement))
              (PolicyDoc.statements d))
    (primary :: overflow).
Proof.
  intros Htest Hbuild. apply Forall_forall. intros d Hd.
  apply Forall_forall. intros statement Hstatement.
  destruct (filter (λ record, test record = false) records) as [|r kept] eqn:Hkept.
  - injection Hbuild as <- <-. apply list_elem_of_singleton in Hd as ->.
    by apply elem_of_nil in Hstatement.
  - rewrite <- Hkept in Hbuild.
    rewrite PolicyGeneratorFacts.build_unfold in Hbuild by (left; by rewrite Hkept).
    destruct (_chunk_statements self _) as [|first rest] eqn:Hchunks; [done|].
    injection Hbuild as <- <-. rewrite <- Hchunks in Hd.
    apply (chunk_statements_subset _ _ _ _ Hd) in Hstatement.
    unfold PolicyGeneratorFacts.pending_statements in Hstatement.
    assert (Hcomposed :
              statement ∈ _compose_statements self
                            (filter (λ record, test record = false) records) →
              Forall (unlisted allowed) (PolicyStatement.actions statement)).
    { intros Hin.
      by apply (proj1 (Forall_forall _ _)
                  (composed_from_kept self allowed test records Htest)). }
    destruct (_ && _); [|by right; apply Hcomposed].
    apply elem_of_app in Hstatement as [?| ->%list_elem_of_singleton];
      [right; by apply Hcomposed|by left].
Qed.

(** X25.  Whatever [build] returns for the records that the allowlist filter of
    the command line, or of the API route, has kept: no statement of the
    primary document or of an overflow document holds an action that an
    allowlist pattern for actions matches, save for the log baseline
    statement, which the generator adds on its own. *)
Theorem allowlisted_actions_stay_out (self : t) (records : list ActionRecord.t)
    (allowed : Cli.allowlist) :
  (∀ primary overflow,
     build self (Cli._apply_allowlist fnmatch records allowed).1
     = Some (primary, overflow) →
     Forall (λ d,
               Forall (λ statement,
                         statement = _logs_baseline_statement
                         ∨ Forall (λ action,
                                     existsb (λ pattern, fnmatch action pattern)
                                       (Cli.actions allowed) = false)
                             (PolicyStatement.actions statement))
                 (PolicyDoc.statements d))
       (primary :: overflow))
  ∧ (∀ primary overflow,
       build self (ApiGenerate._filter_allowlist fnmatch records allowed).1
       = Some (primary, overflow) →
       Forall (λ d,
                 Forall (λ statement,
                           statement = _logs_baseline_statement
                           ∨ Forall (λ action,
                                       existsb (λ pattern, fnmatch action pattern)
                                         (Cli.actions allowed) = false)
                               (PolicyStatement.actions statement))
                   (PolicyDoc.statements d))
         (primary :: overflow)).
Proof.
  split; intros primary overflow Hbuild.
  - rewrite AllowlistFacts.apply_allowlist_unfold in Hbuild. cbn [fst] in Hbuild.
    apply (built_from_kept self allowed
             (λ record, Cli._is_allowlisted fnmatch (ActionRecord.action record)
                          (ActionRecord.principal_arn record)
                          (ActionRecord.resources record) allowed)
             records primary overflow); [|done].
    intros record. unfold Cli._is_allowlisted, unlisted.
    by destruct (existsb _ (Cli.actions allowed)).
  - rewrite AllowlistFacts.filter_allowlist_unfold in Hbuild. cbn [fst] in Hbuild.
    apply (built_from_kept self allowed (ApiGenerate.is_allowed fnmatch allowed)
             records primary overflow); [|done].
    intros record. unfold ApiGenerate.is_allowed, unlisted.
    by destruct (existsb _ (Cli.actions allowed)).
Qed.

End WithLibraries.

End PipelineFacts.

(** * Worked examples from the test suite *)

Module Examples.

Import PyOrder ConditionReducer.

(** Stand-ins for the library collaborators.  [glob] agrees with
    [fnmatch.fnmatch] on patterns made of literal characters, [*] and [?];
    a regular expression without special characters is searched as a
    substring; [tagged_dumps] is an injective serialisation of condition
    maps that writes the empty map as "{}". *)
Fixpoint glob_from (pattern name : string) {struct pattern} : bool :=
  match pattern with
  | EmptyString => bool_decide (name = EmptyString)
  | String p pattern' =>
      if decide (p = "*"%char) then
        (fix any (n : string) : bool :=
           glob_from pattern' n
           || match n with
              | EmptyString => false
              | String _ n' => any n'
              end) name
      else
        match name with
        | EmptyString => false
        | String c name' =>
            (bool_decide (p = "?"%char) || bool_decide (p = c))
            && glob_from pattern' name'
        end
  end.

Definition glob (name pattern : string) : bool := glob_from pattern name.

Definition literal_compile (expression : string) : option string := Some expression.

Definition literal_search (expression subject : string) : bool :=
  bool_decide (is_Some (String.index 0 expression subject)).

Global Instance value_countable : Countable value.
Proof.
  refine (inj_countable'
    (λ v, match v with
          | VStr s => inl s
          | VList xs => inr (inl xs)
          | VInt n => inr (inr (inl n))
          | VBool b => inr (inr (inr (inl b)))
          | VNone => inr (inr (inr (inr (inl ()))))
          | VDict d => inr (inr (inr (inr (inr d))))
          end)
    (λ x, match x with
          | inl s => VStr s
          | inr (inl xs) => VList xs
          | inr (inr (inl n)) => VInt n
          | inr (inr (inr (inl b))) => VBool b
          | inr (inr (inr (inr (inl _)))) => VNone
          | inr (inr (inr (inr (inr d)))) => VDict d
          end) _).
  by intros [].
Defined.

Definition tagged_dumps (d : gmap string value) : string :=
  if decide (d = ∅) then "{}" else "[" +:+ pretty (encode d).

Lemma tagged_dumps_inj : Inj (=) (=) tagged_dumps.
Proof.
  intros d1 d2. unfold tagged_dumps. repeat case_decide; subst; try done.
  intros Heq. injection Heq as Heq.
  change (pretty (encode d1) = pretty (encode d2)) in Heq.
  apply (inj pretty) in Heq. by apply (inj encode) in Heq.
Qed.

Lemma tagged_dumps_empty : tagged_dumps ∅ = "{}".
Proof. reflexivity. Qed.

(** The event of the aggregator tests. *)
Definition get_object_event (time : Z) : EventModel.t :=
  {| EventModel.event_time := time;
     EventModel.principal_arn := "arn:aws:iam::123456789012:user/Alice";
     EventModel.principal_type := "user";
     EventModel.account_id := "123456789012";
     EventModel.region := "us-east-1";
     EventModel.event_source := "s3.amazonaws.com";
     EventModel.action := "GetObject";
     EventModel.request_parameters := ∅;
     EventModel.response_elements := ∅;
     EventModel.resource_arns := ["arn:aws:s3:::example/*"];
     EventModel.error_code := None;
     EventModel.aws_service := "s3";
     EventModel.is_read_only := false;
     EventModel.is_denied_pre_policy := false |}.

(** [ActionAggregator(min_count=mc)] *)
Definition plain_aggregator (mc : Z) : ActionAggregator.t :=
  {| ActionAggregator.principal_pattern := None : option string;
     ActionAggregator.exclude_patterns := [];
     ActionAggregator.allow_patterns := [];
     ActionAggregator.allow_principals := [];
     ActionAggregator.allow_resource_patterns := [];
     ActionAggregator.min_count := Z.max mc 1 |}.

Definition aggregate := ActionAggregator.aggregate literal_search glob.

Example constructor_floors_min_count :
  ActionAggregator.__init__ literal_compile None ActionAggregator.ArgNone
    ActionAggregator.ArgNone ActionAggregator.ArgNone ActionAggregator.ArgNone (-3)
  = Some (plain_aggregator 1).
Proof. reflexivity. Qed.

Example two_identical_events :
  aggregate (plain_aggregator 1) [get_object_event 10; get_object_event 20]
  = [ {| ActionRecord.principal_arn := "arn:aws:iam::123456789012:user/Alice";
         ActionRecord.service := "s3";
         ActionRecord.action := "s3:GetObject";
         ActionRecord.count := 2;
         ActionRecord.resources := ["arn:aws:s3:::example/*"];
         ActionRecord.conditions := [];
         ActionRecord.last_seen := Some 20 |} ].
Proof. vm_compute. reflexivity. Qed.

Example min_count_two_drops_singleton :
  aggregate (plain_aggregator 2) [get_object_event 10] = [].
Proof. vm_compute. reflexivity. Qed.

Example exclude_pattern_removes_usage :
  ActionAggregator.__init__ literal_compile None (ActionAggregator.ArgStr "s3:Get*")
    ActionAggregator.ArgNone ActionAggregator.ArgNone ActionAggregator.ArgNone 1
  ≫= (λ self, Some (aggregate self [get_object_event 10]))
  = Some [].
Proof. vm_compute. reflexivity. Qed.

Example principal_filter_matches_nothing :
  ActionAggregator.__init__ literal_compile (Some "Bob") ActionAggregator.ArgNone
    ActionAggregator.ArgNone ActionAggregator.ArgNone ActionAggregator.ArgNone 1
  ≫= (λ self, Some (aggregate self [get_object_event 10]))
  = Some [].
Proof. vm_compute. reflexivity. Qed.

Example resource_allow_pattern_removes_usage :
  ActionAggregator.__init__ literal_compile None ActionAggregator.ArgNone
    ActionAggregator.ArgNone ActionAggregator.ArgNone
    (ActionAggregator.ArgList ["arn:aws:s3:::example/*"]) 1
  ≫= (λ self, Some (aggregate self [get_object_event 10]))
  = Some [].
Proof. vm_compute. reflexivity. Qed.

(** C2 fails as stated: two qualifying events folded into one record
    leave its condition list empty. *)
Lemma condition_list_counterexample :
  ∃ rec,
    aggregate (plain_aggregator 1) [get_object_event 10; get_object_event 20] = [rec]
    ∧ ActionRecord.count rec = 2
    ∧ length (ActionRecord.conditions rec) ≠ 2%nat.
Proof. eexists. split; [vm_compute; reflexivity|]. split; [done|]. simpl. lia. Qed.

(** The records of the generator tests. *)
Definition usage (service action : string) (resources : list string)
    (conditions : list (gmap string value)) : ActionRecord.t :=
  {| ActionRecord.principal_arn := "arn:aws:iam::123456789012:role/Test";
     ActionRecord.service := service;
     ActionRecord.action := action;
     ActionRecord.count := 1;
     ActionRecord.resources := resources;
     ActionRecord.conditions := conditions;
     ActionRecord.last_seen := None |}.

(** [PolicyGenerator(mode=..., include_logs_baseline=..., max_statements=...)] *)
Definition generator (mode : string) (baseline : bool) (limit : option Z)
    : PolicyGenerator.t :=
  {| PolicyGenerator.arn_rules := ArnRuleRegistry.make ∅;
     PolicyGenerator.resource_levels := ResourceLevelIndex.make;
     PolicyGenerator.mode := mode;
     PolicyGenerator.include_logs_baseline := baseline;
     PolicyGenerator.principal_arn := None;
     PolicyGenerator.max_statements := limit |}.

Definition build := PolicyGenerator.build tagged_dumps.

Example constructor_rejects_unknown_mode :
  PolicyGenerator.__init__ None None "everything" false None None = None.
Proof. reflexivity. Qed.

Example build_of_nothing :
  build (generator "actions" false None) [] = Some (PolicyDoc.make [], []).
Proof. reflexivity. Qed.

Example groups_actions_by_resource :
  build (generator "actions" false None)
    [ usage "s3" "s3:PutObject" ["arn:aws:s3:::example/*"] [];
      usage "s3" "s3:GetObject" ["arn:aws:s3:::example/*"] [] ]
  = Some (PolicyDoc.make
            [ {| PolicyStatement.sid := Some "s3_allow_001";
                 PolicyStatement.effect := "Allow";
                 PolicyStatement.actions := ["s3:GetObject"; "s3:PutObject"];
                 PolicyStatement.resources := ["arn:aws:s3:::example/*"];
                 PolicyStatement.conditions := ∅ |} ], []).
Proof. vm_compute. reflexivity. Qed.

Example logs_baseline_is_appended :
  build (generator "actions" true None) [ usage "lambda" "lambda:InvokeFunction" [] [] ]
  = Some (PolicyDoc.make
            [ {| PolicyStatement.sid := Some "lambda_allow_001";
                 PolicyStatement.effect := "Allow";
                 PolicyStatement.actions := ["lambda:InvokeFunction"];
                 PolicyStatement.resources := ["*"];
                 PolicyStatement.conditions := ∅ |};
              PolicyGenerator._logs_baseline_statement ], []).
Proof. vm_compute. reflexivity. Qed.

Example splits_policies_when_limit :
  build (generator "actions" false (Some 1))
    [ usage "s3" "s3:GetObject" ["arn:aws:s3:::a/*"] [];
      usage "sqs" "sqs:SendMessage" ["arn:aws:sqs:us-east-1:123456789012:queue"] [] ]
  = Some (PolicyDoc.make
            [ {| PolicyStatement.sid := Some "s3_allow_001";
                 PolicyStatement.effect := "Allow";
                 PolicyStatement.actions := ["s3:GetObject"];
                 PolicyStatement.resources := ["arn:aws:s3:::a/*"];
                 PolicyStatement.conditions := ∅ |} ],
          [ PolicyDoc.make
              [ {| PolicyStatement.sid := Some "sqs_allow_001";
                   PolicyStatement.effect := "Allow";
                   PolicyStatement.actions := ["sqs:SendMessage"];
                   PolicyStatement.resources :=
                     ["arn:aws:sqs:us-east-1:123456789012:queue"];
                   PolicyStatement.conditions := ∅ |} ] ]).
Proof. vm_compute. reflexivity. Qed.

(** A negative limit leaves no chunk at all, and [policies[0]] fails. *)
Example negative_limit_raises :
  build (generator "actions" false (Some (-1)))
    [ usage "s3" "s3:GetObject" ["arn:aws:s3:::a/*"] [] ] = None.
Proof. vm_compute. reflexivity. Qed.

Example sid_of_long_service :
  PolicyGenerator._build_sid
    (String.concat "" (replicate 200 "a")) 1
  = String.concat "" (replicate 40 "a") +:+ "_allow_001".
Proof. vm_compute. reflexivity. Qed.

(** The mode makes no difference for a record without observed
    resources. *)
Example resources_mode_without_resources :
  build (generator "resources" false None) [ usage "s3" "s3:GetObject" [] [] ]
  = build (generator "actions" false None) [ usage "s3" "s3:GetObject" [] [] ].
Proof. vm_compute. reflexivity. Qed.

Definition tagged_get : ActionRecord.t :=
  usage "s3" "s3:GetObject" ["arn:aws:s3:::example/*"]
    [ {[ "StringEquals" := VStr "prod" ]}; {[ "StringEquals" := VStr "dev" ]} ].

Definition tagged_put : ActionRecord.t :=
  usage "s3" "s3:PutObject" ["arn:aws:s3:::example/*"]
    [ {[ "StringEquals" := VList ["dev"; "prod"] ]} ].

Definition listing : ActionRecord.t := usage "s3" "s3:ListAllMyBuckets" [] [].

Example merged_conditions_group_together :
  build (generator "actions" false None) [tagged_get; listing; tagged_put]
  = Some (PolicyDoc.make
            [ {| PolicyStatement.sid := Some "s3_allow_001";
                 PolicyStatement.effect := "Allow";
                 PolicyStatement.actions := ["s3:ListAllMyBuckets"];
                 PolicyStatement.resources := ["*"];
                 PolicyStatement.conditions := ∅ |};
              {| PolicyStatement.sid := Some "s3_allow_002";
                 PolicyStatement.effect := "Allow";
                 PolicyStatement.actions := ["s3:GetObject"; "s3:PutObject"];
                 PolicyStatement.resources := ["arn:aws:s3:::example/*"];
                 PolicyStatement.conditions :=
                   {[ "StringEquals" := VList ["dev"; "prod"] ]} |} ], []).
Proof. vm_compute. reflexivity. Qed.

(** C5 at a concrete input: three records, two of them in one group, and
    the same records in another order. *)
Lemma build_ignores_record_order_witness :
  [tagged_get; listing; tagged_put] ≡ₚ [tagged_put; tagged_get; listing]
  ∧ build (generator "actions" false (Some 1)) [tagged_get; listing; tagged_put]
    = build (generator "actions" false (Some 1)) [tagged_put; tagged_get; listing].
Proof.
  assert (Hperm : [tagged_get; listing; tagged_put]
                  ≡ₚ [tagged_put; tagged_get; listing]).
  { change ([tagged_get; listing] ++ [tagged_put]
            ≡ₚ [tagged_put] ++ [tagged_get; listing]).
    apply Permutation_app_comm. }
  split; [exact Hperm|].
  exact (PolicyGeneratorFacts.build_ignores_record_order tagged_dumps
           tagged_dumps_inj tagged_dumps_empty
           (generator "actions" false (Some 1)) _ _ Hperm).
Defined.

(** The documents of the simulator tests. *)
Definition allow (actions resources : list string) : PolicyStatement.t :=
  {| PolicyStatement.sid := None;
     PolicyStatement.effect := "Allow";
     PolicyStatement.actions := actions;
     PolicyStatement.resources := resources;
     PolicyStatement.conditions := ∅ |}.

Definition probe (action resource : string) : PolicySimulator.SimulationCase :=
  {| PolicySimulator.action := action;
     PolicySimulator.resource := resource;
     PolicySimulator.context := None |}.

Example local_simulation_allows_matching_action :
  PolicySimulator.compare
    (PolicyDoc.make [allow ["s3:GetObject"] ["arn:aws:s3:::bucket/*"]])
    (PolicyDoc.make [allow ["s3:PutObject"] ["*"]])
    [probe "s3:GetObject" "arn:aws:s3:::bucket/object.txt"]
  = [ {| PolicySimulator.row_action := "s3:GetObject";
         PolicySimulator.row_resource := "arn:aws:s3:::bucket/object.txt";
         PolicySimulator.row_context := ∅;
         PolicySimulator.row_before := "Allow";
         PolicySimulator.row_after := "Deny" |} ].
Proof. vm_compute. reflexivity. Qed.

Example wildcard_probe_against_concrete_pattern :
  PolicySimulator.decision [allow ["s3:*"] ["arn:aws:s3:::bucket/*"]]
    (probe "s3:GetObject" "*") = "Deny".
Proof. reflexivity. Qed.

Example wildcard_probe_against_no_pattern :
  PolicySimulator.decision [allow ["s3:*"] []] (probe "s3:GetObject" "*") = "Allow".
Proof. reflexivity. Qed.

(** The end-to-end scenario: the synthesized policy against an empty one. *)
Example diff_against_empty_policy :
  let synthesized :=
    PolicyDoc.make [allow ["s3:GetObject"; "s3:PutObject"] ["arn:aws:s3:::example/*"]] in
  let diff := {| PolicyDiff.before := synthesized;
                 PolicyDiff.after := PolicyDoc.make [] |} in
  PolicyDiff.allowed_action_delta diff = -2
  ∧ (PolicyDiff.resource_reduction_ratio diff == 1)%Q.
Proof. split; reflexivity. Qed.

Example ratio_without_before_resources :
  (PolicyDiff.resource_reduction_ratio
     {| PolicyDiff.before := PolicyDoc.make [];
        PolicyDiff.after := PolicyDoc.make [allow ["s3:GetObject"] ["*"]] |} == 0)%Q.
Proof. reflexivity. Qed.

(** The events of the inference tests. *)
Definition request (service : string) (parameters : list (string * string))
    : EventModel.t :=
  {| EventModel.event_time := 0;
     EventModel.principal_arn := "arn:aws:iam::123456789012:user/Alice";
     EventModel.principal_type := "user";
     EventModel.account_id := "123456789012";
     EventModel.region := "us-east-1";
     EventModel.event_source := service +:+ ".amazonaws.com";
     EventModel.action := "GetObject";
     EventModel.request_parameters := list_to_map parameters;
     EventModel.response_elements := ∅;
     EventModel.resource_arns := [];
     EventModel.error_code := None;
     EventModel.aws_service := service;
     EventModel.is_read_only := false;
     EventModel.is_denied_pre_policy := false |}.

Definition infer := ArnRuleRegistry.infer (ArnRuleRegistry.make ∅).

Example registry_falls_back_to_star :
  elements (infer (request "unknownservice" [])) = ["*"].
Proof. vm_compute. reflexivity. Qed.

Example infer_s3 :
  sorted_set (infer (request "s3" [("bucketName", "example"); ("key", "object.txt")]))
  = ["arn:aws:s3:::example"; "arn:aws:s3:::example/object.txt"].
Proof. vm_compute. reflexivity. Qed.

Example infer_dynamodb :
  elements (infer (request "dynamodb" [("tableName", "Orders")]))
  = ["arn:aws:dynamodb:us-east-1:123456789012:table/Orders"].
Proof. vm_compute. reflexivity. Qed.

Example infer_sqs_from_url :
  elements (infer (request "sqs"
    [("queueUrl", "https://sqs.us-east-1.amazonaws.com/123456789012/MyQueue")]))
  = ["arn:aws:sqs:us-east-1:123456789012:MyQueue"].
Proof. vm_compute. reflexivity. Qed.

Example infer_sns_from_name :
  elements (infer (request "sns" [("topicName", "alerts")]))
  = ["arn:aws:sns:us-east-1:123456789012:alerts"].
Proof. vm_compute. reflexivity. Qed.

Example infer_kms_from_id :
  elements (infer (request "kms" [("keyId", "1234abcd-12ab-34cd-56ef-1234567890ab")]))
  = ["arn:aws:kms:us-east-1:123456789012:key/1234abcd-12ab-34cd-56ef-1234567890ab"].
Proof. vm_compute. reflexivity. Qed.

Example infer_secret_from_plain_name :
  elements (infer (request "secretsmanager" [("secretId", "MySecret")]))
  = ["arn:aws:secretsmanager:us-east-1:123456789012:secret:MySecret*"].
Proof. vm_compute. reflexivity. Qed.

Example infer_ssm_parameter :
  elements (infer (request "ssm" [("name", "/app/config")]))
  = ["arn:aws:ssm:us-east-1:123456789012:parameter//app/config"].
Proof. vm_compute. reflexivity. Qed.

Example infer_ec2_volume :
  elements (infer (request "ec2" [("resourceId", "vol-0abc")]))
  = ["arn:aws:ec2:us-east-1:123456789012:volume/vol-0abc"].
Proof. vm_compute. reflexivity. Qed.

Example infer_lambda_fallback :
  elements (infer (request "lambda" [])) = ["*"].
Proof. vm_compute. reflexivity. Qed.

Example capability_table_defaults :
  ResourceLevelIndex.allows_scoping ResourceLevelIndex.make "s3:GetObject" = true
  ∧ ResourceLevelIndex.allows_scoping ResourceLevelIndex.make "ec2:DescribeInstances"
    = false
  ∧ ResourceLevelIndex.allows_scoping ResourceLevelIndex.make "glue:GetTable" = false.
Proof. vm_compute. done. Qed.


(** The pattern arguments of the constructor: a string is split at the
    commas, the pieces are stripped, the empty ones dropped. *)
Example patterns_from_a_string :
  ActionAggregator.parse_patterns (ActionAggregator.ArgStr " s3:Get* , ,iam:PassRole,")
  = ["s3:Get*"; "iam:PassRole"].
Proof. vm_compute. reflexivity. Qed.

(** A pattern that holds a comma does not survive being joined and read
    back. *)
Example pattern_with_comma_is_split :
  ActionAggregator.parse_patterns
    (ActionAggregator.ArgStr (String.concat "," ["arn:aws:s3:::a,b"; "s3:*"]))
  = ["arn:aws:s3:::a"; "b"; "s3:*"].
Proof. vm_compute. reflexivity. Qed.

(** X4 at a concrete input: the same two events, either way round. *)
Lemma aggregate_arrival_order_witness :
  AggregateInvariants.summary
    <$> aggregate (plain_aggregator 1) [get_object_event 10; get_object_event 20]
  = AggregateInvariants.summary
      <$> aggregate (plain_aggregator 1) [get_object_event 20; get_object_event 10].
Proof.
  apply (AggregateInvariants.aggregate_arrival_order literal_search glob
           (plain_aggregator 1)).
  apply perm_swap.
Defined.

(** X12 at a concrete input: an s3 request without parameters and without
    listed resources gets the wildcard, alone. *)
Lemma wildcard_is_last_resort_witness :
  "*" ∉ infer (request "s3" []) ∨ infer (request "s3" []) = {[ "*" ]}.
Proof.
  apply (InferenceFacts.wildcard_is_last_resort (request "s3" [])).
  - intros Hin. cbn [request EventModel.aws_service] in Hin.
    repeat (apply elem_of_cons in Hin as [Hin|Hin]; [discriminate|]).
    by apply elem_of_nil in Hin.
  - apply not_elem_of_nil.
Defined.

(** The sns extractor passes the topic parameter through as it is. *)
Example sns_passes_the_parameter_through :
  elements (infer (request "sns" [("topicArn", "*")])) = ["*"]
  ∧ sorted_set (infer (request "sns" [("topicArn", "not-an-arn")])) = ["not-an-arn"].
Proof. vm_compute. done. Qed.

(** A document with two statements, for the counting functions. *)
Definition mixed_policy : PolicyDoc.t :=
  PolicyDoc.make
    [ allow ["s3:GetObject"; "iam:PassRole"] ["*"];
      allow ["s3:PutObject"; "kms:Decrypt"; "sts:AssumeRole"] ["arn:aws:s3:::example/*"] ].

Example services_of_a_document :
  PolicyDoc.services mixed_policy = ["iam"; "kms"; "s3"; "sts"]
  ∧ PolicyDiff._high_risk mixed_policy = 3
  ∧ PolicyDiff._count_actions mixed_policy = 5
  ∧ PolicyDiff._service_counts mixed_policy !! "s3" = Some 2
  ∧ PolicyDiff._service_counts mixed_policy !! "iam" = Some 1
  ∧ PolicyDiff._service_counts mixed_policy !! "glue" = None.
Proof. vm_compute. done. Qed.

Example top_changes_against_a_smaller_policy :
  PolicyDiff._top_service_changes
    {| PolicyDiff.before := mixed_policy;
       PolicyDiff.after := PolicyDoc.make [allow ["s3:GetObject"] ["*"]] |} 2
  = [("iam", 1, 0); ("kms", 1, 0)]
  ∧ PolicyDiff._top_service_changes
      {| PolicyDiff.before := mixed_policy;
         PolicyDiff.after := PolicyDoc.make [allow ["s3:GetObject"] ["*"]] |} (-1)
    = [("iam", 1, 0); ("kms", 1, 0); ("s3", 2, 1)].
Proof. vm_compute. done. Qed.

(** The allowlist of the filters' examples. *)
Definition everyone : Cli.allowlist :=
  {| Cli.actions := [];
     Cli.resources := [];
     Cli.principals := ["*"];
     Cli.reason := Some "migration";
     Cli.owner := Some "platform";
     Cli.expiresAt := Some "2030-01-01T00:00:00Z" |}.

(** With the empty principal the command line does not consult the
    principal patterns, the aggregator and the API route do. *)
Example empty_principal_and_principal_patterns :
  Cli._is_allowlisted glob "s3:GetObject" "" [] everyone = false
  ∧ ActionAggregator._is_allowlisted glob
      {| ActionAggregator.principal_pattern := None : option string;
         ActionAggregator.exclude_patterns := [];
         ActionAggregator.allow_patterns := [];
         ActionAggregator.allow_principals := ["*"];
         ActionAggregator.allow_resource_patterns := [];
         ActionAggregator.min_count := 1 |} "s3:GetObject" "" [] = true
  ∧ ApiGenerate.is_allowed glob everyone
      {| ActionRecord.principal_arn := ""; ActionRecord.service := "s3";
         ActionRecord.action := "s3:GetObject"; ActionRecord.count := 1;
         ActionRecord.resources := []; ActionRecord.conditions := [];
         ActionRecord.last_seen := None |} = true.
Proof. vm_compute. done. Qed.

(** An action listed by two statements is compared on the resources of
    the later one. *)
Example resource_differences_of_two_policies :
  Cli.detail_action
    <$> Cli._resource_differences glob
          (PolicyDoc.make [allow ["s3:GetObject"] ["arn:aws:s3:::a/*"];
                           allow ["s3:GetObject"; "s3:PutObject"] []])
          (PolicyDoc.make [allow ["s3:GetObject"] ["*"];
                           allow ["s3:PutObject"] ["arn:aws:s3:::a/*"]])
          everyone
  = ["s3:PutObject"].
Proof. vm_compute. reflexivity. Qed.

End Examples.
